(** * fork-off-substrate: the chunked state fetch and the genesis splice

    A shallow embedding of [index.js].  The script downloads the whole
    key-value state of a live chain through its RPC endpoint into
    [data/storage.json] and then splices a prefix-selected part of it into
    a freshly built development chain specification.

    Layout of the file:
    - JavaScript primitives the script relies on (number formatting,
      [padStart], [startsWith], [slice], [JSON.stringify] on key/value
      pairs);
    - the module-level state of the script and the effects on it;
    - [fetchChunks] as a program over RPC awaits, with one interpreter for
      awaited calls and one for [Promise.all];
    - the fetch phase and the splice of [main];
    - the properties. *)

From Stdlib Require Import String Ascii List Arith Lia DecimalString Permutation.
From Stdlib Require OrderedTypeEx.
From stdpp Require Import gmap strings list.

Set Warnings "-register-all".

(** ** JavaScript primitives *)

(** One digit of [Number.prototype.toString(16)]: lower case. *)
Definition hex_digit (d : nat) : ascii :=
  ascii_of_nat (if d <? 10 then 48 + d else 87 + d).

Fixpoint toString16_digits (fuel n : nat) (acc : string) : string :=
  let acc' := String (hex_digit (n mod 16)) acc in
  match fuel with
  | 0 => acc'
  | S fuel' => if n / 16 =? 0 then acc' else toString16_digits fuel' (n / 16) acc'
  end.

(** [i.toString(16)] for a non-negative integer [i]. *)
Definition toString16 (i : nat) : string := toString16_digits i i "".

Fixpoint repeat_char (c : ascii) (n : nat) : string :=
  match n with
  | 0 => ""
  | S n' => String c (repeat_char c n')
  end.

(** [s.padStart(targetLength, pad)] for a one-character [pad]. *)
Definition padStart (targetLength : nat) (pad : ascii) (s : string) : string :=
  repeat_char pad (targetLength - String.length s) +:+ s.

(** [i.toString(16).padStart(2, "0")], the suffix of a child prefix. *)
Definition hex2 (i : nat) : string := padStart 2 "0" (toString16 i).

(** [s.startsWith(searchString)]. *)
Definition startsWith (s searchString : string) : bool :=
  String.prefix searchString s.

(** [s.slice(start, -fromEnd)]. *)
Definition slice (s : string) (start fromEnd : nat) : string :=
  String.substring start (String.length s - fromEnd - start) s.

(** Decimal rendering of a number in a string concatenation. *)
Definition dec (n : nat) : string := NilEmpty.string_of_uint (Nat.to_uint n).

Fixpoint join (sep : string) (l : list string) : string :=
  match l with
  | [] => ""
  | [x] => x
  | x :: rest => x +:+ sep +:+ join sep rest
  end.

(** The values a storage entry can hold on the JavaScript side: a hex
    string, [null] for an absent value, and [undefined], which is what
    indexing an array past its end gives. *)
Inductive jsval : Type :=
| JUndefined
| JNull
| JString (s : string).

Definition dquote : string := String "034"%char "".

(** [JSON.stringify] on one character of a string. *)
Definition JSON_escape (c : ascii) : string :=
  let n := nat_of_ascii c in
  if n =? 34 then "\" +:+ dquote
  else if n =? 92 then "\\"
  else if n =? 8 then "\b"
  else if n =? 12 then "\f"
  else if n =? 10 then "\n"
  else if n =? 13 then "\r"
  else if n =? 9 then "\t"
  else if n <? 32 then "\u00" +:+ hex2 n
  else String c "".

Fixpoint JSON_escape_all (s : string) : string :=
  match s with
  | EmptyString => ""
  | String c s' => JSON_escape c +:+ JSON_escape_all s'
  end.

(** [JSON.stringify(s)] for a string [s]. *)
Definition JSON_quote (s : string) : string :=
  dquote +:+ JSON_escape_all s +:+ dquote.

(** [JSON.stringify] of an array element: [undefined] is written as
    [null] inside an array. *)
Definition JSON_stringify_value (v : jsval) : string :=
  match v with
  | JUndefined => "null"
  | JNull => "null"
  | JString s => JSON_quote s
  end.

(** [JSON.stringify([key, value])]. *)
Definition JSON_stringify_pair (p : string * jsval) : string :=
  "[" +:+ JSON_quote (fst p) +:+ "," +:+ JSON_stringify_value (snd p) +:+ "]".

(** [JSON.stringify(pairs)] for an array of [[key, value]] arrays. *)
Definition JSON_stringify (pairs : list (string * jsval)) : string :=
  "[" +:+ join "," (map JSON_stringify_pair pairs) +:+ "]".

(** The fragment of the JSON grammar (RFC 8259, no insignificant white
    space) that is built from [null], strings and arrays. *)
Definition is_hex_digit (c : ascii) : bool :=
  let n := nat_of_ascii c in
  ((48 <=? n) && (n <=? 57)) || ((97 <=? n) && (n <=? 102))
  || ((65 <=? n) && (n <=? 70)).

Definition is_escape_letter (c : ascii) : bool :=
  existsb (Ascii.eqb c)
    ["034"; "\"; "/"; "b"; "f"; "n"; "r"; "t"]%char.

Definition is_unescaped (c : ascii) : bool :=
  let n := nat_of_ascii c in
  (32 <=? n) && negb (n =? 34) && negb (n =? 92).

Inductive json_chars : string -> Prop :=
| json_chars_nil : json_chars ""
| json_chars_plain c s :
    is_unescaped c = true -> json_chars s -> json_chars (String c s)
| json_chars_escape c s :
    is_escape_letter c = true -> json_chars s ->
    json_chars (String "\" (String c s))
| json_chars_unicode h1 h2 h3 h4 s :
    forallb is_hex_digit [h1; h2; h3; h4] = true -> json_chars s ->
    json_chars ("\u" +:+ String h1 (String h2 (String h3 (String h4 s)))).

Inductive json_text : string -> Prop :=
| json_text_null : json_text "null"
| json_text_string s :
    json_chars s -> json_text (dquote +:+ s +:+ dquote)
| json_text_array ts :
    Forall json_text ts -> json_text ("[" +:+ join "," ts +:+ "]").

(** ** The remote node

    The RPC surface the script consumes.  Every call of a run carries the
    same block reference, so an endpoint is a function of its request. *)
Record Endpoint : Type := {
  chain_getFinalizedHead : string;
  state_getKeysPaged : string -> nat -> option string -> string -> list string;
  state_queryStorageAt : list string -> string -> list jsval
}.

Inductive request : Type :=
| ReqFinalizedHead
| ReqKeysPaged (prefix : string) (count : nat) (startKey : option string)
               (at_ : string)
| ReqQueryStorageAt (keys : list string) (at_ : string).

(** ** Module-level state and its effects *)

Inductive colour : Type := green | red | yellow.

Record bar : Type := {
  bar_total : nat;
  bar_value : nat;
  bar_active : bool
}.

(** [separator], [chunksFetched], [total_keys_count] and [progressBar] are
    the script's module-level variables; [storage_json] is the content of
    the file at [storagePath] ([None] while it does not exist), [console]
    what was logged, and [sent] the requests issued to the node. *)
Record world : Type := {
  separator : bool;
  chunksFetched : nat;
  total_keys_count : nat;
  progressBar : bar;
  storage_json : option string;
  console : list (colour * string);
  sent : list request
}.

(** The state after the module's top-level declarations have run. *)
Definition initial (file : option string) : world := {|
  separator := false;
  chunksFetched := 0;
  total_keys_count := 0;
  progressBar := {| bar_total := 0; bar_value := 0; bar_active := false |};
  storage_json := file;
  console := [];
  sent := []
|}.

Definition console_log (c : colour) (msg : string) (w : world) : world := {|
  separator := separator w;
  chunksFetched := chunksFetched w;
  total_keys_count := total_keys_count w;
  progressBar := progressBar w;
  storage_json := storage_json w;
  console := console w ++ [(c, msg)];
  sent := sent w
|}.

(** [stream.write(s)] on the append stream opened on [storagePath]. *)
Definition stream_write (s : string) (w : world) : world := {|
  separator := separator w;
  chunksFetched := chunksFetched w;
  total_keys_count := total_keys_count w;
  progressBar := progressBar w;
  storage_json := Some (default "" (storage_json w) +:+ s);
  console := console w;
  sent := sent w
|}.

Definition set_separator (b : bool) (w : world) : world := {|
  separator := b;
  chunksFetched := chunksFetched w;
  total_keys_count := total_keys_count w;
  progressBar := progressBar w;
  storage_json := storage_json w;
  console := console w;
  sent := sent w
|}.

Definition set_total_keys_count (n : nat) (w : world) : world := {|
  separator := separator w;
  chunksFetched := chunksFetched w;
  total_keys_count := n;
  progressBar := progressBar w;
  storage_json := storage_json w;
  console := console w;
  sent := sent w
|}.

Definition set_chunksFetched (n : nat) (w : world) : world := {|
  separator := separator w;
  chunksFetched := n;
  total_keys_count := total_keys_count w;
  progressBar := progressBar w;
  storage_json := storage_json w;
  console := console w;
  sent := sent w
|}.

Definition set_progressBar (b : bar) (w : world) : world := {|
  separator := separator w;
  chunksFetched := chunksFetched w;
  total_keys_count := total_keys_count w;
  progressBar := b;
  storage_json := storage_json w;
  console := console w;
  sent := sent w
|}.

Definition send (r : request) (w : world) : world := {|
  separator := separator w;
  chunksFetched := chunksFetched w;
  total_keys_count := total_keys_count w;
  progressBar := progressBar w;
  storage_json := storage_json w;
  console := console w;
  sent := sent w ++ [r]
|}.

(** The synchronous statements of the script that touch the state.  Each
    runs to its end without giving control to another task. *)
Inductive effect : Type :=
| add_total_keys_count (key_count : nat)
| log_keys_fetched
| log_length_mismatch (values_length keys_length : nat)
| write_batch (pairs : list (string * jsval))
| update_chunksFetched
| issue (r : request).

Definition perform (e : effect) (w : world) : world :=
  match e with
  | add_total_keys_count key_count =>
      (* total_keys_count += key_count *)
      set_total_keys_count (total_keys_count w + key_count) w
  | log_keys_fetched =>
      (* console.log(chalk.green("Keys fetched: " + total_keys_count)) *)
      console_log green ("Keys fetched: " +:+ dec (total_keys_count w)) w
  | log_length_mismatch values_length keys_length =>
      console_log red
        ("values length: " +:+ dec values_length +:+ " and key length: "
         +:+ dec keys_length +:+ " not equal") w
  | write_batch pairs =>
      (* separator ? stream.write(",") : separator = true;
         stream.write(JSON.stringify(pairs).slice(1, -1)); *)
      let w1 := if separator w then stream_write "," w
                else set_separator true w in
      stream_write (slice (JSON_stringify pairs) 1 1) w1
  | update_chunksFetched =>
      (* progressBar.update(++chunksFetched) *)
      let w1 := set_chunksFetched (S (chunksFetched w)) w in
      set_progressBar
        {| bar_total := bar_total (progressBar w1);
           bar_value := chunksFetched w1;
           bar_active := bar_active (progressBar w1) |} w1
  | issue r => send r w
  end.

(** ** Asynchronous programs

    An [async] function is a tree of synchronous effects and awaited RPC
    calls.  [Spin] stands for a [while] loop that has used up its budget
    of iterations. *)
Inductive prog (A : Type) : Type :=
| Ret (a : A)
| Spin
| Do (e : effect) (k : prog A)
| AwaitKeys (prefix : string) (count : nat) (startKey : option string)
            (at_ : string) (k : list string -> prog A)
| AwaitValues (keys : list string) (at_ : string) (k : list jsval -> prog A).

Arguments Ret {A} a.
Arguments Spin {A}.
Arguments Do {A} e k.
Arguments AwaitKeys {A} prefix count startKey at_ k.
Arguments AwaitValues {A} keys at_ k.

Fixpoint bind {A B : Type} (m : prog A) (f : A -> prog B) : prog B :=
  match m with
  | Ret a => f a
  | Spin => Spin
  | Do e k => Do e (bind k f)
  | AwaitKeys prefix count startKey at_ k =>
      AwaitKeys prefix count startKey at_ (fun keys => bind (k keys) f)
  | AwaitValues keys at_ k =>
      AwaitValues keys at_ (fun values => bind (k values) f)
  end.

Declare Scope prog_scope.
Delimit Scope prog_scope with prog.
Notation "x <- m ;; k" := (bind m (fun x => k))
  (at level 100, m at next level, right associativity) : prog_scope.
Notation "m ;; k" := (bind m (fun _ => k))
  (at level 100, right associativity) : prog_scope.

Definition do_ (e : effect) : prog unit := Do e (Ret tt).

(** [await provider.send('state_getKeysPaged', [prefix, count, startKey, at])]:
    the request leaves when the call is made, the task then waits. *)
Definition provider_send_getKeysPaged (prefix : string) (count : nat)
    (startKey : option string) (at_ : string) : prog (list string) :=
  Do (issue (ReqKeysPaged prefix count startKey at_))
     (AwaitKeys prefix count startKey at_ Ret).

(** [await api.rpc.state.queryStorageAt(keys, at)]. *)
Definition api_rpc_state_queryStorageAt (keys : list string) (at_ : string)
    : prog (list jsval) :=
  Do (issue (ReqQueryStorageAt keys at_)) (AwaitValues keys at_ Ret).

(** Running a program whose every call is awaited before the next
    statement: the node's answer is passed to the continuation. *)
Fixpoint run {A : Type} (node : Endpoint) (t : prog A) (w : world)
    : option (A * world) :=
  match t with
  | Ret a => Some (a, w)
  | Spin => None
  | Do e k => run node k (perform e w)
  | AwaitKeys prefix count startKey at_ k =>
      run node (k (state_getKeysPaged node prefix count startKey at_)) w
  | AwaitValues keys at_ k =>
      run node (k (state_queryStorageAt node keys at_)) w
  end.

(** [Promise.all]: every task first runs up to its first await, in the
    order the promises were created; after that a task goes on, up to its
    next await, whenever the answer it waits for arrives. *)
Fixpoint advance {A : Type} (t : prog A) (w : world) : prog A * world :=
  match t with
  | Do e k => advance k (perform e w)
  | _ => (t, w)
  end.

Definition resume {A : Type} (node : Endpoint) (t : prog A) (w : world)
    : prog A * world :=
  match t with
  | AwaitKeys prefix count startKey at_ k =>
      advance (k (state_getKeysPaged node prefix count startKey at_)) w
  | AwaitValues keys at_ k =>
      advance (k (state_queryStorageAt node keys at_)) w
  | _ => (t, w)
  end.

Definition settled {A : Type} (t : prog A) : bool :=
  match t with
  | Ret _ => true
  | _ => false
  end.

Fixpoint launch (tasks : list (prog unit)) (w : world)
    : list (prog unit) * world :=
  match tasks with
  | [] => ([], w)
  | t :: tasks' =>
      let (t', w1) := advance t w in
      let (pool, w2) := launch tasks' w1 in
      (t' :: pool, w2)
  end.

(** When no arrival order is left the outstanding tasks are served one
    after the other. *)
Fixpoint drain (node : Endpoint) (pool : list (prog unit)) (w : world)
    : option world :=
  match pool with
  | [] => Some w
  | t :: pool' =>
      match run node t w with
      | Some (_, w') => drain node pool' w'
      | None => None
      end
  end.

(** [arrivals] is the order in which the node's answers come back: entry
    [n] wakes the task at position [n mod length waiting] among those
    still waiting. *)
Fixpoint deliver (node : Endpoint) (arrivals : list nat)
    (pool : list (prog unit)) (w : world) : option world :=
  let waiting := List.filter (fun t => negb (settled t)) pool in
  match waiting, arrivals with
  | [], _ => Some w
  | _ :: _, [] => drain node waiting w
  | _ :: _, n :: arrivals' =>
      let i := n mod length waiting in
      match waiting !! i with
      | Some t =>
          let (t', w') := resume node t w in
          deliver node arrivals' (<[i := t']> waiting) w'
      | None => None
      end
  end.

Definition Promise_all (node : Endpoint) (arrivals : list nat)
    (promises : list (prog unit)) (w : world) : option world :=
  let (pool, w') := launch promises w in
  deliver node arrivals pool w'.

(** A [for] loop whose body is awaited. *)
Fixpoint for_each {I : Type} (l : list I) (body : I -> world -> option world)
    (w : world) : option world :=
  match l with
  | [] => Some w
  | i :: l' =>
      match body i w with
      | Some w' => for_each l' body w'
      | None => None
      end
  end.

(** ** [fetchChunks] *)

Definition page : nat := 512.

(** Lines 174-178: [pairs.push([keys[i], values[i]])] for every index of
    [keys]. *)
Definition make_pairs (keys : list string) (values : list jsval)
    : list (string * jsval) :=
  map (fun i => (nth i keys "", nth i values JUndefined))
      (seq 0 (length keys)).

(** Lines 170-181, repeated at 191-201: look the values up, report a
    length mismatch, write the batch. *)
Definition store_page (keys : list string) (at_ : string) : prog unit :=
  (values <- api_rpc_state_queryStorageAt keys at_ ;;
   (if negb (length values =? length keys)
    then do_ (log_length_mismatch (length values) (length keys))
    else Ret tt) ;;
   do_ (write_batch (make_pairs keys values)))%prog.

(** Lines 184-203: [while (key_count == page)].  [fuel] bounds the number
    of iterations. *)
Fixpoint while_full_page (fuel : nat) (prefix at_ : string)
    (keys : list string) (key_count : nat) : prog unit :=
  if key_count =? page then
    match fuel with
    | 0 => Spin
    | S fuel' =>
        (do_ (add_total_keys_count key_count) ;;
         do_ log_keys_fetched ;;
         keys' <- provider_send_getKeysPaged prefix page
                    (keys !! (key_count - 1)) at_ ;;
         (if 0 <? length keys' then store_page keys' at_ else Ret tt) ;;
         while_full_page fuel' prefix at_ keys' (length keys'))%prog
    end
  else Ret tt.

(** Lines 163-207: the body of [fetchChunks] when [levelsRemaining <= 0]. *)
Definition fetchChunks_base (fuel : nat) (prefix at_ : string) : prog unit :=
  (keys <- provider_send_getKeysPaged prefix page None at_ ;;
   (if 0 <? length keys then
      (do_ (add_total_keys_count (length keys)) ;;
       do_ log_keys_fetched ;;
       store_page keys at_)
    else Ret tt) ;;
   while_full_page fuel prefix at_ keys (length keys) ;;
   do_ update_chunksFetched)%prog.

Section Fetch.

Variable node : Endpoint.
(** [process.env.QUICK_MODE] is set. *)
Variable QUICK_MODE : bool.
(** The order in which answers arrive in the [Promise.all] started under
    a given prefix. *)
Variable arrivals : string -> list nat.
Variable fuel : nat.

(** Lines 162-221.  In the [QUICK_MODE] branch [levelsRemaining] is 1,
    so every promise is a call at level 0, the base case. *)
Fixpoint fetchChunks (prefix : string) (levelsRemaining : nat)
    (at_ : string) (w : world) : option world :=
  match levelsRemaining with
  | 0 => snd <$> run node (fetchChunks_base fuel prefix at_) w
  | S levels =>
      if QUICK_MODE && (levelsRemaining =? 1) then
        Promise_all node (arrivals prefix)
          (map (fun i => fetchChunks_base fuel (prefix +:+ hex2 i) at_)
               (seq 0 256)) w
      else
        for_each (seq 0 256)
          (fun i => fetchChunks (prefix +:+ hex2 i) levels at_) w
  end.

(** [process.env.FORK_CHUNKS_LEVEL || 1]. *)
Variable FORK_CHUNKS_LEVEL : option nat.

Definition chunksLevel : nat := default 1 FORK_CHUNKS_LEVEL.
Definition totalChunks : nat := 256 ^ chunksLevel.

(** Lines 77-92 of [main].  Writing to the append stream creates the
    file. *)
Definition main_fetch_phase (w : world) : option world :=
  if bool_decide (is_Some (storage_json w)) then
    Some (console_log yellow
      "Reusing cached storage. Delete ./data/storage.json and rerun the script if you want to fetch latest storage"
      w)
  else
    let w := console_log green
      "Fetching current state of the live chain. Please wait, it can take a while depending on the size of your chain."
      w in
    let w := set_progressBar
      {| bar_total := totalChunks; bar_value := 0; bar_active := true |} w in
    let w := stream_write "[" w in
    let w := send ReqFinalizedHead w in
    let at_ := chain_getFinalizedHead node in
    let w := console_log green
      ("Starting to fetch key pairs at block: " +:+ at_) w in
    match fetchChunks "0x" chunksLevel at_ w with
    | Some w =>
        let w := stream_write "]" w in
        Some (set_progressBar
          {| bar_total := bar_total (progressBar w);
             bar_value := bar_value (progressBar w);
             bar_active := false |} w)
    | None => None
    end.

End Fetch.

(** ** The splice of [main] *)

(** JavaScript values of the parsed specification documents, and
    [undefined] for a property that is read but not there.  Numbers are
    the integers, which print in plain decimal below [10^21]. *)
Inductive json : Type :=
| Undefined
| Null
| Bool (b : bool)
| Num (n : Z)
| Str (s : string)
| Arr (l : list json)
| Obj (fields : gmap string json).

(** The string a value turns into under [value + '-fork']. *)
Fixpoint ToString (v : json) : string :=
  match v with
  | Undefined => "undefined"
  | Null => "null"
  | Bool true => "true"
  | Bool false => "false"
  | Num n => NilZero.string_of_int (Z.to_int n)
  | Str s => s
  | Arr l =>
      join ","
        (map (fun x => match x with
                       | Undefined | Null => ""
                       | _ => ToString x
                       end) l)
  | Obj _ => "[object Object]"
  end.

Definition is_space (c : ascii) : bool :=
  let n := nat_of_ascii c in
  (n =? 32) || ((9 <=? n) && (n <=? 13)).

Fixpoint trimStart (s : string) : string :=
  match s with
  | String c s' => if is_space c then trimStart s' else s
  | EmptyString => ""
  end.

Fixpoint trimEnd (s : string) : string :=
  match s with
  | String c s' =>
      match trimEnd s' with
      | EmptyString => if is_space c then "" else String c ""
      | rest => String c rest
      end
  | EmptyString => ""
  end.

(** [s.trim()] on ASCII white space. *)
Definition trim (s : string) : string := trimEnd (trimStart s).

(** An update of the object at [spec.genesis.raw.top].  The script fails
    with a [TypeError] when a link of that path is missing; a document
    whose [top] is not an object gives [None] as well. *)
Definition update_top (f : gmap string json -> gmap string json)
    (spec : gmap string json) : option (gmap string json) :=
  match spec !! "genesis" with
  | Some (Obj genesis) =>
      match genesis !! "raw" with
      | Some (Obj raw) =>
          match raw !! "top" with
          | Some (Obj top) =>
              Some (<["genesis" :=
                       Obj (<["raw" := Obj (<["top" := Obj (f top)]> raw)]>
                              genesis)]> spec)
          | _ => None
          end
      | _ => None
      end
  | _ => None
  end.

(** Reading [spec.genesis.raw.top]. *)
Definition top_of (spec : gmap string json) : option (gmap string json) :=
  match spec !! "genesis" with
  | Some (Obj genesis) =>
      match genesis !! "raw" with
      | Some (Obj raw) =>
          match raw !! "top" with
          | Some (Obj top) => Some top
          | _ => None
          end
      | _ => None
      end
  | _ => None
  end.

(** [prefixes.some((prefix) => key.startsWith(prefix))]. *)
Definition some_prefix (prefixes : list string) (key : string) : bool :=
  existsb (fun prefix => startsWith key prefix) prefixes.

(** [forEach(([key, value]) => (forkedSpec.genesis.raw.top[key] = value))]. *)
Fixpoint forEach_set_top (items : list (string * json))
    (forkedSpec : gmap string json) : option (gmap string json) :=
  match items with
  | [] => Some forkedSpec
  | (key, value) :: items' =>
      match update_top (insert key value) forkedSpec with
      | Some forkedSpec' => forEach_set_top items' forkedSpec'
      | None => None
      end
  end.

(** Lines 126-128. *)
Definition insert_storage (prefixes : list string)
    (storage : list (string * json)) (forkedSpec : gmap string json)
    : option (gmap string json) :=
  forEach_set_top
    (List.filter (fun i => some_prefix prefixes (fst i)) storage) forkedSpec.

Definition System_LastRuntimeUpgrade : string :=
  "0x26aa394eea5630e07c48ae0c9558cef7f9cce9c888469bb1a0dceaa129672ef8".
Definition code_key : string := "0x3a636f6465".
Definition Staking_ForceEra : string :=
  "0x5f3e4907f716ac89b6347d15ececedcaf7dad0317324aecae8744b87fc95f2f3".
Definition Sudo_Key : string :=
  "0x5c0d1176a568c1f92944340dbfed9e9c530ebca703c85910e7164cb7d1c9e47b".
Definition TechnicalMembership_Members : string :=
  "0x3a2d6c9353500637d8f8e3e0fa0bb1c5ba7fb8745735dc3be2a2c61a72c39e78".
Definition TechnicalCommittee_Members : string :=
  "0xed25f63942de25ac5253ba64b5eb64d1ba7fb8745735dc3be2a2c61a72c39e78".
Definition PhragmenElection_Members : string :=
  "0xe2e62dd81c48a88f73b6f6463555fd8eba7fb8745735dc3be2a2c61a72c39e78".
Definition Council_Members : string :=
  "0xaebd463ed9925c488c112434d61debc0ba7fb8745735dc3be2a2c61a72c39e78".
Definition alice_account : string :=
  "0xd43593c715fdd31c61141abd04a99fd6822c8558854ccde39a5684e7a56da27d".
Definition alice_member : string :=
  "0x04d43593c715fdd31c61141abd04a99fd6822c8558854ccde39a5684e7a56da27d".
Definition alice_phragmen : string :=
  "0x04d43593c715fdd31c61141abd04a99fd6822c8558854ccde39a5684e7a56da27d0010a5d4e800000000000000000000000010a5d4e80000000000000000000000".

(** The keys of [genesis.raw.top] that lines 130-151 overwrite or delete. *)
Definition fixed_keys : list string :=
  [System_LastRuntimeUpgrade; code_key; Staking_ForceEra; Sudo_Key;
   TechnicalMembership_Members; TechnicalCommittee_Members;
   PhragmenElection_Members; Council_Members].

(** Lines 139-151: the overwrites made when [process.env.ALICE] is set. *)
Definition set_alice (top : gmap string json) : gmap string json :=
  let top := <[Sudo_Key := Str alice_account]> top in
  let top := <[TechnicalMembership_Members := Str alice_member]> top in
  let top := <[TechnicalCommittee_Members := Str alice_member]> top in
  let top := <[PhragmenElection_Members := Str alice_phragmen]> top in
  <[Council_Members := Str alice_member]> top.

(** Lines 120-151 of [main].  [alice] is [process.env.ALICE || ''] and
    [runtime_hex] the content of the file at [hexPath]. *)
Definition main_splice (alice : string) (prefixes : list string)
    (runtime_hex : string) (storage : list (string * json))
    (originalSpec forkedSpec : gmap string json)
    : option (gmap string json) :=
  let forkedSpec :=
    <["name" := Str (ToString (default Undefined (originalSpec !! "name"))
                     +:+ "-fork")]> forkedSpec in
  let forkedSpec :=
    <["id" := Str (ToString (default Undefined (originalSpec !! "id"))
                   +:+ "-fork")]> forkedSpec in
  let forkedSpec :=
    <["protocolId" := default Undefined (originalSpec !! "protocolId")]>
      forkedSpec in
  forkedSpec ← insert_storage prefixes storage forkedSpec;
  forkedSpec ← update_top (delete System_LastRuntimeUpgrade) forkedSpec;
  forkedSpec ← update_top
    (insert code_key (Str ("0x" +:+ trim runtime_hex))) forkedSpec;
  forkedSpec ← update_top (insert Staking_ForceEra (Str "0x02")) forkedSpec;
  if negb (String.eqb alice "") then update_top set_alice forkedSpec
  else Some forkedSpec.

(** The document [spec] with [genesis.raw.top] replaced by [top], when
    [genesis] and [raw] are the objects found along the path. *)
Definition with_top (spec genesis raw top : gmap string json)
    : gmap string json :=
  <["genesis" := Obj (<["raw" := Obj (<["top" := Obj top]> raw)]> genesis)]>
    spec.

Definition has_top (spec genesis raw top : gmap string json) : Prop :=
  spec !! "genesis" = Some (Obj genesis) /\
  genesis !! "raw" = Some (Obj raw) /\
  raw !! "top" = Some (Obj top).

(** The document after lines 121-123 have set its three scalar fields. *)
Definition renamed (originalSpec forkedSpec : gmap string json)
    : gmap string json :=
  <["protocolId" := default Undefined (originalSpec !! "protocolId")]>
    (<["id" := Str (ToString (default Undefined (originalSpec !! "id"))
                    +:+ "-fork")]>
       (<["name" := Str (ToString (default Undefined (originalSpec !! "name"))
                         +:+ "-fork")]> forkedSpec)).

(** The snapshot entries that pass the filter of line 127. *)
Definition selected (prefixes : list string) (storage : list (string * json))
    : list (string * json) :=
  List.filter (fun i => some_prefix prefixes (fst i)) storage.

(** The assignments [top[key] = value] for [items] in order. *)
Definition set_all (items : list (string * json)) (top : gmap string json)
    : gmap string json :=
  fold_left (fun m i => <[fst i := snd i]> m) items top.

(** The value of [genesis.raw.top] after lines 126-151. *)
Definition spliced_top (alice : string) (prefixes : list string)
    (runtime_hex : string) (storage : list (string * json))
    (top : gmap string json) : gmap string json :=
  let top := set_all (selected prefixes storage) top in
  let top := delete System_LastRuntimeUpgrade top in
  let top := <[code_key := Str ("0x" +:+ trim runtime_hex)]> top in
  let top := <[Staking_ForceEra := Str "0x02"]> top in
  if negb (String.eqb alice "") then set_alice top else top.

(** ** The partition of the key space *)

(** Line 213/218: the child prefixes, in the order of the loop. *)
Definition child_prefixes (prefix : string) : list string :=
  map (fun i => prefix +:+ hex2 i) (seq 0 256).

(** The prefixes for which a call at [levelsRemaining] reaches the base
    case, in the order of the sequential loops. *)
Fixpoint leaf_prefixes (prefix : string) (levelsRemaining : nat)
    : list string :=
  match levelsRemaining with
  | 0 => [prefix]
  | S levels =>
      concat (map (fun child => leaf_prefixes child levels)
                  (child_prefixes prefix))
  end.

(** A storage key as the node prints it: [0x] and two lower-case hex
    digits per byte. *)
Fixpoint hex_of_bytes (key : list Byte.byte) : string :=
  match key with
  | [] => ""
  | b :: key' => hex2 (Byte.to_nat b) +:+ hex_of_bytes key'
  end.

Definition key_hex (key : list Byte.byte) : string :=
  "0x" +:+ hex_of_bytes key.

(** ** Synthetic endpoints *)

Definition after (startKey : option string) (k : string) : bool :=
  match startKey with
  | None => true
  | Some c => String.ltb c k
  end.

Definition db_lookup (db : list (string * jsval)) (key : string) : jsval :=
  match List.find (fun p => String.eqb (fst p) key) db with
  | Some p => snd p
  | None => JNull
  end.

(** A node holding the entries [db], listed in the order of their keys:
    a page holds the first [count] keys under [prefix] that come after
    [startKey]. *)
Definition db_node (head : string) (db : list (string * jsval)) : Endpoint := {|
  chain_getFinalizedHead := head;
  state_getKeysPaged prefix count startKey _ :=
    firstn count
      (List.filter (fun k => startsWith k prefix && after startKey k)
                   (map fst db));
  state_queryStorageAt keys _ := map (db_lookup db) keys
|}.

(** The same node with a bulk lookup that loses the last value. *)
Definition lossy_node (head : string) (db : list (string * jsval)) : Endpoint := {|
  chain_getFinalizedHead := head;
  state_getKeysPaged := state_getKeysPaged (db_node head db);
  state_queryStorageAt keys at_ :=
    removelast (state_queryStorageAt (db_node head db) keys at_)
|}.

(** ** Traces

    What a task does when it runs on its own against [node]: the value it
    returns, if its loops stay within budget, and the effects it performs
    in order. *)
Fixpoint outcome {A : Type} (node : Endpoint) (t : prog A) : option A :=
  match t with
  | Ret a => Some a
  | Spin => None
  | Do _ k => outcome node k
  | AwaitKeys prefix count startKey at_ k =>
      outcome node (k (state_getKeysPaged node prefix count startKey at_))
  | AwaitValues keys at_ k =>
      outcome node (k (state_queryStorageAt node keys at_))
  end.

Fixpoint events {A : Type} (node : Endpoint) (t : prog A) : list effect :=
  match t with
  | Ret _ => []
  | Spin => []
  | Do e k => e :: events node k
  | AwaitKeys prefix count startKey at_ k =>
      events node (k (state_getKeysPaged node prefix count startKey at_))
  | AwaitValues keys at_ k =>
      events node (k (state_queryStorageAt node keys at_))
  end.

Definition perform_all (es : list effect) (w : world) : world :=
  fold_left (fun w e => perform e w) es w.

(** The batches handed to the stream by a list of effects, in order. *)
Definition batches (es : list effect) : list (list (string * jsval)) :=
  flat_map (fun e => match e with
                     | write_batch pairs => [pairs]
                     | _ => []
                     end) es.

Definition is_enumeration (r : request) : bool :=
  match r with
  | ReqKeysPaged _ _ _ _ => true
  | _ => false
  end.

(** The number of key-enumeration calls among the requests [l]. *)
Definition enumerations (l : list request) : nat :=
  length (List.filter is_enumeration l).

(** The text of one batch in the file. *)
Definition batch_text (pairs : list (string * jsval)) : string :=
  slice (JSON_stringify pairs) 1 1.

(** The pages the loop of the base case sees: page [j + 1] is asked for
    with the last key of page [j] as the cursor. *)
Fixpoint nth_page (node : Endpoint) (prefix at_ : string) (j : nat)
    : list string :=
  match j with
  | 0 => state_getKeysPaged node prefix page None at_
  | S j' =>
      let keys := nth_page node prefix at_ j' in
      state_getKeysPaged node prefix page (keys !! (length keys - 1)) at_
  end.

(** The requests issued by a list of effects, in order. *)
Definition requests (es : list effect) : list request :=
  flat_map (fun e => match e with
                     | issue r => [r]
                     | _ => []
                     end) es.

(** The effects of handling one freshly received page in the loop. *)
Definition page_events (node : Endpoint) (keys : list string) (at_ : string)
    : list effect :=
  if 0 <? length keys then events node (store_page keys at_) else [].

(** What writing the batches [bs] one after the other appends to the
    file when the flag [separator] has the value [sep] beforehand. *)
Fixpoint written_text (sep : bool) (bs : list (list (string * jsval)))
    : string :=
  match bs with
  | [] => ""
  | b :: bs' =>
      (if sep then "," else "") +:+ batch_text b +:+ written_text true bs'
  end.

(** The number of completed chunks reported by a list of effects. *)
Definition chunk_updates (es : list effect) : nat :=
  length (flat_map (fun e => match e with
                             | update_chunksFetched => [tt]
                             | _ => []
                             end) es).

(** The effects of all base cases below [prefix], in the order of the
    sequential loops. *)
Definition leaf_events (node : Endpoint) (fuel : nat) (prefix : string)
    (levelsRemaining : nat) (at_ : string) : list effect :=
  flat_map (fun p => events node (fetchChunks_base fuel p at_))
           (leaf_prefixes prefix levelsRemaining).

(** [ceil(N / pageSize)]. *)
Definition ceil_div (n d : nat) : nat := (n + d - 1) / d.

(** ** A node that pages through a list of keys

    [serves node prefix at_ ks]: under [prefix] the node lists the keys
    [ks], a page being the first [page] keys after the cursor. *)
Definition serves (node : Endpoint) (prefix at_ : string) (ks : list string)
    : Prop :=
  state_getKeysPaged node prefix page None at_ = firstn page ks /\
  forall i k,
    ks !! i = Some k ->
    state_getKeysPaged node prefix page (Some k) at_
    = firstn page (skipn (S i) ks).

(** The batch of a page is written only when the page is not empty. *)
Definition page_batches (node : Endpoint) (keys : list string) (at_ : string)
    : list (list (string * jsval)) :=
  if 0 <? length keys
  then [make_pairs keys (state_queryStorageAt node keys at_)]
  else [].

(** Each key is below the next one in the order of the node's key
    listing, the order of [String.ltb] on the printed keys. *)
Fixpoint increasing (l : list string) : bool :=
  match l with
  | a :: (b :: _) as l' => String.ltb a b && increasing l'
  | _ => true
  end.

(** The keys [0x0000], [0x0001], ... of [n] two-byte entries, and a
    database that holds each key as its own value. *)
Definition numbered_keys (n : nat) : list string :=
  map (fun i => "0x" +:+ hex2 (i / 256) +:+ hex2 (i mod 256)) (seq 0 n).

Definition numbered_db (n : nat) : list (string * jsval) :=
  map (fun k => (k, JString k)) (numbered_keys n).

(** The requests of the fetch at the block [at_] over the prefixes
    [leaves]: a page of [page] keys under one of the prefixes, or the
    values of a page that is not empty. *)
Definition fetch_request (leaves : list string) (at_ : string) (r : request)
    : Prop :=
  match r with
  | ReqFinalizedHead => False
  | ReqKeysPaged prefix count _ a =>
      In prefix leaves /\ count = page /\ a = at_
  | ReqQueryStorageAt keys a => keys <> [] /\ a = at_
  end.

(** The sum of the amounts a list of effects adds to [total_keys_count]. *)
Definition keys_counted (es : list effect) : nat :=
  list_sum (flat_map (fun e => match e with
                               | add_total_keys_count key_count => [key_count]
                               | _ => []
                               end) es).

(** A node that ignores the cursor: every page request is answered with
    the same first [count] keys. *)
Definition stuck_node (head : string) : Endpoint := {|
  chain_getFinalizedHead := head;
  state_getKeysPaged _ count _ _ := numbered_keys count;
  state_queryStorageAt keys _ := map JString keys
|}.

(** ** Reading the specification and the metadata *)

(** [s] consists of characters that satisfy [f]. *)
Fixpoint all_chars (f : ascii -> bool) (s : string) : bool :=
  match s with
  | EmptyString => true
  | String c s' => f c && all_chars f s'
  end.

(** Reading the property [field] of a parsed JSON value, for a [field]
    that no built-in prototype defines ([genesis], [raw], [top]): a missing
    property reads as [undefined], and reading from [undefined] or [null]
    throws a [TypeError] ([None]). *)
Definition get_field (v : json) (field : string) : option json :=
  match v with
  | Undefined | Null => None
  | Obj fields => Some (default Undefined (fields !! field))
  | _ => Some Undefined
  end.

(** The expression [forkedSpec.genesis.raw.top]. *)
Definition read_top (forkedSpec : gmap string json) : option json :=
  genesis ← get_field (Obj forkedSpec) "genesis";
  raw ← get_field genesis "raw";
  get_field raw "top".

(** An entry of [metadata.asLatest.pallets]: its name and whether
    [module.storage] is truthy. *)
Record pallet : Type := {
  pallet_name : string;
  pallet_storage : bool
}.

(** The prefix of [System.Account], the initial content of [prefixes]. *)
Definition System_Account : string :=
  "0x26aa394eea5630e07c48ae0c9558cef7b99d880ec681799c0cf30e8886371da9".

Definition skippedModulesPrefix : list string :=
  ["Session"; "Babe"; "Grandpa"; "GrandpaFinality"; "FinalityTracker";
   "Authorship"].

(** [array.includes(s)] on an array of strings. *)
Definition includes (array : list string) (s : string) : bool :=
  existsb (String.eqb s) array.

Section Metadata.

(** [xxhashAsHex(name, 128)]. *)
Variable xxhashAsHex : string -> string.

(** Lines 97-105: one turn of the [forEach] over the pallets.  The state
    is the array [prefixes] and the names logged as skipped. *)
Definition populate_step (state : list string * list string) (module : pallet)
    : list string * list string :=
  let (prefixes, skipped) := state in
  if pallet_storage module then
    if negb (includes skippedModulesPrefix (pallet_name module)) then
      (prefixes ++ [xxhashAsHex (pallet_name module)], skipped)
    else (prefixes, skipped ++ [pallet_name module])
  else (prefixes, skipped).

Definition populate_prefixes (prefixes : list string) (modules : list pallet)
    : list string * list string :=
  fold_left populate_step modules (prefixes, []).

(** Whether line 127 selects [key] once the prefixes are populated, said
    by pallet. *)
Definition wanted (modules : list pallet) (key : string) : bool :=
  startsWith key System_Account
  || existsb (fun module =>
                pallet_storage module
                && negb (includes skippedModulesPrefix (pallet_name module))
                && startsWith key (xxhashAsHex (pallet_name module)))
             modules.

End Metadata.

(** * Properties *)

(** ** Strings *)

Lemma app_String (x : ascii) (a b : string) :
  String x a +:+ b = String x (a +:+ b).
Proof. reflexivity. Qed.

Lemma app_empty (b : string) : "" +:+ b = b.
Proof. reflexivity. Qed.

Lemma string_app_assoc (a b c : string) : (a +:+ b) +:+ c = a +:+ (b +:+ c).
Proof.
  induction a as [|x a IH]; [reflexivity|].
  rewrite !app_String. now rewrite IH.
Qed.

Lemma string_app_nil_r (a : string) : a +:+ "" = a.
Proof.
  induction a as [|x a IH]; [reflexivity|].
  rewrite app_String. now rewrite IH.
Qed.

Lemma string_length_app (a b : string) :
  String.length (a +:+ b) = String.length a + String.length b.
Proof.
  induction a as [|x a IH]; [reflexivity|].
  rewrite app_String. simpl. now rewrite IH.
Qed.

Lemma substring_app_l (s t : string) :
  String.substring 0 (String.length s) (s +:+ t) = s.
Proof.
  induction s as [|x s IH].
  - rewrite app_empty. destruct t; reflexivity.
  - rewrite app_String. simpl. now rewrite IH.
Qed.

(** [slice(1, -1)] takes the brackets off a bracketed text. *)
Lemma slice_brackets (c d : ascii) (s : string) :
  slice (String c (s +:+ String d "")) 1 1 = s.
Proof.
  unfold slice. simpl String.length. rewrite string_length_app. simpl.
  replace (String.length s + 1 - 0 - 1) with (String.length s) by lia.
  apply substring_app_l.
Qed.

Lemma batch_text_join (pairs : list (string * jsval)) :
  batch_text pairs = join "," (map JSON_stringify_pair pairs).
Proof. unfold batch_text, JSON_stringify. apply slice_brackets. Qed.

Lemma join_app (sep : string) (l1 l2 : list string) :
  l1 <> [] -> l2 <> [] ->
  join sep (l1 ++ l2) = join sep l1 +:+ sep +:+ join sep l2.
Proof.
  intros H1 H2. induction l1 as [|x l1 IH]; [congruence|].
  destruct l1 as [|y l1].
  - simpl. destruct l2; [congruence | reflexivity].
  - change (join sep ((x :: y :: l1) ++ l2))
      with (x +:+ sep +:+ join sep ((y :: l1) ++ l2)).
    rewrite IH by congruence.
    change (join sep (x :: y :: l1)) with (x +:+ sep +:+ join sep (y :: l1)).
    now rewrite !string_app_assoc.
Qed.

(** ** Programs and their traces *)


Lemma outcome_bind {A B : Type} (node : Endpoint) (m : prog A)
    (f : A -> prog B) :
  outcome node (bind m f) =
  match outcome node m with
  | Some a => outcome node (f a)
  | None => None
  end.
Proof.
  induction m as [a| |e k IH|p c s a k IH|ks a k IH]; simpl; auto.
Qed.

Lemma events_bind {A B : Type} (node : Endpoint) (m : prog A)
    (f : A -> prog B) :
  events node (bind m f) =
  events node m ++
  match outcome node m with
  | Some a => events node (f a)
  | None => []
  end.
Proof.
  induction m as [a| |e k IH|p c s a k IH|ks a k IH]; simpl; auto.
  now rewrite IH.
Qed.

Lemma flat_map_cons_eq {A B : Type} (f : A -> list B) (x : A) (l : list A) :
  flat_map f (x :: l) = f x ++ flat_map f l.
Proof. reflexivity. Qed.

Lemma perform_all_app (es1 es2 : list effect) (w : world) :
  perform_all (es1 ++ es2) w = perform_all es2 (perform_all es1 w).
Proof. unfold perform_all. apply fold_left_app. Qed.

(** Running a task alone performs its trace. *)
Lemma run_trace {A : Type} (node : Endpoint) (t : prog A) (w : world) :
  run node t w =
  match outcome node t with
  | Some a => Some (a, perform_all (events node t) w)
  | None => None
  end.
Proof.
  revert w. induction t as [a| |e k IH|p c s a k IH|ks a k IH]; intros w;
    simpl; auto.
Qed.

(** ** [Promise.all] performs an interleaving of the traces of its tasks *)

Lemma advance_trace {A : Type} (node : Endpoint) (t t' : prog A)
    (w w' : world) :
  advance t w = (t', w') ->
  exists pre,
    events node t = pre ++ events node t' /\
    w' = perform_all pre w /\
    outcome node t = outcome node t'.
Proof.
  revert w. induction t as [a| |e k IH|p c s a k IH|ks a k IH]; intros w H;
    simpl in H.
  1,2,4,5: injection H as <- <-; exists []; auto.
  destruct (IH _ H) as (pre & He & Hw & Ho).
  exists (e :: pre). simpl. rewrite He. auto.
Qed.

Lemma resume_trace {A : Type} (node : Endpoint) (t t' : prog A)
    (w w' : world) :
  resume node t w = (t', w') ->
  exists pre,
    events node t = pre ++ events node t' /\
    w' = perform_all pre w /\
    outcome node t = outcome node t'.
Proof.
  destruct t as [a| |e k|p c s a k|ks a k]; simpl; intros H.
  1,2,3: injection H as <- <-; exists []; auto.
  all: eapply advance_trace in H; exact H.
Qed.

Lemma settled_no_events (node : Endpoint) (t : prog unit) :
  settled t = true -> events node t = [] /\ outcome node t = Some tt.
Proof. destruct t as [[]| | | |]; simpl; try discriminate; auto. Qed.

Lemma waiting_events (node : Endpoint) (pool : list (prog unit)) :
  flat_map (events node) (List.filter (fun t => negb (settled t)) pool)
  = flat_map (events node) pool.
Proof.
  induction pool as [|t pool IH]; [reflexivity|].
  simpl. destruct (settled t) eqn:E; simpl.
  - destruct (settled_no_events node t E) as [-> _]. exact IH.
  - now rewrite IH.
Qed.

Lemma waiting_finish (node : Endpoint) (pool : list (prog unit)) :
  Forall (fun t => outcome node t = Some tt)
         (List.filter (fun t => negb (settled t)) pool) <->
  Forall (fun t => outcome node t = Some tt) pool.
Proof.
  induction pool as [|t pool IH]; [reflexivity|].
  simpl. destruct (settled t) eqn:E; simpl.
  - rewrite IH. split; intros H.
    + constructor; [apply (settled_no_events node t E) | exact H].
    + now inversion H.
  - split; intros H; inversion H; subst; constructor; auto; now apply IH.
Qed.

Lemma drain_trace (node : Endpoint) (pool : list (prog unit)) (w w' : world) :
  drain node pool w = Some w' ->
  w' = perform_all (flat_map (events node) pool) w /\
  Forall (fun t => outcome node t = Some tt) pool.
Proof.
  revert w. induction pool as [|t pool IH]; intros w H; simpl in H.
  - injection H as <-. split; [reflexivity | constructor].
  - rewrite run_trace in H. destruct (outcome node t) as [[]|] eqn:E;
      [|discriminate].
    destruct (IH _ H) as [-> HF]. split.
    + simpl. now rewrite perform_all_app.
    + now constructor.
Qed.

Lemma drain_total (node : Endpoint) (pool : list (prog unit)) (w : world) :
  Forall (fun t => outcome node t = Some tt) pool ->
  exists w', drain node pool w = Some w'.
Proof.
  revert w. induction pool as [|t pool IH]; intros w H; simpl.
  - eauto.
  - inversion H as [|? ? Ht Hp]; subst. rewrite run_trace, Ht. apply IH, Hp.
Qed.

Lemma flat_map_insert {A B : Type} (f : A -> list B) (l : list A) (i : nat)
    (x y : A) (pre : list B) :
  l !! i = Some x -> f x = pre ++ f y ->
  pre ++ flat_map f (<[i := y]> l) ≡ₚ flat_map f l.
Proof.
  intros Hi Hf.
  rewrite insert_take_drop by (eapply lookup_lt_Some; eauto).
  rewrite <- (take_drop_middle l i x Hi) at 3.
  rewrite !flat_map_app. simpl. rewrite Hf.
  rewrite <- !app_assoc.
  rewrite (app_assoc pre), (app_assoc (flat_map f (take i l))).
  apply Permutation_app_tail, Permutation_app_comm.
Qed.

Lemma Forall_insert_iff {A : Type} (P : A -> Prop) (l : list A) (i : nat)
    (x y : A) :
  l !! i = Some x -> (P x <-> P y) ->
  Forall P (<[i := y]> l) <-> Forall P l.
Proof.
  intros Hi Hxy.
  rewrite insert_take_drop by (eapply lookup_lt_Some; eauto).
  rewrite <- (take_drop_middle l i x Hi) at 3.
  rewrite !Forall_app, !Forall_cons. tauto.
Qed.

Lemma waiting_transfer (node : Endpoint) (pool : list (prog unit))
    (w w' : world) :
  (exists es,
     es ≡ₚ flat_map (events node)
             (List.filter (fun t => negb (settled t)) pool) /\
     w' = perform_all es w /\
     Forall (fun t => outcome node t = Some tt)
            (List.filter (fun t => negb (settled t)) pool)) ->
  exists es,
    es ≡ₚ flat_map (events node) pool /\
    w' = perform_all es w /\
    Forall (fun t => outcome node t = Some tt) pool.
Proof.
  intros (es & Hp & Hw & HF). exists es.
  rewrite waiting_events in Hp.
  apply (proj1 (waiting_finish node pool)) in HF.
  split; [exact Hp|]. split; [exact Hw|exact HF].
Qed.

Lemma deliver_trace (node : Endpoint) (arrivals : list nat)
    (pool : list (prog unit)) (w w' : world) :
  deliver node arrivals pool w = Some w' ->
  exists es,
    es ≡ₚ flat_map (events node) pool /\
    w' = perform_all es w /\
    Forall (fun t => outcome node t = Some tt) pool.
Proof.
  revert pool w. induction arrivals as [|n arrivals IH]; intros pool w H.
  - simpl in H. apply waiting_transfer.
    destruct (List.filter _ pool) as [|t waiting].
    + injection H as <-. exists []. auto.
    + apply drain_trace in H as [-> HF]. eexists; split; [reflexivity|auto].
  - simpl in H. apply waiting_transfer.
    destruct (List.filter _ pool) as [|t0 waiting0] eqn:Ew.
    + injection H as <-. exists []. auto.
    + set (waiting := t0 :: waiting0) in *.
      destruct (waiting !! (n mod length waiting)) as [t|] eqn:Ei;
        [|discriminate].
      destruct (resume node t w) as [t' w1] eqn:Er.
      destruct (resume_trace node _ _ _ _ Er) as (pre & He & -> & Ho).
      destruct (IH _ _ H) as (es & Hp & -> & HF).
      exists (pre ++ es). split; [|split].
      * rewrite Hp. eapply flat_map_insert; eauto.
      * now rewrite perform_all_app.
      * eapply Forall_insert_iff; [exact Ei| |exact HF]. now rewrite Ho.
Qed.

Lemma deliver_total (node : Endpoint) (arrivals : list nat)
    (pool : list (prog unit)) (w : world) :
  Forall (fun t => outcome node t = Some tt) pool ->
  exists w', deliver node arrivals pool w = Some w'.
Proof.
  revert pool w. induction arrivals as [|n arrivals IH]; intros pool w HF.
  - simpl. apply (proj2 (waiting_finish node pool)) in HF.
    destruct (List.filter _ pool) as [|t waiting]; [eauto|].
    now apply drain_total.
  - simpl. apply (proj2 (waiting_finish node pool)) in HF.
    destruct (List.filter _ pool) as [|t0 waiting0] eqn:Ew; [eauto|].
    set (waiting := t0 :: waiting0) in *.
    assert (Hlt : n mod length waiting < length waiting)
      by (apply Nat.mod_upper_bound; simpl; lia).
    destruct (lookup_lt_is_Some_2 _ _ Hlt) as [t Ei]. rewrite Ei.
    destruct (resume node t w) as [t' w1] eqn:Er.
    destruct (resume_trace node _ _ _ _ Er) as (pre & He & -> & Ho).
    apply IH. eapply Forall_insert_iff; [exact Ei| |exact HF]. now rewrite Ho.
Qed.

Lemma launch_trace (node : Endpoint) (tasks pool : list (prog unit))
    (w w' : world) :
  launch tasks w = (pool, w') ->
  exists pre,
    pre ++ flat_map (events node) pool ≡ₚ flat_map (events node) tasks /\
    w' = perform_all pre w /\
    (Forall (fun t => outcome node t = Some tt) pool <->
     Forall (fun t => outcome node t = Some tt) tasks).
Proof.
  revert pool w w'. induction tasks as [|t tasks IH]; intros pool w w' H;
    simpl in H.
  - injection H as <- <-. exists []. auto.
  - destruct (advance t w) as [t' w1] eqn:Ea.
    destruct (launch tasks w1) as [pool' w2] eqn:El.
    injection H as <- <-.
    destruct (advance_trace node _ _ _ _ Ea) as (p1 & He & -> & Ho).
    destruct (IH _ _ _ El) as (p2 & Hp & -> & HF).
    exists (p1 ++ p2). split; [|split].
    + simpl. rewrite He, <- Hp, <- !app_assoc.
      apply Permutation_app_head.
      rewrite !app_assoc. apply Permutation_app_tail, Permutation_app_comm.
    + now rewrite perform_all_app.
    + rewrite !Forall_cons, HF, Ho. tauto.
Qed.

Lemma Promise_all_trace (node : Endpoint) (arrivals : list nat)
    (promises : list (prog unit)) (w w' : world) :
  Promise_all node arrivals promises w = Some w' ->
  exists es,
    es ≡ₚ flat_map (events node) promises /\
    w' = perform_all es w /\
    Forall (fun t => outcome node t = Some tt) promises.
Proof.
  unfold Promise_all. intros H.
  destruct (launch promises w) as [pool w1] eqn:El.
  destruct (launch_trace node _ _ _ _ El) as (pre & Hp & -> & HF).
  destruct (deliver_trace _ _ _ _ _ H) as (es & Hq & -> & HF').
  exists (pre ++ es). split; [|split].
  - now rewrite Hq.
  - now rewrite perform_all_app.
  - now apply HF.
Qed.

Lemma Promise_all_total (node : Endpoint) (arrivals : list nat)
    (promises : list (prog unit)) (w : world) :
  Forall (fun t => outcome node t = Some tt) promises ->
  exists w', Promise_all node arrivals promises w = Some w'.
Proof.
  unfold Promise_all. intros HF.
  destruct (launch promises w) as [pool w1] eqn:El.
  destruct (launch_trace node _ _ _ _ El) as (pre & Hp & -> & HF').
  apply deliver_total. now apply HF'.
Qed.

(** ** The trace of [fetchChunks] *)

Lemma for_each_map {I J : Type} (g : I -> J) (l : list I)
    (body : J -> world -> option world) (w : world) :
  for_each (map g l) body w = for_each l (fun i => body (g i)) w.
Proof.
  revert w. induction l as [|i l IH]; intros w; simpl; [reflexivity|].
  destruct (body (g i) w); auto.
Qed.

Lemma leaf_prefixes_S (prefix : string) (levels : nat) :
  leaf_prefixes prefix (S levels) =
  concat (map (fun child => leaf_prefixes child levels) (child_prefixes prefix)).
Proof. reflexivity. Qed.

Lemma leaf_prefixes_1 (prefix : string) :
  leaf_prefixes prefix 1 = child_prefixes prefix.
Proof.
  rewrite leaf_prefixes_S. induction (child_prefixes prefix) as [|c l IH];
    simpl; [reflexivity | f_equal; exact IH].
Qed.

Section FetchTrace.

Variable node : Endpoint.
Variable QUICK_MODE : bool.
Variable arrivals : string -> list nat.
Variable fuel : nat.
Variable at_ : string.

Let finishes (p : string) : Prop :=
  outcome node (fetchChunks_base fuel p at_) = Some tt.

Lemma fetchChunks_S (prefix : string) (levels : nat) (w : world) :
  fetchChunks node QUICK_MODE arrivals fuel prefix (S levels) at_ w =
  if QUICK_MODE && (S levels =? 1) then
    Promise_all node (arrivals prefix)
      (map (fun p => fetchChunks_base fuel p at_) (child_prefixes prefix)) w
  else
    for_each (child_prefixes prefix)
      (fun child =>
         fetchChunks node QUICK_MODE arrivals fuel child levels at_) w.
Proof.
  unfold child_prefixes. rewrite for_each_map, map_map. reflexivity.
Qed.

Lemma for_each_trace (levels : nat) (children : list string) :
  (forall child w w',
     fetchChunks node QUICK_MODE arrivals fuel child levels at_ w = Some w' ->
     exists es,
       es ≡ₚ leaf_events node fuel child levels at_ /\
       w' = perform_all es w /\
       (QUICK_MODE = false -> es = leaf_events node fuel child levels at_) /\
       Forall finishes (leaf_prefixes child levels)) ->
  forall w w',
    for_each children
      (fun child =>
         fetchChunks node QUICK_MODE arrivals fuel child levels at_) w
    = Some w' ->
    exists es,
      es ≡ₚ flat_map (fun child => leaf_events node fuel child levels at_)
              children /\
      w' = perform_all es w /\
      (QUICK_MODE = false ->
       es = flat_map (fun child => leaf_events node fuel child levels at_)
              children) /\
      Forall finishes
        (concat (map (fun child => leaf_prefixes child levels) children)).
Proof.
  intros Hbody. induction children as [|c children IH]; intros w w' H;
    simpl in H.
  - injection H as <-. exists []. repeat split; auto.
  - destruct (fetchChunks _ _ _ _ c levels at_ w) as [w1|] eqn:E;
      [|discriminate].
    destruct (Hbody _ _ _ E) as (es1 & Hp1 & -> & Hx1 & HF1).
    destruct (IH _ _ H) as (es2 & Hp2 & -> & Hx2 & HF2).
    exists (es1 ++ es2). split; [|split; [|split]].
    + simpl. now apply Permutation_app.
    + now rewrite perform_all_app.
    + intros HQ. simpl. now rewrite Hx1, Hx2.
    + simpl. apply Forall_app. auto.
Qed.

Lemma leaf_events_S (prefix : string) (levels : nat) :
  leaf_events node fuel prefix (S levels) at_ =
  flat_map (fun child => leaf_events node fuel child levels at_)
           (child_prefixes prefix).
Proof.
  unfold leaf_events. rewrite leaf_prefixes_S.
  induction (child_prefixes prefix) as [|c l IH]; [reflexivity|].
  rewrite map_cons, concat_cons, flat_map_app, IH. reflexivity.
Qed.

Lemma leaf_events_0 (prefix : string) :
  leaf_events node fuel prefix 0 at_ =
  events node (fetchChunks_base fuel prefix at_).
Proof. unfold leaf_events, leaf_prefixes, flat_map. apply app_nil_r. Qed.

Lemma quick_events (children : list string) :
  flat_map (events node)
    (map (fun p => fetchChunks_base fuel p at_) children) =
  flat_map (fun child => leaf_events node fuel child 0 at_) children.
Proof.
  induction children as [|c l IH]; [reflexivity|].
  change (events node (fetchChunks_base fuel c at_) ++
          flat_map (events node)
            (map (fun p => fetchChunks_base fuel p at_) l) =
          leaf_events node fuel c 0 at_ ++
          flat_map (fun child => leaf_events node fuel child 0 at_) l).
  now rewrite IH, leaf_events_0.
Qed.

Lemma quick_finishes (children : list string) :
  Forall (fun t => outcome node t = Some tt)
    (map (fun p => fetchChunks_base fuel p at_) children) <->
  Forall finishes
    (concat (map (fun child => leaf_prefixes child 0) children)).
Proof.
  induction children as [|c l IH]; [split; constructor|].
  rewrite !map_cons, concat_cons, Forall_app, Forall_cons, IH.
  change (leaf_prefixes c 0) with [c]. rewrite Forall_singleton.
  reflexivity.
Qed.

(** A call of [fetchChunks] that returns has performed the effects of
    the base cases of all its leaf prefixes, each base case as a block
    in sequential mode, interleaved at the awaits in quick mode. *)
Lemma fetchChunks_trace (levelsRemaining : nat) :
  forall prefix w w',
    fetchChunks node QUICK_MODE arrivals fuel prefix levelsRemaining at_ w
    = Some w' ->
    exists es,
      es ≡ₚ leaf_events node fuel prefix levelsRemaining at_ /\
      w' = perform_all es w /\
      (QUICK_MODE = false ->
       es = leaf_events node fuel prefix levelsRemaining at_) /\
      Forall finishes (leaf_prefixes prefix levelsRemaining).
Proof.
  induction levelsRemaining as [|levels IH]; intros prefix w w' H.
  - simpl in H. rewrite run_trace in H.
    destruct (outcome node _) as [[]|] eqn:E; [|discriminate].
    injection H as <-. rewrite leaf_events_0.
    eexists; repeat split; eauto. constructor; [exact E|constructor].
  - rewrite fetchChunks_S in H. rewrite leaf_events_S, leaf_prefixes_S.
    destruct (QUICK_MODE && (S levels =? 1)) eqn:EQ.
    + apply andb_true_iff in EQ as [HQ Hl]. apply Nat.eqb_eq in Hl.
      assert (levels = 0) as -> by lia.
      apply Promise_all_trace in H as (es & Hp & -> & HF).
      exists es. split; [|split; [|split]].
      * now rewrite Hp, quick_events.
      * reflexivity.
      * intros HQ'. congruence.
      * now apply quick_finishes.
    + eapply for_each_trace; eauto.
Qed.

End FetchTrace.

Section FetchTotal.

Variable node : Endpoint.
Variable QUICK_MODE : bool.
Variable arrivals : string -> list nat.
Variable fuel : nat.
Variable at_ : string.

Let finishes (p : string) : Prop :=
  outcome node (fetchChunks_base fuel p at_) = Some tt.

(** If the loop of every leaf stays within budget, the call returns. *)
Lemma fetchChunks_total (levelsRemaining : nat) :
  forall prefix w,
    Forall finishes (leaf_prefixes prefix levelsRemaining) ->
    exists w',
      fetchChunks node QUICK_MODE arrivals fuel prefix levelsRemaining at_ w
      = Some w'.
Proof.
  induction levelsRemaining as [|levels IH]; intros prefix w HF.
  - change (fetchChunks node QUICK_MODE arrivals fuel prefix 0 at_ w)
      with (snd <$> run node (fetchChunks_base fuel prefix at_) w).
    rewrite run_trace. inversion HF as [|? ? Hp _]; subst.
    unfold finishes in Hp. rewrite Hp. simpl. eauto.
  - rewrite fetchChunks_S. rewrite leaf_prefixes_S in HF.
    destruct (QUICK_MODE && (S levels =? 1)) eqn:EQ.
    + apply andb_true_iff in EQ as [HQ Hl]. apply Nat.eqb_eq in Hl.
      assert (levels = 0) as -> by lia.
      apply Promise_all_total. now apply quick_finishes.
    + clear EQ. revert w.
      induction (child_prefixes prefix) as [|c l IHl]; intros w.
      * simpl. eauto.
      * rewrite map_cons, concat_cons, Forall_app in HF.
        destruct HF as [Hc Hl]. simpl.
        destruct (IH c w Hc) as [w1 ->]. apply IHl, Hl.
Qed.

End FetchTotal.

(** ** The trace of the base case *)

Lemma events_do (node : Endpoint) (e : effect) : events node (do_ e) = [e].
Proof. reflexivity. Qed.

Lemma outcome_do (node : Endpoint) (e : effect) :
  outcome node (do_ e) = Some tt.
Proof. reflexivity. Qed.

Lemma events_getKeysPaged (node : Endpoint) (prefix : string) (count : nat)
    (startKey : option string) (at_ : string) :
  events node (provider_send_getKeysPaged prefix count startKey at_) =
  [issue (ReqKeysPaged prefix count startKey at_)].
Proof. reflexivity. Qed.

Lemma outcome_getKeysPaged (node : Endpoint) (prefix : string) (count : nat)
    (startKey : option string) (at_ : string) :
  outcome node (provider_send_getKeysPaged prefix count startKey at_) =
  Some (state_getKeysPaged node prefix count startKey at_).
Proof. reflexivity. Qed.

(** The effects of lines 170-181 on a page [keys]. *)
Lemma events_store_page (node : Endpoint) (keys : list string) (at_ : string) :
  events node (store_page keys at_) =
  let values := state_queryStorageAt node keys at_ in
  issue (ReqQueryStorageAt keys at_)
  :: (if negb (length values =? length keys)
      then [log_length_mismatch (length values) (length keys)] else [])
  ++ [write_batch (make_pairs keys values)].
Proof.
  unfold store_page. cbn.
  destruct (negb (length (state_queryStorageAt node keys at_) =? length keys));
    reflexivity.
Qed.

Lemma outcome_store_page (node : Endpoint) (keys : list string) (at_ : string) :
  outcome node (store_page keys at_) = Some tt.
Proof.
  unfold store_page. cbn.
  destruct (negb (length (state_queryStorageAt node keys at_) =? length keys));
    reflexivity.
Qed.

Ltac trace :=
  repeat (progress
    (rewrite ?events_bind, ?outcome_bind, ?outcome_do, ?events_do,
       ?outcome_getKeysPaged, ?events_getKeysPaged, ?outcome_store_page;
     cbv beta iota)).

Lemma while_full_page_stop (fuel : nat) (prefix at_ : string)
    (keys : list string) (key_count : nat) :
  key_count <> page -> while_full_page fuel prefix at_ keys key_count = Ret tt.
Proof.
  intros H. apply Nat.eqb_neq in H. destruct fuel; simpl; now rewrite H.
Qed.

Lemma events_while_step (node : Endpoint) (fuel : nat) (prefix at_ : string)
    (keys : list string) :
  let startKey := keys !! (page - 1) in
  let keys' := state_getKeysPaged node prefix page startKey at_ in
  events node (while_full_page (S fuel) prefix at_ keys page) =
  [add_total_keys_count page; log_keys_fetched;
   issue (ReqKeysPaged prefix page startKey at_)]
  ++ page_events node keys' at_
  ++ events node (while_full_page fuel prefix at_ keys' (length keys')).
Proof.
  intros startKey keys'.
  change (while_full_page (S fuel) prefix at_ keys page) with
    (if page =? page then
       (do_ (add_total_keys_count page) ;;
        do_ log_keys_fetched ;;
        keys' <- provider_send_getKeysPaged prefix page
                   (keys !! (page - 1)) at_ ;;
        (if 0 <? length keys' then store_page keys' at_ else Ret tt) ;;
        while_full_page fuel prefix at_ keys' (length keys'))%prog
     else Ret tt).
  rewrite Nat.eqb_refl. trace. fold startKey keys'. unfold page_events.
  destruct (0 <? length keys'); trace; reflexivity.
Qed.

Lemma outcome_while_step (node : Endpoint) (fuel : nat) (prefix at_ : string)
    (keys : list string) :
  let startKey := keys !! (page - 1) in
  let keys' := state_getKeysPaged node prefix page startKey at_ in
  outcome node (while_full_page (S fuel) prefix at_ keys page) =
  outcome node (while_full_page fuel prefix at_ keys' (length keys')).
Proof.
  intros startKey keys'.
  change (while_full_page (S fuel) prefix at_ keys page) with
    (if page =? page then
       (do_ (add_total_keys_count page) ;;
        do_ log_keys_fetched ;;
        keys' <- provider_send_getKeysPaged prefix page
                   (keys !! (page - 1)) at_ ;;
        (if 0 <? length keys' then store_page keys' at_ else Ret tt) ;;
        while_full_page fuel prefix at_ keys' (length keys'))%prog
     else Ret tt).
  rewrite Nat.eqb_refl. trace. fold startKey keys'.
  destruct (0 <? length keys'); trace; reflexivity.
Qed.

Lemma events_base (node : Endpoint) (fuel : nat) (prefix at_ : string) :
  let keys := state_getKeysPaged node prefix page None at_ in
  events node (fetchChunks_base fuel prefix at_) =
  [issue (ReqKeysPaged prefix page None at_)]
  ++ (if 0 <? length keys
      then [add_total_keys_count (length keys); log_keys_fetched]
           ++ events node (store_page keys at_)
      else [])
  ++ events node (while_full_page fuel prefix at_ keys (length keys))
  ++ match outcome node (while_full_page fuel prefix at_ keys (length keys))
     with
     | Some _ => [update_chunksFetched]
     | None => []
     end.
Proof.
  intros keys. unfold fetchChunks_base. trace. fold keys.
  destruct (0 <? length keys); trace; cbn [outcome events];
    rewrite <- ?app_assoc;
    destruct (outcome node (while_full_page _ _ _ _ _)); reflexivity.
Qed.

Lemma outcome_base (node : Endpoint) (fuel : nat) (prefix at_ : string) :
  let keys := state_getKeysPaged node prefix page None at_ in
  outcome node (fetchChunks_base fuel prefix at_) =
  outcome node (while_full_page fuel prefix at_ keys (length keys)).
Proof.
  intros keys. unfold fetchChunks_base. trace. fold keys.
  destruct (0 <? length keys); trace; cbn [outcome];
    destruct (outcome node (while_full_page _ _ _ _ _)) as [[]|]; reflexivity.
Qed.

(** ** What a trace leaves in the state *)

Lemma sent_perform (e : effect) (w : world) :
  sent (perform e w) = sent w ++ requests [e].
Proof.
  destruct e; simpl; rewrite ?app_nil_r; try reflexivity.
  now destruct (separator w).
Qed.

Lemma sent_perform_all (es : list effect) (w : world) :
  sent (perform_all es w) = sent w ++ requests es.
Proof.
  revert w. induction es as [|e es IH]; intros w.
  - simpl. now rewrite app_nil_r.
  - change (perform_all (e :: es) w) with (perform_all es (perform e w)).
    rewrite IH, sent_perform. unfold requests. simpl.
    now rewrite app_nil_r, <- app_assoc.
Qed.

Lemma enumerations_app (l1 l2 : list request) :
  enumerations (l1 ++ l2) = enumerations l1 + enumerations l2.
Proof. unfold enumerations. now rewrite List.filter_app, length_app. Qed.

Lemma requests_app (es1 es2 : list effect) :
  requests (es1 ++ es2) = requests es1 ++ requests es2.
Proof. apply flat_map_app. Qed.

Lemma page_pos : 0 < page.
Proof. unfold page. lia. Qed.

Lemma enumerations_page_events (node : Endpoint) (keys : list string)
    (at_ : string) :
  enumerations (requests (page_events node keys at_)) = 0.
Proof.
  unfold page_events. destruct (0 <? length keys); [|reflexivity].
  rewrite events_store_page. cbv zeta.
  destruct (negb _); reflexivity.
Qed.

(** ** Pagination *)

Section Pagination.

Variable node : Endpoint.
Variables prefix at_ : string.

Let pages (j : nat) : list string := nth_page node prefix at_ j.

(** The loop entered with page [j] in hand, when [m] more full pages
    follow before a short one: it ends and asks for [m] more pages. *)
Lemma while_full_page_calls (m : nat) :
  forall fuel j,
    (forall i, i < m -> length (pages (j + i)) = page) ->
    length (pages (j + m)) < page ->
    m <= fuel ->
    outcome node
      (while_full_page fuel prefix at_ (pages j) (length (pages j)))
    = Some tt /\
    enumerations (requests (events node
      (while_full_page fuel prefix at_ (pages j) (length (pages j))))) = m.
Proof.
  induction m as [|m IH]; intros fuel j Hfull Hshort Hfuel.
  - rewrite Nat.add_0_r in Hshort.
    rewrite while_full_page_stop by lia. auto.
  - destruct fuel as [|fuel]; [lia|].
    assert (H0 : length (pages j) = page)
      by (rewrite <- (Hfull 0) by lia; now rewrite Nat.add_0_r).
    rewrite H0.
    assert (Hnext : state_getKeysPaged node prefix page
                      (pages j !! (page - 1)) at_ = pages (S j)).
    { unfold pages at 2. simpl. fold (pages j). now rewrite H0. }
    rewrite outcome_while_step, events_while_step. cbv zeta.
    rewrite Hnext.
    destruct (IH fuel (S j)) as [Ho He].
    + intros i Hi. replace (S j + i) with (j + S i) by lia.
      apply Hfull. lia.
    + now replace (S j + m) with (j + S m) by lia.
    + lia.
    + split; [exact Ho|].
      rewrite !requests_app, !enumerations_app, enumerations_page_events, He.
      reflexivity.
Qed.


End Pagination.





(** A chunk of exactly [page] keys takes two calls, the second of which
    returns nothing, where [ceil(512 / page)] is 1. *)
Example full_page_chunk_calls :
  let node :=
    db_node "0xf1"
      (map (fun i => ("0x00" +:+ hex2 (i / 256) +:+ hex2 (i mod 256), JNull))
           (seq 0 512)) in
  length (nth_page node "0x00" "0xf1" 0) = page /\
  length (nth_page node "0x00" "0xf1" 1) = 0 /\
  (enumerations <$>
     (sent <$> (snd <$>
        run node (fetchChunks_base 1 "0x00" "0xf1") (initial None))))
  = Some 2 /\
  ceil_div 512 page = 1.
Proof. repeat split; vm_compute; reflexivity. Qed.

(** ** Child prefixes *)

Lemma prefix_app (p s : string) : String.prefix p (p +:+ s) = true.
Proof.
  induction p as [|c p IH]; [now destruct s|].
  rewrite app_String. simpl. destruct (ascii_dec c c); [exact IH|congruence].
Qed.

Lemma prefix_length (p s : string) :
  String.prefix p s = true -> String.length p <= String.length s.
Proof.
  revert s. induction p as [|c p IH]; intros s H; simpl; [lia|].
  destruct s as [|d s]; simpl in H; [discriminate|].
  destruct (ascii_dec c d); [|discriminate]. apply IH in H. simpl. lia.
Qed.

Lemma prefix_same_length (p q k : string) :
  String.prefix p k = true -> String.prefix q k = true ->
  String.length p = String.length q -> p = q.
Proof.
  revert q k. induction p as [|c p IH]; intros q k Hp Hq Hl.
  - destruct q; [reflexivity|discriminate].
  - destruct q as [|d q]; [discriminate|].
    destruct k as [|e k]; simpl in Hp, Hq; [discriminate|].
    destruct (ascii_dec c e); [|discriminate].
    destruct (ascii_dec d e); [|discriminate]. subst.
    f_equal. eapply IH; eauto.
Qed.

Lemma prefix_trans (a b c : string) :
  String.prefix a b = true -> String.prefix b c = true ->
  String.prefix a c = true.
Proof.
  revert b c. induction a as [|x a IH]; intros b c Hab Hbc.
  - now destruct c.
  - destruct b as [|y b]; simpl in Hab; [discriminate|].
    destruct (ascii_dec x y); [subst|discriminate].
    destruct c as [|z c]; simpl in Hbc; [discriminate|].
    destruct (ascii_dec y z); [subst|discriminate].
    simpl. destruct (ascii_dec z z); [|congruence]. eapply IH; eauto.
Qed.

Lemma string_app_inv_head (p a b : string) : p +:+ a = p +:+ b -> a = b.
Proof.
  induction p as [|c p IH]; intros H; [exact H|].
  rewrite !app_String in H. injection H as H. auto.
Qed.

Lemma ascii_compare_refl (c : ascii) : (c ?= c)%char = Eq.
Proof.
  pose proof (Ascii.compare_antisym c c) as H.
  destruct (c ?= c)%char; simpl in H; congruence.
Qed.

Lemma ltb_app_head (p a b : string) :
  String.ltb (p +:+ a) (p +:+ b) = String.ltb a b.
Proof.
  unfold String.ltb. induction p as [|c p IH]; [reflexivity|].
  rewrite !app_String. simpl. now rewrite ascii_compare_refl.
Qed.

Lemma hex2_table :
  forallb (fun i =>
    String.eqb (hex2 i)
      (String (hex_digit (i / 16)) (String (hex_digit (i mod 16)) "")))
    (seq 0 256) = true.
Proof. vm_compute. reflexivity. Qed.

(** [i.toString(16).padStart(2, "0")] is the two hex digits of a byte. *)
Lemma hex2_digits (i : nat) :
  i < 256 ->
  hex2 i = String (hex_digit (i / 16)) (String (hex_digit (i mod 16)) "").
Proof.
  intros Hi. pose proof hex2_table as H.
  rewrite forallb_forall in H. apply String.eqb_eq, H, in_seq. lia.
Qed.

Lemma hex2_length (i : nat) : i < 256 -> String.length (hex2 i) = 2.
Proof. intros Hi. now rewrite hex2_digits. Qed.

Lemma hex_value_digit (d : nat) :
  d < 16 ->
  (let n := nat_of_ascii (hex_digit d) in
   if n <? 58 then n - 48 else n - 87) = d.
Proof.
  intros Hd. unfold hex_digit. cbv zeta.
  destruct (d <? 10) eqn:E.
  - apply Nat.ltb_lt in E. rewrite nat_ascii_embedding by lia.
    replace (48 + d <? 58) with true by (symmetry; apply Nat.ltb_lt; lia).
    lia.
  - apply Nat.ltb_ge in E. rewrite nat_ascii_embedding by lia.
    replace (87 + d <? 58) with false by (symmetry; apply Nat.ltb_ge; lia).
    lia.
Qed.

Lemma hex_digit_inj (a b : nat) :
  a < 16 -> b < 16 -> hex_digit a = hex_digit b -> a = b.
Proof.
  intros Ha Hb H. rewrite <- (hex_value_digit a Ha), <- (hex_value_digit b Hb).
  now rewrite H.
Qed.

Lemma hex2_inj (i j : nat) : i < 256 -> j < 256 -> hex2 i = hex2 j -> i = j.
Proof.
  intros Hi Hj H. rewrite !hex2_digits in H by assumption.
  injection H as H1 H2.
  assert (Hd : forall n, n < 256 -> n / 16 < 16)
    by (intros n Hn; apply Nat.Div0.div_lt_upper_bound; lia).
  assert (Hm : forall n, n mod 16 < 16)
    by (intros n; apply Nat.mod_upper_bound; lia).
  assert (E1 : i / 16 = j / 16) by (apply hex_digit_inj; auto).
  assert (E2 : i mod 16 = j mod 16) by (apply hex_digit_inj; auto).
  rewrite (Nat.div_mod_eq i 16), (Nat.div_mod_eq j 16).
  now rewrite E1, E2.
Qed.

Lemma hex2_order_table :
  forallb (fun i =>
    forallb (fun j => (j <=? i) || String.ltb (hex2 i) (hex2 j)) (seq 0 256))
    (seq 0 256) = true.
Proof. vm_compute. reflexivity. Qed.

Lemma hex2_increasing (i j : nat) :
  i < j -> j < 256 -> String.ltb (hex2 i) (hex2 j) = true.
Proof.
  intros Hij Hj. pose proof hex2_order_table as H.
  rewrite forallb_forall in H. specialize (H i).
  rewrite forallb_forall in H. specialize (H ltac:(apply in_seq; lia) j).
  specialize (H ltac:(apply in_seq; lia)).
  apply orb_true_iff in H as [H|H]; [|exact H].
  apply Nat.leb_le in H. lia.
Qed.

Lemma child_prefixes_length (prefix : string) :
  length (child_prefixes prefix) = 256.
Proof. unfold child_prefixes. now rewrite length_map, length_seq. Qed.

Lemma child_prefixes_nth (prefix : string) (i : nat) :
  i < 256 -> nth i (child_prefixes prefix) "" = prefix +:+ hex2 i.
Proof.
  intros Hi. unfold child_prefixes.
  rewrite (nth_indep _ "" ((fun i => prefix +:+ hex2 i) 0))
    by now rewrite length_map, length_seq.
  rewrite (map_nth (fun i => prefix +:+ hex2 i)), seq_nth by lia.
  reflexivity.
Qed.

Lemma in_child_prefixes (prefix c : string) :
  In c (child_prefixes prefix) <-> exists i, i < 256 /\ c = prefix +:+ hex2 i.
Proof.
  unfold child_prefixes. rewrite in_map_iff. split.
  - intros (i & <- & Hi). apply in_seq in Hi. exists i. split; [lia|reflexivity].
  - intros (i & Hi & ->). exists i. split; [reflexivity|apply in_seq; lia].
Qed.

Lemma child_prefixes_NoDup (prefix : string) : NoDup (child_prefixes prefix).
Proof.
  unfold child_prefixes. apply NoDup_fmap_2_strong; [|apply NoDup_ListNoDup, seq_NoDup].
  intros i j Hi Hj H. apply list_elem_of_In, in_seq in Hi, Hj.
  apply string_app_inv_head in H. apply hex2_inj; lia || assumption.
Qed.

(** ** Leaf prefixes *)

Lemma leaf_prefixes_length (levels : nat) :
  forall prefix, length (leaf_prefixes prefix levels) = 256 ^ levels.
Proof.
  induction levels as [|levels IH]; intros prefix; [reflexivity|].
  rewrite leaf_prefixes_S.
  assert (H : forall cs, length (concat (map (fun c => leaf_prefixes c levels) cs))
                         = length cs * 256 ^ levels).
  { induction cs as [|c cs IHc]; [reflexivity|].
    rewrite map_cons, concat_cons, length_app, IH, IHc. simpl. lia. }
  rewrite H, child_prefixes_length. rewrite Nat.pow_succ_r'. lia.
Qed.

Lemma in_leaf_prefixes_S (prefix q : string) (levels : nat) :
  In q (leaf_prefixes prefix (S levels)) <->
  exists c, In c (child_prefixes prefix) /\ In q (leaf_prefixes c levels).
Proof.
  rewrite leaf_prefixes_S, in_concat. split.
  - intros (l & Hl & Hq). apply in_map_iff in Hl as (c & <- & Hc). eauto.
  - intros (c & Hc & Hq). exists (leaf_prefixes c levels). split; [|exact Hq].
    apply in_map_iff. eauto.
Qed.

(** Every leaf prefix extends the prefix it was generated from by two
    characters per level. *)
Lemma leaf_prefix_shape (levels : nat) :
  forall prefix q,
    In q (leaf_prefixes prefix levels) ->
    String.prefix prefix q = true /\
    String.length q = String.length prefix + 2 * levels.
Proof.
  induction levels as [|levels IH]; intros prefix q H.
  - destruct H as [<-|[]]. split; [|lia].
    rewrite <- (string_app_nil_r prefix) at 2. apply prefix_app.
  - apply in_leaf_prefixes_S in H as (c & Hc & Hq).
    apply in_child_prefixes in Hc as (i & Hi & ->).
    destruct (IH _ _ Hq) as [Hp Hl]. split.
    + eapply prefix_trans; [apply prefix_app|exact Hp].
    + rewrite Hl, string_length_app, hex2_length by assumption. lia.
Qed.

Lemma leaf_blocks_NoDup (levels n : nat) (children : list string) :
  (forall prefix, NoDup (leaf_prefixes prefix levels)) ->
  NoDup children ->
  (forall c, In c children -> String.length c = n) ->
  NoDup (concat (map (fun c => leaf_prefixes c levels) children)).
Proof.
  intros IH Hnd Hlen. induction children as [|c cs IHc]; [constructor|].
  rewrite map_cons, concat_cons. apply NoDup_app.
  apply NoDup_cons in Hnd as [Hc Hcs]. split; [apply IH|split].
  - intros q Hq Hq'. apply list_elem_of_In in Hq, Hq'.
    apply in_concat in Hq' as (l & Hl & Hq').
    apply in_map_iff in Hl as (c' & <- & Hc').
    destruct (leaf_prefix_shape _ _ _ Hq) as [Hp _].
    destruct (leaf_prefix_shape _ _ _ Hq') as [Hp' _].
    assert (c = c').
    { eapply prefix_same_length; eauto.
      rewrite (Hlen c), (Hlen c'); [reflexivity|now right|now left]. }
    subst c'. apply Hc, list_elem_of_In, Hc'.
  - apply IHc; [exact Hcs|]. intros c' Hc'. apply Hlen. now right.
Qed.

Lemma leaf_prefixes_NoDup (levels : nat) :
  forall prefix, NoDup (leaf_prefixes prefix levels).
Proof.
  induction levels as [|levels IH]; intros prefix.
  - apply NoDup_singleton.
  - rewrite leaf_prefixes_S.
    apply (leaf_blocks_NoDup levels (String.length prefix + 2)).
    + exact IH.
    + apply child_prefixes_NoDup.
    + intros c Hc. apply in_child_prefixes in Hc as (i & Hi & ->).
      now rewrite string_length_app, hex2_length.
Qed.

(** No two leaf prefixes of one call cover a common key. *)
Lemma leaf_prefixes_disjoint (prefix : string) (levels : nat)
    (p q key : string) :
  In p (leaf_prefixes prefix levels) -> In q (leaf_prefixes prefix levels) ->
  startsWith key p = true -> startsWith key q = true -> p = q.
Proof.
  intros Hp Hq Hkp Hkq.
  destruct (leaf_prefix_shape _ _ _ Hp) as [_ Hlp].
  destruct (leaf_prefix_shape _ _ _ Hq) as [_ Hlq].
  eapply prefix_same_length; eauto. lia.
Qed.

Lemma hex_of_bytes_app (a b : list Byte.byte) :
  hex_of_bytes (a ++ b) = hex_of_bytes a +:+ hex_of_bytes b.
Proof.
  induction a as [|x a IH]; [reflexivity|].
  simpl. now rewrite IH, string_app_assoc.
Qed.

Lemma hex_of_bytes_length (key : list Byte.byte) :
  String.length (hex_of_bytes key) = 2 * length key.
Proof.
  induction key as [|b key IH]; [reflexivity|].
  simpl hex_of_bytes. rewrite string_length_app, IH, hex2_length.
  - simpl. lia.
  - pose proof (Byte.to_nat_bounded b). lia.
Qed.

(** The leaf that covers a key of at least [levels] bytes is the one
    spelled by its first [levels] bytes. *)
Lemma leaf_of_key (levels : nat) :
  forall prefix key,
    levels <= length key ->
    In (prefix +:+ hex_of_bytes (firstn levels key))
       (leaf_prefixes prefix levels).
Proof.
  induction levels as [|levels IH]; intros prefix key Hl.
  - simpl. left. now rewrite string_app_nil_r.
  - destruct key as [|b key]; simpl in Hl; [lia|].
    apply in_leaf_prefixes_S. exists (prefix +:+ hex2 (Byte.to_nat b)). split.
    + apply in_child_prefixes. exists (Byte.to_nat b). split; [|reflexivity].
      pose proof (Byte.to_nat_bounded b). lia.
    + rewrite firstn_cons. simpl hex_of_bytes.
      rewrite <- string_app_assoc. apply IH. lia.
Qed.

Lemma key_under_leaf (levels : nat) (key : list Byte.byte) :
  startsWith (key_hex key) ("0x" +:+ hex_of_bytes (firstn levels key)) = true.
Proof.
  unfold startsWith, key_hex.
  rewrite <- (firstn_skipn levels key) at 2.
  rewrite hex_of_bytes_app, <- string_app_assoc. apply prefix_app.
Qed.

(** A key of fewer than [levels] bytes lies under no leaf prefix. *)
Lemma short_key_uncovered (levels : nat) (key : list Byte.byte) (p : string) :
  length key < levels ->
  In p (leaf_prefixes "0x" levels) -> startsWith (key_hex key) p = false.
Proof.
  intros Hl Hp. destruct (leaf_prefix_shape _ _ _ Hp) as [_ Hlen].
  destruct (startsWith (key_hex key) p) eqn:E; [|reflexivity].
  apply prefix_length in E. unfold key_hex in E.
  rewrite string_length_app, hex_of_bytes_length in E. simpl in E, Hlen. lia.
Qed.

(** ** Completed chunks *)

Lemma chunksFetched_perform_all (es : list effect) (w : world) :
  chunksFetched (perform_all es w) = chunksFetched w + chunk_updates es.
Proof.
  revert w. induction es as [|e es IH]; intros w.
  - simpl. unfold chunk_updates. simpl. lia.
  - change (perform_all (e :: es) w) with (perform_all es (perform e w)).
    rewrite IH. unfold chunk_updates. simpl flat_map. rewrite length_app.
    destruct e; simpl; try lia. destruct (separator w); simpl; lia.
Qed.

Lemma chunk_updates_app (es1 es2 : list effect) :
  chunk_updates (es1 ++ es2) = chunk_updates es1 + chunk_updates es2.
Proof. unfold chunk_updates. now rewrite flat_map_app, length_app. Qed.

Lemma chunk_updates_Permutation (es1 es2 : list effect) :
  es1 ≡ₚ es2 -> chunk_updates es1 = chunk_updates es2.
Proof.
  intros H. unfold chunk_updates.
  apply Permutation_length, Permutation_flat_map, H.
Qed.

Lemma chunk_updates_store_page (node : Endpoint) (keys : list string)
    (at_ : string) :
  chunk_updates (events node (store_page keys at_)) = 0.
Proof.
  rewrite events_store_page. cbv zeta. destruct (negb _); reflexivity.
Qed.

Lemma chunk_updates_while (node : Endpoint) (prefix at_ : string) (fuel : nat) :
  forall keys key_count,
    chunk_updates
      (events node (while_full_page fuel prefix at_ keys key_count)) = 0.
Proof.
  induction fuel as [|fuel IH]; intros keys key_count.
  - simpl. destruct (key_count =? page); reflexivity.
  - destruct (Nat.eq_dec key_count page) as [->|Hne].
    + rewrite events_while_step. cbv zeta.
      rewrite !chunk_updates_app, IH. unfold page_events.
      destruct (0 <? length _); [rewrite chunk_updates_store_page|];
        reflexivity.
    + now rewrite while_full_page_stop.
Qed.

(** A base case that returns reports exactly one completed chunk. *)
Lemma chunk_updates_base (node : Endpoint) (fuel : nat) (prefix at_ : string) :
  outcome node (fetchChunks_base fuel prefix at_) = Some tt ->
  chunk_updates (events node (fetchChunks_base fuel prefix at_)) = 1.
Proof.
  intros H. rewrite outcome_base in H. cbv zeta in H.
  rewrite events_base. cbv zeta. rewrite H.
  rewrite !chunk_updates_app, chunk_updates_while.
  destruct (0 <? length _);
    [rewrite chunk_updates_app, chunk_updates_store_page|]; reflexivity.
Qed.

Lemma chunk_updates_leaves (node : Endpoint) (fuel : nat) (at_ : string)
    (leaves : list string) :
  Forall (fun p => outcome node (fetchChunks_base fuel p at_) = Some tt)
         leaves ->
  chunk_updates
    (flat_map (fun p => events node (fetchChunks_base fuel p at_)) leaves)
  = length leaves.
Proof.
  induction 1 as [|p leaves Hp _ IH]; [reflexivity|].
  rewrite flat_map_cons_eq, chunk_updates_app, IH, chunk_updates_base
    by exact Hp.
  reflexivity.
Qed.

(** A call of [fetchChunks] that returns has completed [256 ^ levels]
    chunks, in either mode. *)
Lemma fetchChunks_chunksFetched (node : Endpoint) (QUICK_MODE : bool)
    (arrivals : string -> list nat) (fuel : nat) (prefix : string)
    (levelsRemaining : nat) (at_ : string) (w w' : world) :
  fetchChunks node QUICK_MODE arrivals fuel prefix levelsRemaining at_ w
  = Some w' ->
  chunksFetched w' = chunksFetched w + 256 ^ levelsRemaining.
Proof.
  intros H. apply fetchChunks_trace in H as (es & Hp & -> & _ & HF).
  rewrite chunksFetched_perform_all, (chunk_updates_Permutation _ _ Hp).
  unfold leaf_events. rewrite chunk_updates_leaves by exact HF.
  now rewrite leaf_prefixes_length.
Qed.

Lemma hex_digit_lower (d : nat) :
  d < 16 -> String.get d "0123456789abcdef" = Some (hex_digit d).
Proof.
  intros Hd. do 16 (destruct d as [|d]; [reflexivity|]). lia.
Qed.

(** C2 (amended).  The recursive case of [fetchChunks] runs over exactly
    256 child prefixes, the prefix followed by the two lower-case hex
    digits of each byte value in increasing order, and calls itself on
    each with one level less.  A call at depth [levels] therefore reaches
    [256 ^ levels] pairwise distinct leaf prefixes and completes that many
    chunks; no key lies under two of them, every key of at least [levels]
    bytes lies under one of them, and a key of fewer than [levels] bytes
    lies under none. *)
Theorem partition_by_prefix (prefix : string) (levels : nat) :
  length (child_prefixes prefix) = 256 /\
  (forall i, i < 256 ->
     exists c1 c2,
       String.get (i / 16) "0123456789abcdef" = Some c1 /\
       String.get (i mod 16) "0123456789abcdef" = Some c2 /\
       nth i (child_prefixes prefix) "" = prefix +:+ String c1 (String c2 "")) /\
  (forall i j, i < j -> j < 256 ->
     String.ltb (nth i (child_prefixes prefix) "")
                (nth j (child_prefixes prefix) "") = true) /\
  (forall node QUICK_MODE arrivals fuel at_ w,
     fetchChunks node QUICK_MODE arrivals fuel prefix (S levels) at_ w =
     if QUICK_MODE && (S levels =? 1) then
       Promise_all node (arrivals prefix)
         (map (fun p => fetchChunks_base fuel p at_) (child_prefixes prefix)) w
     else
       for_each (child_prefixes prefix)
         (fun child =>
            fetchChunks node QUICK_MODE arrivals fuel child levels at_) w) /\
  length (leaf_prefixes prefix levels) = 256 ^ levels /\
  NoDup (leaf_prefixes prefix levels) /\
  (forall node QUICK_MODE arrivals fuel at_ w w',
     fetchChunks node QUICK_MODE arrivals fuel prefix levels at_ w = Some w' ->
     chunksFetched w' = chunksFetched w + 256 ^ levels) /\
  (forall p q key,
     In p (leaf_prefixes prefix levels) -> In q (leaf_prefixes prefix levels) ->
     startsWith key p = true -> startsWith key q = true -> p = q) /\
  (forall key : list Byte.byte,
     levels <= length key ->
     exists p, In p (leaf_prefixes "0x" levels) /\
               startsWith (key_hex key) p = true) /\
  (forall (key : list Byte.byte) p,
     length key < levels ->
     In p (leaf_prefixes "0x" levels) -> startsWith (key_hex key) p = false).
Proof.
  split; [apply child_prefixes_length|].
  split.
  { intros i Hi. exists (hex_digit (i / 16)), (hex_digit (i mod 16)).
    split; [apply hex_digit_lower, Nat.Div0.div_lt_upper_bound; lia|].
    split; [apply hex_digit_lower, Nat.mod_upper_bound; lia|].
    now rewrite child_prefixes_nth, hex2_digits. }
  split.
  { intros i j Hij Hj. rewrite !child_prefixes_nth by lia.
    rewrite ltb_app_head. now apply hex2_increasing. }
  split; [intros; apply fetchChunks_S|].
  split; [apply leaf_prefixes_length|].
  split; [apply leaf_prefixes_NoDup|].
  split; [intros; eapply fetchChunks_chunksFetched; eauto|].
  split; [intros p q key; apply leaf_prefixes_disjoint|].
  split.
  { intros key Hl. exists ("0x" +:+ hex_of_bytes (firstn levels key)).
    split; [now apply leaf_of_key | apply key_under_leaf]. }
  intros key p Hl Hp. now apply (short_key_uncovered levels).
Qed.

Lemma partition_by_prefix_witness :
  length (leaf_prefixes "0x" 1) = 256 ^ 1 /\
  (exists p, In p (leaf_prefixes "0x" 1) /\
             startsWith (key_hex [Byte.x3a; Byte.x63]) p = true) /\
  String.ltb (nth 9 (child_prefixes "0x") "") (nth 10 (child_prefixes "0x") "")
  = true.
Proof.
  destruct (partition_by_prefix "0x" 1)
    as (_ & _ & Hord & _ & Hlen & _ & _ & _ & Hcover & _).
  split; [exact Hlen|]. split.
  - apply Hcover. simpl. lia.
  - apply Hord; lia.
Defined.

(** C2 as stated fails for short keys: at depth 2 the one-byte key [0x3a]
    lies under no leaf prefix. *)
Lemma partition_gap_counterexample :
  ~ exists p, In p (leaf_prefixes "0x" 2) /\
              startsWith (key_hex [Byte.x3a]) p = true.
Proof.
  intros (p & Hp & H).
  rewrite (short_key_uncovered 2 [Byte.x3a] p) in H;
    [discriminate | simpl; lia | exact Hp].
Qed.

(** ** The text in the snapshot file *)

Lemma batches_app (es1 es2 : list effect) :
  batches (es1 ++ es2) = batches es1 ++ batches es2.
Proof. apply flat_map_app. Qed.

Lemma batches_Permutation (es1 es2 : list effect) :
  es1 ≡ₚ es2 -> batches es1 ≡ₚ batches es2.
Proof. apply Permutation_flat_map. Qed.

Lemma concat_Permutation {A : Type} (l1 l2 : list (list A)) :
  l1 ≡ₚ l2 -> concat l1 ≡ₚ concat l2.
Proof.
  induction 1 as [|x l l' _ IH|x y l|l l' l'' _ IH1 _ IH2]; simpl.
  - reflexivity.
  - now apply Permutation_app_head.
  - rewrite !app_assoc. apply Permutation_app_tail, Permutation_app_comm.
  - now rewrite IH1.
Qed.

(** The file and the flag after a list of effects. *)
Lemma stream_perform_all (es : list effect) (w : world) (text : string) :
  storage_json w = Some text ->
  storage_json (perform_all es w)
  = Some (text +:+ written_text (separator w) (batches es)) /\
  separator (perform_all es w)
  = separator w || negb (bool_decide (batches es = [])).
Proof.
  revert w text. induction es as [|e es IH]; intros w text Hw.
  - simpl. now rewrite string_app_nil_r, orb_false_r.
  - change (perform_all (e :: es) w) with (perform_all es (perform e w)).
    destruct e as [n| |a b|pairs| |r].
    1-3, 5-6:
      match goal with
      | |- context [perform ?e ?w0] =>
          destruct (IH (perform e w0) text Hw) as [-> ->]
      end; split; reflexivity.
    assert (Hw' : storage_json (perform (write_batch pairs) w)
                  = Some (text +:+ (if separator w then "," else "")
                          +:+ batch_text pairs)).
    { simpl. destruct (separator w); simpl; rewrite Hw; simpl;
        now rewrite ?string_app_assoc. }
    assert (Hs : separator (perform (write_batch pairs) w) = true)
      by (simpl; destruct (separator w) eqn:E; [exact E|reflexivity]).
    destruct (IH _ _ Hw') as [-> ->]. rewrite Hs. split.
    + simpl. now rewrite !string_app_assoc.
    + simpl. now rewrite orb_true_r.
Qed.

Lemma written_text_true (bs : list (list (string * jsval))) :
  bs <> [] -> written_text true bs = "," +:+ written_text false bs.
Proof. destruct bs; [congruence|reflexivity]. Qed.

(** A separator goes before every batch but the first. *)
Lemma written_text_join (bs : list (list (string * jsval))) :
  written_text false bs = join "," (map batch_text bs).
Proof.
  induction bs as [|b bs IH]; [reflexivity|].
  destruct bs as [|b' bs].
  - simpl. now rewrite string_app_nil_r.
  - change (written_text false (b :: b' :: bs))
      with ("" +:+ batch_text b +:+ written_text true (b' :: bs)).
    rewrite written_text_true by congruence. rewrite IH. reflexivity.
Qed.

(** Non-empty batches joined by commas read as one array. *)
Lemma join_batches (bs : list (list (string * jsval))) :
  Forall (fun b => b <> []) bs ->
  join "," (map batch_text bs)
  = join "," (map JSON_stringify_pair (concat bs)).
Proof.
  induction 1 as [|b bs Hb HF IH]; [reflexivity|].
  rewrite concat_cons, map_app.
  destruct bs as [|b' bs].
  - rewrite concat_nil, app_nil_r. apply batch_text_join.
  - rewrite (join_app "," (map JSON_stringify_pair b)).
    + rewrite <- IH, <- batch_text_join. reflexivity.
    + destruct b; [congruence|discriminate].
    + inversion HF as [|? ? Hb' _]; subst.
      rewrite concat_cons, map_app.
      destruct b'; [congruence|discriminate].
Qed.

Lemma snapshot_text (bs : list (list (string * jsval))) :
  Forall (fun b => b <> []) bs ->
  "[" +:+ written_text false bs +:+ "]" = JSON_stringify (concat bs).
Proof.
  intros H. unfold JSON_stringify.
  now rewrite written_text_join, join_batches.
Qed.

(** ** Batches are never empty *)

Lemma make_pairs_length (keys : list string) (values : list jsval) :
  length (make_pairs keys values) = length keys.
Proof. unfold make_pairs. now rewrite length_map, length_seq. Qed.

Lemma batches_store_page (node : Endpoint) (keys : list string) (at_ : string) :
  batches (events node (store_page keys at_))
  = [make_pairs keys (state_queryStorageAt node keys at_)].
Proof.
  rewrite events_store_page. cbv zeta. destruct (negb _); reflexivity.
Qed.

Lemma batches_page_events (node : Endpoint) (keys : list string) (at_ : string) :
  Forall (fun b => b <> []) (batches (page_events node keys at_)).
Proof.
  unfold page_events. destruct (0 <? length keys) eqn:E; [|constructor].
  rewrite batches_store_page. constructor; [|constructor].
  apply Nat.ltb_lt in E. intros H.
  apply (f_equal (@length _)) in H. rewrite make_pairs_length in H.
  simpl in H. lia.
Qed.

Lemma batches_while (node : Endpoint) (prefix at_ : string) (fuel : nat) :
  forall keys key_count,
    Forall (fun b => b <> [])
      (batches (events node (while_full_page fuel prefix at_ keys key_count))).
Proof.
  induction fuel as [|fuel IH]; intros keys key_count.
  - simpl. destruct (key_count =? page); constructor.
  - destruct (Nat.eq_dec key_count page) as [->|Hne].
    + rewrite events_while_step. cbv zeta. rewrite !batches_app.
      apply Forall_app. split; [constructor|].
      apply Forall_app. split; [apply batches_page_events|apply IH].
    + rewrite while_full_page_stop by exact Hne. constructor.
Qed.

Lemma batches_base (node : Endpoint) (fuel : nat) (prefix at_ : string) :
  Forall (fun b => b <> [])
    (batches (events node (fetchChunks_base fuel prefix at_))).
Proof.
  rewrite events_base. cbv zeta. rewrite !batches_app.
  apply Forall_app. split; [constructor|].
  apply Forall_app. split.
  - pose proof (batches_page_events node
      (state_getKeysPaged node prefix page None at_) at_) as H.
    unfold page_events in H.
    destruct (0 <? length _); [|constructor].
    rewrite batches_app. exact H.
  - apply Forall_app. split; [apply batches_while|].
    destruct (outcome node _); constructor.
Qed.

Lemma batches_leaf_events (node : Endpoint) (fuel : nat) (prefix : string)
    (levels : nat) (at_ : string) :
  Forall (fun b => b <> []) (batches (leaf_events node fuel prefix levels at_)).
Proof.
  unfold leaf_events.
  induction (leaf_prefixes prefix levels) as [|p l IH]; [constructor|].
  rewrite flat_map_cons_eq, batches_app. apply Forall_app.
  split; [apply batches_base|exact IH].
Qed.

(** ** [JSON.stringify] writes JSON *)

Lemma json_chars_app (a b : string) :
  json_chars a -> json_chars b -> json_chars (a +:+ b).
Proof.
  induction 1 as [|c s Hc _ IH|c s Hc _ IH|h1 h2 h3 h4 s Hh _ IH]; intros Hb.
  - exact Hb.
  - rewrite app_String. apply json_chars_plain; auto.
  - rewrite !app_String. apply json_chars_escape; auto.
  - change (json_chars
      ("\u" +:+ String h1 (String h2 (String h3 (String h4 (s +:+ b)))))).
    apply json_chars_unicode; auto.
Qed.

Lemma json_chars_escape_char (c : ascii) : json_chars (JSON_escape c).
Proof.
  destruct c as [[] [] [] [] [] [] [] []]; vm_compute;
    first
      [ apply json_chars_plain; [reflexivity|constructor]
      | apply json_chars_escape; [reflexivity|constructor]
      | apply (json_chars_unicode _ _ _ _ ""); [reflexivity|constructor] ].
Qed.

Lemma json_chars_escape_all (s : string) : json_chars (JSON_escape_all s).
Proof.
  induction s as [|c s IH]; [constructor|].
  simpl. apply json_chars_app; [apply json_chars_escape_char|exact IH].
Qed.

Lemma json_text_value (v : jsval) : json_text (JSON_stringify_value v).
Proof.
  destruct v; simpl; try apply json_text_null.
  apply json_text_string, json_chars_escape_all.
Qed.

Lemma json_text_pair (p : string * jsval) : json_text (JSON_stringify_pair p).
Proof.
  unfold JSON_stringify_pair.
  replace ("[" +:+ JSON_quote (fst p) +:+ "," +:+
           JSON_stringify_value (snd p) +:+ "]")
    with ("[" +:+ join "," [JSON_quote (fst p); JSON_stringify_value (snd p)]
          +:+ "]")
    by (cbn [join]; now rewrite !string_app_assoc).
  apply json_text_array.
  constructor; [apply json_text_string, json_chars_escape_all|].
  constructor; [apply json_text_value|constructor].
Qed.

(** The serialisation of an array of pairs is a JSON text. *)
Lemma json_text_stringify (pairs : list (string * jsval)) :
  json_text (JSON_stringify pairs).
Proof.
  apply json_text_array, List.Forall_forall. intros t Ht.
  apply in_map_iff in Ht as (p & <- & _). apply json_text_pair.
Qed.

(** ** The fetch phase *)

Lemma main_fetch_phase_trace (node : Endpoint) (QUICK_MODE : bool)
    (arrivals : string -> list nat) (fuel : nat)
    (FORK_CHUNKS_LEVEL : option nat) (w w' : world) :
  storage_json w = None -> separator w = false ->
  main_fetch_phase node QUICK_MODE arrivals fuel FORK_CHUNKS_LEVEL w = Some w' ->
  let events_in_order :=
    leaf_events node fuel "0x" (chunksLevel FORK_CHUNKS_LEVEL)
      (chain_getFinalizedHead node) in
  exists es,
    es ≡ₚ events_in_order /\
    (QUICK_MODE = false -> es = events_in_order) /\
    storage_json w' = Some ("[" +:+ written_text false (batches es) +:+ "]") /\
    Forall (fun p =>
              outcome node
                (fetchChunks_base fuel p (chain_getFinalizedHead node))
              = Some tt)
           (leaf_prefixes "0x" (chunksLevel FORK_CHUNKS_LEVEL)).
Proof.
  intros Hfile Hsep H. unfold main_fetch_phase in H. rewrite Hfile in H.
  rewrite bool_decide_eq_false_2 in H by (intros [? ?]; discriminate).
  match type of H with
  | match fetchChunks _ _ _ _ _ _ _ ?w0 with _ => _ end = _ =>
      set (w1 := w0) in H
  end.
  destruct (fetchChunks _ _ _ _ _ _ _ w1) as [w2|] eqn:E; [|discriminate].
  injection H as <-.
  apply fetchChunks_trace in E as (es & Hp & -> & Hx & HF).
  exists es. split; [exact Hp|]. split; [exact Hx|]. split; [|exact HF].
  assert (H1 : storage_json w1 = Some "[")
    by (subst w1; simpl; now rewrite Hfile).
  assert (H2 : separator w1 = false) by (subst w1; simpl; exact Hsep).
  destruct (stream_perform_all es w1 _ H1) as [Hs _].
  simpl. rewrite Hs, H2. simpl. now rewrite !string_app_assoc.
Qed.

Lemma batches_no_keys (node : Endpoint) (fuel : nat) (prefix : string)
    (levels : nat) (at_ : string) :
  (forall p count startKey a, state_getKeysPaged node p count startKey a = []) ->
  batches (leaf_events node fuel prefix levels at_) = [].
Proof.
  intros Hnone. unfold leaf_events.
  induction (leaf_prefixes prefix levels) as [|p l IH]; [reflexivity|].
  rewrite flat_map_cons_eq, batches_app, IH, app_nil_r.
  rewrite events_base. cbv zeta. rewrite Hnone. simpl length.
  rewrite while_full_page_stop by (unfold page; lia). reflexivity.
Qed.

(** C3.  A fetch phase that starts without a snapshot file and with the
    flag [separator] unset, and that returns, leaves in the file an
    opening bracket, the texts of the batches it wrote, every one of them
    non-empty and every one but the first preceded by a comma, and a
    closing bracket.  The batches are those of the leaf chunks, in the
    order of the chunks in sequential mode and interleaved in quick mode.
    The file is the [JSON.stringify] text of the array of all pairs
    written, a JSON text, and it is [[]] when the node holds no key. *)
Theorem snapshot_is_json_array (node : Endpoint) (QUICK_MODE : bool)
    (arrivals : string -> list nat) (fuel : nat)
    (FORK_CHUNKS_LEVEL : option nat) (w w' : world) :
  storage_json w = None -> separator w = false ->
  main_fetch_phase node QUICK_MODE arrivals fuel FORK_CHUNKS_LEVEL w = Some w' ->
  let batches_in_order :=
    batches (leaf_events node fuel "0x" (chunksLevel FORK_CHUNKS_LEVEL)
               (chain_getFinalizedHead node)) in
  exists bs,
    Forall (fun b => b <> []) bs /\
    bs ≡ₚ batches_in_order /\
    (QUICK_MODE = false -> bs = batches_in_order) /\
    storage_json w' = Some ("[" +:+ join "," (map batch_text bs) +:+ "]") /\
    storage_json w' = Some (JSON_stringify (concat bs)) /\
    json_text (JSON_stringify (concat bs)) /\
    ((forall p count startKey a,
        state_getKeysPaged node p count startKey a = []) ->
     storage_json w' = Some "[]").
Proof.
  intros Hfile Hsep H batches_in_order.
  destruct (main_fetch_phase_trace _ _ _ _ _ _ _ Hfile Hsep H)
    as (es & Hp & Hx & Hs & _).
  assert (HF : Forall (fun b => b <> []) (batches es)).
  { eapply Permutation_Forall;
      [symmetry; apply batches_Permutation, Hp|apply batches_leaf_events]. }
  exists (batches es).
  split; [exact HF|].
  split; [apply batches_Permutation, Hp|].
  split; [intros HQ; now rewrite (Hx HQ)|].
  split; [now rewrite Hs, written_text_join|].
  split; [now rewrite Hs, snapshot_text|].
  split; [apply json_text_stringify|].
  intros Hnone. rewrite Hs.
  assert (Hb : batches es = []).
  { apply Permutation_nil. symmetry.
    rewrite <- (batches_no_keys node fuel "0x"
                  (chunksLevel FORK_CHUNKS_LEVEL)
                  (chain_getFinalizedHead node) Hnone).
    apply batches_Permutation, Hp. }
  now rewrite Hb.
Qed.

Lemma snapshot_is_json_array_witness :
  let node := db_node "0xf1" [("0x0001", JString "0x11"); ("0x0002", JNull);
                               ("0xcc01", JString "0x22")] in
  exists w',
    main_fetch_phase node true (fun _ => [204; 204]) 1 None (initial None)
    = Some w' /\
    exists bs,
      Forall (fun b => b <> []) bs /\
      storage_json w' = Some ("[" +:+ join "," (map batch_text bs) +:+ "]") /\
      storage_json w' = Some (JSON_stringify (concat bs)) /\
      json_text (JSON_stringify (concat bs)).
Proof.
  intros node.
  assert (H : exists w',
    main_fetch_phase node true (fun _ => [204; 204]) 1 None (initial None)
    = Some w') by (eexists; vm_compute; reflexivity).
  destruct H as [w' H]. exists w'. split; [exact H|].
  destruct (snapshot_is_json_array node true (fun _ => [204; 204]) 1 None
              (initial None) w' eq_refl eq_refl H)
    as (bs & HF & _ & _ & H1 & H2 & H3 & _).
  exists bs. auto.
Defined.

(** C4.  From the same state, against the same node and block reference,
    the fetch phase returns in quick mode exactly when it returns in
    sequential mode, and the two snapshot files are the [JSON.stringify]
    texts of two arrays of pairs that are permutations of one another. *)
Theorem quick_mode_same_pairs (node : Endpoint)
    (arrivals : string -> list nat) (fuel : nat)
    (FORK_CHUNKS_LEVEL : option nat) (w : world) :
  storage_json w = None -> separator w = false ->
  (is_Some (main_fetch_phase node false arrivals fuel FORK_CHUNKS_LEVEL w) <->
   is_Some (main_fetch_phase node true arrivals fuel FORK_CHUNKS_LEVEL w)) /\
  forall w_seq w_quick,
    main_fetch_phase node false arrivals fuel FORK_CHUNKS_LEVEL w
    = Some w_seq ->
    main_fetch_phase node true arrivals fuel FORK_CHUNKS_LEVEL w
    = Some w_quick ->
    exists pairs_seq pairs_quick,
      storage_json w_seq = Some (JSON_stringify pairs_seq) /\
      storage_json w_quick = Some (JSON_stringify pairs_quick) /\
      pairs_seq ≡ₚ pairs_quick.
Proof.
  intros Hfile Hsep. split.
  - unfold main_fetch_phase. rewrite Hfile.
    rewrite bool_decide_eq_false_2 by (intros [? ?]; discriminate).
    match goal with
    | |- context [fetchChunks _ false _ _ _ _ _ ?w0] => set (w1 := w0)
    end.
    split; intros [w2 H].
    + destruct (fetchChunks _ false _ _ _ _ _ w1) as [w3|] eqn:E;
        [|discriminate].
      apply fetchChunks_trace in E as (_ & _ & _ & _ & HF).
      destruct (fetchChunks_total node true arrivals fuel _ _ "0x" w1 HF)
        as [w4 ->]. eauto.
    + destruct (fetchChunks _ true _ _ _ _ _ w1) as [w3|] eqn:E;
        [|discriminate].
      apply fetchChunks_trace in E as (_ & _ & _ & _ & HF).
      destruct (fetchChunks_total node false arrivals fuel _ _ "0x" w1 HF)
        as [w4 ->]. eauto.
  - intros w_seq w_quick Hs Hq.
    destruct (main_fetch_phase_trace _ _ _ _ _ _ _ Hfile Hsep Hs)
      as (es1 & Hp1 & _ & Hs1 & _).
    destruct (main_fetch_phase_trace _ _ _ _ _ _ _ Hfile Hsep Hq)
      as (es2 & Hp2 & _ & Hs2 & _).
    exists (concat (batches es1)), (concat (batches es2)).
    rewrite Hs1, Hs2, !snapshot_text.
    + repeat split.
      apply concat_Permutation, batches_Permutation. now rewrite Hp1, Hp2.
    + eapply Permutation_Forall;
        [symmetry; apply batches_Permutation, Hp2|apply batches_leaf_events].
    + eapply Permutation_Forall;
        [symmetry; apply batches_Permutation, Hp1|apply batches_leaf_events].
Qed.

Lemma quick_mode_same_pairs_witness :
  let node := db_node "0xf1" [("0x0001", JString "0x11"); ("0x0002", JNull);
                               ("0xcc01", JString "0x22")] in
  exists w_seq w_quick,
    main_fetch_phase node false (fun _ => [204; 204]) 1 None (initial None)
    = Some w_seq /\
    main_fetch_phase node true (fun _ => [204; 204]) 1 None (initial None)
    = Some w_quick /\
    exists pairs_seq pairs_quick,
      storage_json w_seq = Some (JSON_stringify pairs_seq) /\
      storage_json w_quick = Some (JSON_stringify pairs_quick) /\
      pairs_seq ≡ₚ pairs_quick.
Proof.
  intros node.
  assert (Hs : exists w',
    main_fetch_phase node false (fun _ => [204; 204]) 1 None (initial None)
    = Some w') by (eexists; vm_compute; reflexivity).
  assert (Hq : exists w',
    main_fetch_phase node true (fun _ => [204; 204]) 1 None (initial None)
    = Some w') by (eexists; vm_compute; reflexivity).
  destruct Hs as [w_seq Hs], Hq as [w_quick Hq].
  exists w_seq, w_quick. split; [exact Hs|]. split; [exact Hq|].
  exact (proj2 (quick_mode_same_pairs node (fun _ => [204; 204]) 1 None
                  (initial None) eq_refl eq_refl) w_seq w_quick Hs Hq).
Defined.

(** In quick mode the chunk whose answers arrive first is written first. *)
Example quick_mode_reorders :
  let node := db_node "0xf1" [("0x0001", JString "0x11"); ("0x0002", JNull);
                               ("0xcc01", JString "0x22")] in
  storage_json <$>
    main_fetch_phase node false (fun _ => [204; 204]) 1 None (initial None)
  = Some (Some (JSON_stringify
       [("0x0001", JString "0x11"); ("0x0002", JNull);
        ("0xcc01", JString "0x22")])) /\
  storage_json <$>
    main_fetch_phase node true (fun _ => [204; 204]) 1 None (initial None)
  = Some (Some (JSON_stringify
       [("0xcc01", JString "0x22"); ("0x0001", JString "0x11");
        ("0x0002", JNull)])).
Proof. split; vm_compute; reflexivity. Qed.

(** ** Every fetched page is in the snapshot *)

Section Written.

Variable node : Endpoint.
Variables prefix at_ : string.

Let pages (j : nat) : list string := nth_page node prefix at_ j.

Let batch_of (keys : list string) : list (string * jsval) :=
  make_pairs keys (state_queryStorageAt node keys at_).

(** The loop entered with page [j0] in hand writes the batch of every
    non-empty page it comes to. *)
Lemma while_written (fuel : nat) :
  forall j0 d,
    outcome node
      (while_full_page fuel prefix at_ (pages j0) (length (pages j0)))
    = Some tt ->
    (forall i, i < d -> length (pages (j0 + i)) = page) ->
    0 < d -> pages (j0 + d) <> [] ->
    In (batch_of (pages (j0 + d)))
       (batches (events node
          (while_full_page fuel prefix at_ (pages j0) (length (pages j0))))).
Proof.
  induction fuel as [|fuel IH]; intros j0 d Ho Hfull Hd Hne.
  - assert (H0 : length (pages j0) = page)
      by (rewrite <- (Hfull 0) by lia; now rewrite Nat.add_0_r).
    rewrite H0 in Ho. cbn [while_full_page] in Ho.
    rewrite Nat.eqb_refl in Ho. discriminate.
  - assert (H0 : length (pages j0) = page)
      by (rewrite <- (Hfull 0) by lia; now rewrite Nat.add_0_r).
    rewrite H0 in *.
    assert (Hnext : state_getKeysPaged node prefix page
                      (pages j0 !! (page - 1)) at_ = pages (S j0)).
    { unfold pages at 2. simpl. fold (pages j0). now rewrite H0. }
    rewrite outcome_while_step in Ho. cbv zeta in Ho. rewrite Hnext in Ho.
    rewrite events_while_step. cbv zeta. rewrite Hnext.
    rewrite !batches_app. apply in_or_app. right. apply in_or_app.
    destruct d as [|[|d]]; [lia| |].
    + left. replace (j0 + 1) with (S j0) in * by lia.
      unfold page_events.
      replace (0 <? length (pages (S j0))) with true
        by (symmetry; apply Nat.ltb_lt; destruct (pages (S j0));
            [congruence|simpl; lia]).
      rewrite batches_store_page. now left.
    + right. replace (j0 + S (S d)) with (S j0 + S d) in * by lia.
      apply IH; [exact Ho| |lia|exact Hne].
      intros i Hi. replace (S j0 + i) with (j0 + S i) by lia.
      apply Hfull. lia.
Qed.

(** A base case that returns has written the batch of every non-empty
    page that follows full pages only. *)
Lemma page_written (fuel j : nat) :
  outcome node (fetchChunks_base fuel prefix at_) = Some tt ->
  (forall i, i < j -> length (pages i) = page) ->
  pages j <> [] ->
  In (batch_of (pages j))
     (batches (events node (fetchChunks_base fuel prefix at_))).
Proof.
  intros Ho Hfull Hne. rewrite outcome_base in Ho. cbv zeta in Ho.
  rewrite events_base. cbv zeta. rewrite !batches_app.
  apply in_or_app. right. apply in_or_app.
  destruct j as [|j].
  - left. change (pages 0)
      with (state_getKeysPaged node prefix page None at_) in *.
    replace (0 <? length (state_getKeysPaged node prefix page None at_))
      with true
      by (symmetry; apply Nat.ltb_lt;
          destruct (state_getKeysPaged node prefix page None at_);
          [congruence|simpl; lia]).
    rewrite batches_app, batches_store_page. now left.
  - right. apply in_or_app. left.
    apply (while_written fuel 0 (S j)); auto. lia.
Qed.

End Written.

Lemma in_batches_leaf_events (node : Endpoint) (fuel : nat) (at_ : string)
    (leaves : list string) (p : string) (b : list (string * jsval)) :
  In p leaves ->
  In b (batches (events node (fetchChunks_base fuel p at_))) ->
  In b (batches
          (flat_map (fun p => events node (fetchChunks_base fuel p at_))
                    leaves)).
Proof.
  intros Hp Hb. unfold batches in *. apply in_flat_map in Hb as (e & He & Hb).
  apply in_flat_map. exists e. split; [|exact Hb].
  apply in_flat_map. eauto.
Qed.

(** After a fetch phase that returned, the snapshot file is the text of
    an array that holds every pair of every page fetched for a leaf
    chunk. *)
Lemma fetched_page_in_snapshot (node : Endpoint) (QUICK_MODE : bool)
    (arrivals : string -> list nat) (fuel : nat)
    (FORK_CHUNKS_LEVEL : option nat) (w w' : world) (p : string) (j : nat) :
  storage_json w = None -> separator w = false ->
  main_fetch_phase node QUICK_MODE arrivals fuel FORK_CHUNKS_LEVEL w = Some w' ->
  let at_ := chain_getFinalizedHead node in
  let keys := nth_page node p at_ j in
  In p (leaf_prefixes "0x" (chunksLevel FORK_CHUNKS_LEVEL)) ->
  (forall i, i < j -> length (nth_page node p at_ i) = page) ->
  keys <> [] ->
  exists pairs,
    storage_json w' = Some (JSON_stringify pairs) /\
    forall pr,
      In pr (make_pairs keys (state_queryStorageAt node keys at_)) ->
      In pr pairs.
Proof.
  intros Hfile Hsep H at_ keys Hp Hfull Hne.
  destruct (main_fetch_phase_trace _ _ _ _ _ _ _ Hfile Hsep H)
    as (es & Hperm & _ & Hs & HF).
  exists (concat (batches es)). split.
  - rewrite Hs, snapshot_text; [reflexivity|].
    eapply Permutation_Forall;
      [symmetry; apply batches_Permutation, Hperm|apply batches_leaf_events].
  - intros pr Hpr. apply in_concat. eexists. split; [|exact Hpr].
    eapply Permutation_in;
      [symmetry; apply batches_Permutation, Hperm|].
    apply (in_batches_leaf_events _ _ _ _ p); [exact Hp|].
    rewrite List.Forall_forall in HF.
    apply page_written; auto.
Qed.

(** ** Pairs and their values *)

Lemma make_pairs_lookup (keys : list string) (values : list jsval) (i : nat)
    (key : string) :
  keys !! i = Some key ->
  make_pairs keys values !! i = Some (key, default JUndefined (values !! i)).
Proof.
  intros Hk. unfold make_pairs.
  assert (Hi : i < length keys) by (eapply lookup_lt_Some; eauto).
  change (map ?f ?l) with (f <$> l).
  rewrite list_lookup_fmap, lookup_seq_lt by exact Hi. simpl.
  now rewrite !nth_lookup, Hk.
Qed.

Lemma stringify_pairs_lookup (pairs : list (string * jsval)) (i : nat)
    (p : string * jsval) :
  pairs !! i = Some p ->
  map JSON_stringify_pair pairs !! i = Some (JSON_stringify_pair p).
Proof.
  intros H. change (map ?f ?l) with (f <$> l).
  now rewrite list_lookup_fmap, H.
Qed.

Lemma storage_json_write_batch (pairs : list (string * jsval)) (w : world) :
  storage_json (perform (write_batch pairs) w)
  = Some (default "" (storage_json w) +:+ (if separator w then "," else "")
          +:+ join "," (map JSON_stringify_pair pairs)).
Proof.
  simpl. rewrite <- batch_text_join. fold (batch_text pairs).
  destruct (separator w); simpl; now rewrite ?string_app_assoc.
Qed.

(** C6.  When the bulk lookup gives [null] for the key at index [i] of a
    page, the one batch written for the page holds a pair for every key,
    its pair at index [i] is the key with [null], and the text appended
    to the file has at that position the two-element array of the quoted
    key and [null].  When the page is one the fetch phase fetched for a
    leaf chunk and the fetch phase returned, the snapshot file is the
    text of an array of pairs among which is the key with [null]. *)
Theorem null_value_is_written (node : Endpoint) (keys : list string)
    (at_ : string) (i : nat) (key : string) :
  keys !! i = Some key ->
  state_queryStorageAt node keys at_ !! i = Some JNull ->
  (exists pairs,
     batches (events node (store_page keys at_)) = [pairs] /\
     length pairs = length keys /\
     pairs !! i = Some (key, JNull) /\
     map JSON_stringify_pair pairs !! i
     = Some ("[" +:+ JSON_quote key +:+ ",null]") /\
     forall w,
       storage_json (perform (write_batch pairs) w)
       = Some (default "" (storage_json w)
               +:+ (if separator w then "," else "")
               +:+ join "," (map JSON_stringify_pair pairs))) /\
  (forall QUICK_MODE arrivals fuel FORK_CHUNKS_LEVEL w w' p j,
     storage_json w = None -> separator w = false ->
     main_fetch_phase node QUICK_MODE arrivals fuel FORK_CHUNKS_LEVEL w
     = Some w' ->
     at_ = chain_getFinalizedHead node ->
     In p (leaf_prefixes "0x" (chunksLevel FORK_CHUNKS_LEVEL)) ->
     (forall i', i' < j -> length (nth_page node p at_ i') = page) ->
     keys = nth_page node p at_ j ->
     exists pairs,
       storage_json w' = Some (JSON_stringify pairs) /\
       In (key, JNull) pairs).
Proof.
  intros Hk Hv.
  assert (Hp : make_pairs keys (state_queryStorageAt node keys at_) !! i
               = Some (key, JNull))
    by (rewrite (make_pairs_lookup _ _ _ _ Hk), Hv; reflexivity).
  split.
  - eexists. split; [apply batches_store_page|].
    split; [apply make_pairs_length|].
    split; [exact Hp|].
    split; [exact (stringify_pairs_lookup _ _ _ Hp)|].
    intros w. apply storage_json_write_batch.
  - intros QUICK_MODE arrivals fuel lvl w w' p j Hfile Hsep H -> Hin Hfull ->.
    destruct (fetched_page_in_snapshot _ _ _ _ _ _ _ p j Hfile Hsep H Hin Hfull)
      as (pairs & Hs & Hall).
    + intros E. rewrite E in Hk. discriminate.
    + exists pairs. split; [exact Hs|].
      apply Hall, list_elem_of_In, (list_elem_of_lookup_2 _ i), Hp.
Qed.

Lemma null_value_is_written_witness :
  let node := db_node "0xf1" [("0xcc01", JNull)] in
  (exists pairs,
     batches (events node (store_page ["0xcc01"] "0xf1")) = [pairs] /\
     length pairs = 1 /\
     pairs !! 0 = Some ("0xcc01", JNull) /\
     map JSON_stringify_pair pairs !! 0
     = Some ("[" +:+ dquote +:+ "0xcc01" +:+ dquote +:+ ",null]")) /\
  (exists w' pairs,
     main_fetch_phase node false (fun _ => []) 1 None (initial None)
     = Some w' /\
     storage_json w' = Some (JSON_stringify pairs) /\
     In ("0xcc01", JNull) pairs).
Proof.
  intros node.
  destruct (null_value_is_written node ["0xcc01"] "0xf1" 0 "0xcc01"
              eq_refl eq_refl) as [(pairs & H1 & H2 & H3 & H4 & _) Hrun].
  split.
  - exists pairs. repeat split; assumption.
  - assert (H : exists w',
      main_fetch_phase node false (fun _ => []) 1 None (initial None)
      = Some w') by (eexists; vm_compute; reflexivity).
    destruct H as [w' H].
    destruct (Hrun false (fun _ => []) 1 None (initial None) w' "0xcc" 0
                eq_refl eq_refl H eq_refl) as (ps & Hs & Hin).
    + change (chunksLevel None) with 1. rewrite leaf_prefixes_1.
      apply in_child_prefixes. exists 204. split; [lia|reflexivity].
    + intros i' Hi'. lia.
    + reflexivity.
    + exists w', ps. auto.
Defined.

(** The example of the specification: a pair with a [null] value. *)
Example null_pair_text :
  JSON_stringify [("0xCC01", JNull)]
  = "[[" +:+ dquote +:+ "0xCC01" +:+ dquote +:+ ",null]]".
Proof. reflexivity. Qed.

Lemma make_pairs_pad (keys : list string) (values : list jsval) :
  map JSON_stringify_pair (make_pairs keys values)
  = map JSON_stringify_pair
      (make_pairs keys
         (values ++ repeat JNull (length keys - length values))).
Proof.
  unfold make_pairs. rewrite !map_map. apply map_ext_in.
  intros i Hi. apply in_seq in Hi. unfold JSON_stringify_pair. simpl.
  do 3 f_equal.
  destruct (Nat.lt_ge_cases i (length values)) as [Hlt|Hge].
  - now rewrite app_nth1.
  - rewrite app_nth2 by exact Hge. rewrite nth_overflow by exact Hge.
    rewrite nth_repeat_lt by lia. reflexivity.
Qed.

(** C10.  When the bulk lookup gives fewer values than keys, the batch
    written for the page still holds one pair per key; a key at an index
    past the end of the values is paired with [undefined], which is
    written as [null], the text of a key whose value is [null]; the text
    of the whole batch is the one obtained from the values padded with
    [null].  When the page is one the fetch phase fetched for a leaf
    chunk and the fetch phase returned, the snapshot file is the text of
    an array of pairs among which is every such key with [undefined]. *)
Theorem missing_value_is_written_as_null (node : Endpoint)
    (keys : list string) (at_ : string) :
  let values := state_queryStorageAt node keys at_ in
  length values < length keys ->
  (exists pairs,
     batches (events node (store_page keys at_)) = [pairs] /\
     length pairs = length keys /\
     (forall i key,
        length values <= i -> keys !! i = Some key ->
        pairs !! i = Some (key, JUndefined) /\
        map JSON_stringify_pair pairs !! i
        = Some ("[" +:+ JSON_quote key +:+ ",null]") /\
        JSON_stringify_pair (key, JUndefined)
        = JSON_stringify_pair (key, JNull)) /\
     batch_text pairs
     = batch_text
         (make_pairs keys
            (values ++ repeat JNull (length keys - length values)))) /\
  (forall QUICK_MODE arrivals fuel FORK_CHUNKS_LEVEL w w' p j,
     storage_json w = None -> separator w = false ->
     main_fetch_phase node QUICK_MODE arrivals fuel FORK_CHUNKS_LEVEL w
     = Some w' ->
     at_ = chain_getFinalizedHead node ->
     In p (leaf_prefixes "0x" (chunksLevel FORK_CHUNKS_LEVEL)) ->
     (forall i', i' < j -> length (nth_page node p at_ i') = page) ->
     keys = nth_page node p at_ j ->
     exists pairs,
       storage_json w' = Some (JSON_stringify pairs) /\
       forall i key,
         length values <= i -> keys !! i = Some key ->
         In (key, JUndefined) pairs).
Proof.
  intros values Hlt.
  assert (Hp : forall i key,
    length values <= i -> keys !! i = Some key ->
    make_pairs keys values !! i = Some (key, JUndefined)).
  { intros i key Hi Hk. rewrite (make_pairs_lookup _ _ _ _ Hk).
    now rewrite (lookup_ge_None_2 values i Hi). }
  split.
  - eexists. split; [apply batches_store_page|].
    split; [apply make_pairs_length|]. split.
    + intros i key Hi Hk. split; [exact (Hp i key Hi Hk)|].
      split; [exact (stringify_pairs_lookup _ _ _ (Hp i key Hi Hk))|].
      reflexivity.
    + rewrite !batch_text_join. f_equal. apply make_pairs_pad.
  - intros QUICK_MODE arrivals fuel lvl w w' p j Hfile Hsep H Hat Hin Hfull
      Hkeys.
    subst at_.
    destruct (fetched_page_in_snapshot _ _ _ _ _ _ _ p j Hfile Hsep H Hin Hfull)
      as (pairs & Hs & Hall).
    + rewrite <- Hkeys. intros E. rewrite E in Hlt. simpl in Hlt. lia.
    + exists pairs. split; [exact Hs|]. intros i key Hi Hk.
      apply Hall. rewrite <- Hkeys.
      apply list_elem_of_In, (list_elem_of_lookup_2 _ i), Hp; assumption.
Qed.

Lemma missing_value_is_written_as_null_witness :
  let node := lossy_node "0xf1" [("0x0001", JString "0x11");
                                  ("0x0002", JString "0x12");
                                  ("0x0003", JString "0x13")] in
  let keys := ["0x0001"; "0x0002"; "0x0003"] in
  exists pairs,
    batches (events node (store_page keys "0xf1")) = [pairs] /\
    length pairs = 3 /\
    pairs !! 2 = Some ("0x0003", JUndefined) /\
    map JSON_stringify_pair pairs !! 2
    = Some ("[" +:+ JSON_quote "0x0003" +:+ ",null]").
Proof.
  intros node keys.
  destruct (missing_value_is_written_as_null node keys "0xf1")
    as [(pairs & H1 & H2 & H3 & _) _].
  - vm_compute. lia.
  - exists pairs. split; [exact H1|]. split; [exact H2|].
    destruct (H3 2 "0x0003") as (H4 & H5 & _).
    + vm_compute. lia.
    + reflexivity.
    + split; assumption.
Defined.

(** ** Whether a run returns depends on the key pages only *)






(** An endpoint that gives 3 keys and 2 values: the run goes on to the
    end and the file is closed. *)
Example mismatch_run_completes :
  let node := lossy_node "0xf1" [("0x0001", JString "0x11");
                                  ("0x0002", JString "0x12");
                                  ("0x0003", JString "0x13")] in
  option_map (fun w => (storage_json w, chunksFetched w, console w))
    (main_fetch_phase node false (fun _ => []) 1 None (initial None))
  = Some
      (Some (JSON_stringify [("0x0001", JString "0x11");
                             ("0x0002", JString "0x12");
                             ("0x0003", JUndefined)]),
       256,
       [(green, "Fetching current state of the live chain. Please wait, it can take a while depending on the size of your chain.");
        (green, "Starting to fetch key pairs at block: 0xf1");
        (green, "Keys fetched: 3");
        (red, "values length: 2 and key length: 3 not equal")]).
Proof. vm_compute. reflexivity. Qed.

(** ** Reuse of the snapshot file *)

(** C9.  When the snapshot file exists the fetch phase returns at once:
    it sends no request and leaves the file, the flag and the counters as
    they are; only the notice of the reuse is logged.  After a fetch
    phase that returned, the file exists, so the fetch phase of the next
    run of the script sends no request and leaves the file unchanged. *)
Theorem cached_snapshot_skips_fetch (node : Endpoint) (QUICK_MODE : bool)
    (arrivals : string -> list nat) (fuel : nat)
    (FORK_CHUNKS_LEVEL : option nat) (w : world) :
  (forall text,
     storage_json w = Some text ->
     exists w',
       main_fetch_phase node QUICK_MODE arrivals fuel FORK_CHUNKS_LEVEL w
       = Some w' /\
       w' = console_log yellow
              "Reusing cached storage. Delete ./data/storage.json and rerun the script if you want to fetch latest storage"
              w /\
       sent w' = sent w /\
       storage_json w' = Some text /\
       separator w' = separator w /\
       chunksFetched w' = chunksFetched w) /\
  (forall w1,
     main_fetch_phase node QUICK_MODE arrivals fuel FORK_CHUNKS_LEVEL w
     = Some w1 ->
     forall node' QUICK_MODE' arrivals' fuel' FORK_CHUNKS_LEVEL',
     exists w2,
       main_fetch_phase node' QUICK_MODE' arrivals' fuel' FORK_CHUNKS_LEVEL'
         (initial (storage_json w1)) = Some w2 /\
       sent w2 = [] /\
       storage_json w2 = storage_json w1).
Proof.
  assert (Hskip : forall nd q ar fu lv w0 text,
    storage_json w0 = Some text ->
    main_fetch_phase nd q ar fu lv w0
    = Some (console_log yellow
        "Reusing cached storage. Delete ./data/storage.json and rerun the script if you want to fetch latest storage"
        w0)).
  { intros nd q ar fu lv w0 text H0. unfold main_fetch_phase.
    now rewrite H0, bool_decide_eq_true_2 by eauto. }
  split.
  { intros text Hw. eexists. split; [apply (Hskip _ _ _ _ _ _ text Hw)|].
    repeat split. exact Hw. }
  intros w1 H node' q' ar' fu' lv'.
  assert (Hfile : exists text, storage_json w1 = Some text).
  { destruct (storage_json w) as [text|] eqn:Hw.
    - rewrite (Hskip _ _ _ _ _ _ _ Hw) in H. injection H as <-.
      exists text. exact Hw.
    - unfold main_fetch_phase in H. rewrite Hw in H.
      rewrite bool_decide_eq_false_2 in H by (intros [? ?]; discriminate).
      destruct (fetchChunks _ _ _ _ _ _ _ _) as [w2|]; [|discriminate].
      injection H as <-. simpl. eauto. }
  destruct Hfile as [text Ht]. eexists.
  split; [apply (Hskip _ _ _ _ _ _ text); exact Ht|].
  split; reflexivity.
Qed.

Lemma cached_snapshot_skips_fetch_witness :
  let node := db_node "0xf1" [("0x0001", JString "0x11")] in
  exists w1 w2,
    main_fetch_phase node false (fun _ => []) 1 None (initial None)
    = Some w1 /\
    main_fetch_phase node false (fun _ => []) 1 None
      (initial (storage_json w1)) = Some w2 /\
    sent w2 = [] /\
    storage_json w2 = storage_json w1.
Proof.
  intros node.
  assert (H : exists w1,
    main_fetch_phase node false (fun _ => []) 1 None (initial None)
    = Some w1) by (eexists; vm_compute; reflexivity).
  destruct H as [w1 H].
  destruct (proj2 (cached_snapshot_skips_fetch node false (fun _ => []) 1
                     None (initial None)) w1 H node false (fun _ => []) 1 None)
    as (w2 & H2 & H3 & H4).
  exists w1, w2. auto.
Defined.

(** ** The splice *)

Lemma update_top_has_top (f : gmap string json -> gmap string json)
    (spec genesis raw top : gmap string json) :
  has_top spec genesis raw top ->
  update_top f spec = Some (with_top spec genesis raw (f top)).
Proof. intros (Hg & Hr & Ht). unfold update_top. now rewrite Hg, Hr, Ht. Qed.

Lemma update_top_inv (f : gmap string json -> gmap string json)
    (spec spec' : gmap string json) :
  update_top f spec = Some spec' ->
  exists genesis raw top, has_top spec genesis raw top.
Proof.
  unfold update_top, has_top. intros H.
  destruct (spec !! "genesis") as [[| | | | | |genesis]|] eqn:Eg;
    try discriminate.
  destruct (genesis !! "raw") as [[| | | | | |raw]|] eqn:Er; try discriminate.
  destruct (raw !! "top") as [[| | | | | |top]|] eqn:Et; try discriminate.
  exists genesis, raw, top. auto.
Qed.

Lemma update_top_with_top (f : gmap string json -> gmap string json)
    (spec genesis raw top : gmap string json) :
  update_top f (with_top spec genesis raw top)
  = Some (with_top spec genesis raw (f top)).
Proof.
  unfold update_top, with_top. rewrite !lookup_insert_eq.
  now rewrite !insert_insert_eq.
Qed.

Lemma top_of_with_top (spec genesis raw top : gmap string json) :
  top_of (with_top spec genesis raw top) = Some top.
Proof. unfold top_of, with_top. now rewrite !lookup_insert_eq. Qed.

Lemma top_of_has_top (spec genesis raw top : gmap string json) :
  has_top spec genesis raw top -> top_of spec = Some top.
Proof. intros (Hg & Hr & Ht). unfold top_of. now rewrite Hg, Hr, Ht. Qed.

Lemma top_of_inv (spec top : gmap string json) :
  top_of spec = Some top -> exists genesis raw, has_top spec genesis raw top.
Proof.
  unfold top_of, has_top. intros H.
  destruct (spec !! "genesis") as [[| | | | | |genesis]|] eqn:Eg;
    try discriminate.
  destruct (genesis !! "raw") as [[| | | | | |raw]|] eqn:Er; try discriminate.
  destruct (raw !! "top") as [[| | | | | |top0]|] eqn:Et; try discriminate.
  injection H as <-. exists genesis, raw. auto.
Qed.

Lemma forEach_set_top_with_top (items : list (string * json))
    (spec genesis raw : gmap string json) :
  forall top,
    forEach_set_top items (with_top spec genesis raw top)
    = Some (with_top spec genesis raw (set_all items top)).
Proof.
  induction items as [|[key value] items IH]; intros top; [reflexivity|].
  simpl forEach_set_top. rewrite update_top_with_top. apply IH.
Qed.

Lemma forEach_set_top_has_top (items : list (string * json))
    (spec genesis raw top : gmap string json) :
  has_top spec genesis raw top ->
  items <> [] ->
  forEach_set_top items spec
  = Some (with_top spec genesis raw (set_all items top)).
Proof.
  intros H Hne. destruct items as [|[key value] items]; [congruence|].
  simpl forEach_set_top. rewrite (update_top_has_top _ _ _ _ _ H).
  rewrite forEach_set_top_with_top. reflexivity.
Qed.

(** The last assignment to a key wins; a key that is not assigned keeps
    its entry. *)
Lemma set_all_lookup (items : list (string * json)) (top : gmap string json)
    (key : string) :
  set_all items top !! key =
  match List.find (fun i => String.eqb (fst i) key) (rev items) with
  | Some i => Some (snd i)
  | None => top !! key
  end.
Proof.
  induction items as [|[k v] items IH] using rev_ind; [reflexivity|].
  unfold set_all in *. rewrite fold_left_app, rev_app_distr. simpl.
  destruct (String.eqb k key) eqn:E.
  - apply String.eqb_eq in E as ->. apply lookup_insert_eq.
  - apply String.eqb_neq in E. rewrite lookup_insert_ne by exact E. exact IH.
Qed.

Lemma find_key_none (items : list (string * json)) (key : string) :
  ~ In key (map fst items) ->
  List.find (fun i => String.eqb (fst i) key) items = None.
Proof.
  intros H. induction items as [|[k v] items IH]; [reflexivity|].
  simpl. destruct (String.eqb k key) eqn:E.
  - apply String.eqb_eq in E. subst. exfalso. apply H. now left.
  - apply IH. intros Hin. apply H. now right.
Qed.

Lemma find_key_unique (items : list (string * json)) (key : string)
    (value : json) :
  NoDup (map fst items) -> In (key, value) items ->
  List.find (fun i => String.eqb (fst i) key) items = Some (key, value).
Proof.
  intros Hnd Hin. induction items as [|[k v] items IH]; [destruct Hin|].
  simpl in Hnd. apply NoDup_cons in Hnd as [Hk Hnd]. simpl.
  destruct Hin as [Heq|Hin].
  - injection Heq as -> ->. now rewrite String.eqb_refl.
  - destruct (String.eqb k key) eqn:E; [|auto].
    apply String.eqb_eq in E. subst k. exfalso. apply Hk.
    apply list_elem_of_In, in_map_iff. exists (key, value). auto.
Qed.

Lemma selected_keys (prefixes : list string) (storage : list (string * json))
    (key : string) :
  In key (map fst (selected prefixes storage)) <->
  In key (map fst storage) /\ some_prefix prefixes key = true.
Proof.
  unfold selected. rewrite !in_map_iff. split.
  - intros ([k v] & <- & Hin). apply filter_In in Hin as [Hin Hp].
    split; [exists (k, v); auto|exact Hp].
  - intros [([k v] & <- & Hin) Hp]. exists (k, v). split; [reflexivity|].
    apply filter_In. auto.
Qed.

Lemma selected_NoDup (prefixes : list string) (storage : list (string * json)) :
  NoDup (map fst storage) -> NoDup (map fst (selected prefixes storage)).
Proof.
  unfold selected. induction storage as [|[k v] storage IH]; intros H;
    [constructor|].
  simpl in H. apply NoDup_cons in H as [Hk H]. simpl.
  destruct (some_prefix prefixes k); [|auto].
  simpl. apply NoDup_cons. split; [|auto].
  intros Hin. apply Hk. apply list_elem_of_In in Hin.
  apply list_elem_of_In. apply in_map_iff in Hin as ([k' v'] & <- & Hin).
  apply filter_In in Hin as [Hin _]. apply in_map_iff. exists (k', v'). auto.
Qed.

Lemma insert_storage_has_top (prefixes : list string)
    (storage : list (string * json)) (spec genesis raw top : gmap string json) :
  has_top spec genesis raw top ->
  exists spec',
    insert_storage prefixes storage spec = Some spec' /\
    top_of spec' = Some (set_all (selected prefixes storage) top) /\
    (selected prefixes storage = [] -> spec' = spec) /\
    (selected prefixes storage <> [] ->
     spec' = with_top spec genesis raw
               (set_all (selected prefixes storage) top)).
Proof.
  intros H. unfold insert_storage. fold (selected prefixes storage).
  destruct (selected prefixes storage) as [|i items] eqn:E.
  - exists spec. split; [reflexivity|]. split; [|split; [auto|congruence]].
    now apply top_of_has_top in H.
  - eexists. split; [apply (forEach_set_top_has_top _ _ _ _ _ H); congruence|].
    split; [apply top_of_with_top|]. split; [congruence|auto].
Qed.

Lemma insert_storage_spec (prefixes : list string)
    (storage : list (string * json)) (forkedSpec top : gmap string json) :
  top_of forkedSpec = Some top ->
  exists spec' top',
    insert_storage prefixes storage forkedSpec = Some spec' /\
    top_of spec' = Some top' /\
    (forall key,
       top' !! key =
       match List.find (fun i => String.eqb (fst i) key)
                       (rev (selected prefixes storage)) with
       | Some i => Some (snd i)
       | None => top !! key
       end) /\
    (forall key value,
       NoDup (map fst storage) -> In (key, value) storage ->
       some_prefix prefixes key = true -> top' !! key = Some value) /\
    (forall key, some_prefix prefixes key = false -> top' !! key = top !! key) /\
    (forall key, ~ In key (map fst storage) -> top' !! key = top !! key).
Proof.
  intros Ht. apply top_of_inv in Ht as (genesis & raw & Ht).
  destruct (insert_storage_has_top prefixes storage _ _ _ _ Ht)
    as (spec' & Hs & Htop & _).
  exists spec', (set_all (selected prefixes storage) top).
  split; [exact Hs|]. split; [exact Htop|].
  split; [apply set_all_lookup|]. split; [|split].
  - intros key value Hnd Hin Hp. rewrite set_all_lookup.
    rewrite (find_key_unique _ key value); [reflexivity| |].
    + rewrite map_rev. apply NoDup_ListNoDup, NoDup_rev, NoDup_ListNoDup.
      now apply selected_NoDup.
    + apply in_rev. rewrite rev_involutive. apply filter_In. auto.
  - intros key Hp. rewrite set_all_lookup, find_key_none; [reflexivity|].
    rewrite map_rev, <- in_rev, selected_keys. intros [_ H]. congruence.
  - intros key Hk. rewrite set_all_lookup, find_key_none; [reflexivity|].
    rewrite map_rev, <- in_rev, selected_keys. tauto.
Qed.

(** ** The frame of the splice *)

Lemma has_top_insert (spec genesis raw top : gmap string json)
    (field : string) (v : json) :
  field <> "genesis" ->
  (has_top (<[field := v]> spec) genesis raw top <->
   has_top spec genesis raw top).
Proof. intros H. unfold has_top. now rewrite lookup_insert_ne. Qed.

Lemma has_top_renamed (originalSpec forkedSpec genesis raw top
    : gmap string json) :
  has_top (renamed originalSpec forkedSpec) genesis raw top <->
  has_top forkedSpec genesis raw top.
Proof. unfold renamed. now rewrite !has_top_insert by discriminate. Qed.

(** The document returned by the splice. *)
Lemma main_splice_has_top (alice : string) (prefixes : list string)
    (runtime_hex : string) (storage : list (string * json))
    (originalSpec forkedSpec genesis raw top : gmap string json) :
  has_top forkedSpec genesis raw top ->
  main_splice alice prefixes runtime_hex storage originalSpec forkedSpec
  = Some (with_top (renamed originalSpec forkedSpec) genesis raw
            (spliced_top alice prefixes runtime_hex storage top)).
Proof.
  intros H. apply (proj2 (has_top_renamed originalSpec _ _ _ _)) in H.
  unfold main_splice. fold (renamed originalSpec forkedSpec).
  destruct (insert_storage_has_top prefixes storage _ _ _ _ H)
    as (spec' & -> & _ & Hnil & Hcons).
  cbn [mbind option_bind].
  assert (Hd : update_top (delete System_LastRuntimeUpgrade) spec'
               = Some (with_top (renamed originalSpec forkedSpec) genesis raw
                         (delete System_LastRuntimeUpgrade
                            (set_all (selected prefixes storage) top)))).
  { destruct (selected prefixes storage) as [|i items] eqn:E.
    - rewrite (Hnil eq_refl). now apply update_top_has_top.
    - rewrite Hcons by congruence. apply update_top_with_top. }
  rewrite Hd. cbn [mbind option_bind].
  repeat (rewrite update_top_with_top; cbn [mbind option_bind]).
  unfold spliced_top. cbv zeta.
  destruct (negb (String.eqb alice "")); rewrite ?update_top_with_top;
    reflexivity.
Qed.

Lemma main_splice_inv (alice : string) (prefixes : list string)
    (runtime_hex : string) (storage : list (string * json))
    (originalSpec forkedSpec spec' : gmap string json) :
  main_splice alice prefixes runtime_hex storage originalSpec forkedSpec
  = Some spec' ->
  exists genesis raw top, has_top forkedSpec genesis raw top.
Proof.
  unfold main_splice. fold (renamed originalSpec forkedSpec). intros H.
  assert (Hr : exists genesis raw top,
    has_top (renamed originalSpec forkedSpec) genesis raw top).
  { unfold insert_storage in H.
    destruct (List.filter _ storage) as [|[key value] items].
    - cbn [forEach_set_top mbind option_bind] in H.
      destruct (update_top (delete _) _) as [spec1|] eqn:E; [|discriminate].
      eapply update_top_inv, E.
    - cbn [forEach_set_top] in H.
      destruct (update_top (insert key value) _) as [spec1|] eqn:E;
        [|discriminate].
      eapply update_top_inv, E. }
  destruct Hr as (genesis & raw & top & Hr).
  exists genesis, raw, top. exact (proj1 (has_top_renamed _ _ _ _ _) Hr).
Qed.

Lemma fixed_keys_distinct : NoDup fixed_keys.
Proof. apply (bool_decide_unpack _). vm_compute. exact I. Qed.

Lemma set_alice_other (top : gmap string json) (key : string) :
  ~ In key fixed_keys -> set_alice top !! key = top !! key.
Proof.
  intros H. unfold set_alice. cbv zeta.
  rewrite !lookup_insert_ne; [reflexivity|..];
    intros <-; apply H; unfold fixed_keys; simpl; tauto.
Qed.

Lemma set_all_keeps (items : list (string * json)) (top : gmap string json)
    (key : string) :
  is_Some (top !! key) -> is_Some (set_all items top !! key).
Proof.
  revert top. induction items as [|[k v] items IH]; intros top H; [exact H|].
  apply IH. apply lookup_insert_is_Some'. now right.
Qed.

(** Away from the fixed keys the splice leaves in [top] what the
    assignments of the selected snapshot pairs have put there. *)
Lemma spliced_top_selected (alice : string) (prefixes : list string)
    (runtime_hex : string) (storage : list (string * json))
    (top : gmap string json) (key : string) :
  ~ In key fixed_keys ->
  spliced_top alice prefixes runtime_hex storage top !! key
  = set_all (selected prefixes storage) top !! key.
Proof.
  intros Hf. unfold spliced_top. cbv zeta.
  assert (H : (<[Staking_ForceEra := Str "0x02"]>
      (<[code_key := Str ("0x" +:+ trim runtime_hex)]>
         (delete System_LastRuntimeUpgrade
            (set_all (selected prefixes storage) top)))) !! key
      = set_all (selected prefixes storage) top !! key).
  { rewrite !lookup_insert_ne, lookup_delete_ne;
      try (intros <-; apply Hf; unfold fixed_keys; simpl; tauto).
    reflexivity. }
  destruct (negb (String.eqb alice "")); [|exact H].
  now rewrite set_alice_other.
Qed.

(** A key of [top] that is neither one of the fixed keys nor the key of a
    selected snapshot pair keeps its entry. *)
Lemma spliced_top_other (alice : string) (prefixes : list string)
    (runtime_hex : string) (storage : list (string * json))
    (top : gmap string json) (key : string) :
  ~ In key fixed_keys ->
  ~ In key (map fst (selected prefixes storage)) ->
  spliced_top alice prefixes runtime_hex storage top !! key = top !! key.
Proof.
  intros Hf Hs. rewrite spliced_top_selected by exact Hf.
  rewrite set_all_lookup, find_key_none; [reflexivity|].
  now rewrite map_rev, <- in_rev.
Qed.

Lemma fixed_key_neq (i j : nat) (a b : string) :
  i <> j -> fixed_keys !! i = Some a -> fixed_keys !! j = Some b -> a <> b.
Proof.
  intros Hij Ha Hb Heq. subst b. apply Hij.
  eapply NoDup_lookup; eauto. apply fixed_keys_distinct.
Qed.

(** The upgrade marker is gone after the splice. *)
Lemma spliced_top_deleted (alice : string) (prefixes : list string)
    (runtime_hex : string) (storage : list (string * json))
    (top : gmap string json) :
  spliced_top alice prefixes runtime_hex storage top
    !! System_LastRuntimeUpgrade = None.
Proof.
  unfold spliced_top. cbv zeta.
  assert (H : (<[Staking_ForceEra := Str "0x02"]>
      (<[code_key := Str ("0x" +:+ trim runtime_hex)]>
         (delete System_LastRuntimeUpgrade
            (set_all (selected prefixes storage) top))))
      !! System_LastRuntimeUpgrade = None).
  { rewrite lookup_insert_ne
      by (apply (fixed_key_neq 2 0); [lia|reflexivity|reflexivity]).
    rewrite lookup_insert_ne
      by (apply (fixed_key_neq 1 0); [lia|reflexivity|reflexivity]).
    apply lookup_delete_eq. }
  destruct (negb (String.eqb alice "")); [|exact H].
  unfold set_alice. cbv zeta.
  rewrite lookup_insert_ne
    by (apply (fixed_key_neq 7 0); [lia|reflexivity|reflexivity]).
  rewrite lookup_insert_ne
    by (apply (fixed_key_neq 6 0); [lia|reflexivity|reflexivity]).
  rewrite lookup_insert_ne
    by (apply (fixed_key_neq 5 0); [lia|reflexivity|reflexivity]).
  rewrite lookup_insert_ne
    by (apply (fixed_key_neq 4 0); [lia|reflexivity|reflexivity]).
  rewrite lookup_insert_ne
    by (apply (fixed_key_neq 3 0); [lia|reflexivity|reflexivity]).
  exact H.
Qed.

(** Every other key of [top] is still there after the splice. *)
Lemma spliced_top_keeps (alice : string) (prefixes : list string)
    (runtime_hex : string) (storage : list (string * json))
    (top : gmap string json) (key : string) :
  key <> System_LastRuntimeUpgrade ->
  is_Some (top !! key) ->
  is_Some (spliced_top alice prefixes runtime_hex storage top !! key).
Proof.
  intros Hk H. unfold spliced_top. cbv zeta.
  assert (H1 : is_Some ((<[Staking_ForceEra := Str "0x02"]>
      (<[code_key := Str ("0x" +:+ trim runtime_hex)]>
         (delete System_LastRuntimeUpgrade
            (set_all (selected prefixes storage) top)))) !! key)).
  { apply lookup_insert_is_Some'. right.
    apply lookup_insert_is_Some'. right.
    rewrite lookup_delete_ne by congruence. now apply set_all_keeps. }
  destruct (negb (String.eqb alice "")); [|exact H1].
  unfold set_alice. cbv zeta.
  do 5 (apply lookup_insert_is_Some'; right). exact H1.
Qed.

(** C8.  A splice that returns has changed, at the top level of the
    target document, only the fields [name], [id], [protocolId] and
    [genesis]; inside [genesis] only [raw], and inside [raw] only [top].
    In [top] an entry differs from before only at one of the eight fixed
    keys or at the key of a selected snapshot pair; the upgrade marker is
    absent afterwards and no other key of [top] is removed. *)
Theorem splice_frame (alice : string) (prefixes : list string)
    (runtime_hex : string) (storage : list (string * json))
    (originalSpec forkedSpec spec' : gmap string json) :
  main_splice alice prefixes runtime_hex storage originalSpec forkedSpec
  = Some spec' ->
  (forall field,
     ~ In field ["name"; "id"; "protocolId"; "genesis"] ->
     spec' !! field = forkedSpec !! field) /\
  spec' !! "name"
  = Some (Str (ToString (default Undefined (originalSpec !! "name"))
               +:+ "-fork")) /\
  spec' !! "id"
  = Some (Str (ToString (default Undefined (originalSpec !! "id"))
               +:+ "-fork")) /\
  spec' !! "protocolId"
  = Some (default Undefined (originalSpec !! "protocolId")) /\
  exists genesis raw top genesis' raw' top',
    has_top forkedSpec genesis raw top /\
    has_top spec' genesis' raw' top' /\
    (forall field, field <> "raw" -> genesis' !! field = genesis !! field) /\
    (forall field, field <> "top" -> raw' !! field = raw !! field) /\
    (forall key,
       ~ In key fixed_keys ->
       ~ In key (map fst (selected prefixes storage)) ->
       top' !! key = top !! key) /\
    top' !! System_LastRuntimeUpgrade = None /\
    (forall key,
       key <> System_LastRuntimeUpgrade ->
       is_Some (top !! key) -> is_Some (top' !! key)).
Proof.
  intros H.
  destruct (main_splice_inv _ _ _ _ _ _ _ H) as (genesis & raw & top & Ht).
  rewrite (main_splice_has_top _ _ _ _ _ _ _ _ _ Ht) in H.
  injection H as <-. unfold with_top, renamed.
  split; [|split; [|split; [|split]]].
  - intros field Hf.
    rewrite !lookup_insert_ne; [reflexivity|..];
      intros <-; apply Hf; simpl; tauto.
  - rewrite !lookup_insert_ne by discriminate. apply lookup_insert_eq.
  - rewrite !lookup_insert_ne by discriminate. apply lookup_insert_eq.
  - rewrite lookup_insert_ne by discriminate. apply lookup_insert_eq.
  - eexists genesis, raw, top, _, _, _. split; [exact Ht|].
    split; [repeat split; apply lookup_insert_eq|].
    split; [intros field Hf; now rewrite lookup_insert_ne|].
    split; [intros field Hf; now rewrite lookup_insert_ne|].
    split; [apply spliced_top_other|].
    split; [apply spliced_top_deleted|apply spliced_top_keeps].
Qed.

Lemma splice_frame_witness :
  let originalSpec : gmap string json :=
    {[ "name" := Str "main"; "id" := Str "main_id" ]} in
  let forkedSpec : gmap string json :=
    <["bootNodes" := Arr []]>
      {[ "genesis" :=
           Obj {[ "raw" := Obj {[ "top" := Obj {[ "0xdd" := Str "0x00" ]} ]} ]} ]}
  in
  let storage := [("0xAA01", Str "0x01"); ("0xBB01", Str "0x02")] in
  exists spec',
    main_splice "1" ["0xAA"] "00ff " storage originalSpec forkedSpec
    = Some spec' /\
    spec' !! "bootNodes" = Some (Arr []) /\
    spec' !! "name" = Some (Str "main-fork") /\
    spec' !! "protocolId" = Some Undefined.
Proof.
  intros originalSpec forkedSpec storage.
  assert (Ht : has_top forkedSpec
    {[ "raw" := Obj {[ "top" := Obj {[ "0xdd" := Str "0x00" ]} ]} ]}
    {[ "top" := Obj {[ "0xdd" := Str "0x00" ]} ]}
    {[ "0xdd" := Str "0x00" ]}).
  { unfold forkedSpec. repeat split; apply lookup_singleton_eq. }
  eexists. split; [apply (main_splice_has_top _ _ _ _ _ _ _ _ _ Ht)|].
  destruct (splice_frame "1" ["0xAA"] "00ff " storage originalSpec forkedSpec
              _ (main_splice_has_top _ _ _ _ _ _ _ _ _ Ht))
    as (Hother & Hname & _ & Hproto & _).
  split; [|split].
  - rewrite Hother.
    + unfold forkedSpec. apply lookup_insert_eq.
    + simpl. intros [H|[H|[H|[H|[]]]]]; discriminate.
  - rewrite Hname. unfold originalSpec.
    rewrite lookup_insert_eq. reflexivity.
  - rewrite Hproto. unfold originalSpec.
    rewrite lookup_insert_ne by discriminate.
    rewrite lookup_singleton_ne by discriminate. reflexivity.
Defined.

(** ** What the splice inserts *)

Lemma example_has_top :
  has_top {[ "genesis" := Obj {[ "raw" := Obj {[ "top" := Obj ∅ ]} ]} ]}
    {[ "raw" := Obj {[ "top" := Obj ∅ ]} ]} {[ "top" := Obj ∅ ]} ∅.
Proof. repeat split; apply lookup_singleton_eq. Qed.

(** C7 (amended).  Lines 126-128, run on a document whose
    [genesis.raw.top] is the object [top], leave there, for every key, the
    value of the last snapshot pair with that key among the pairs whose
    key starts with one of the prefixes, and the entry of [top] when
    there is no such pair: with distinct snapshot keys every selected
    pair is there as [top[key] = value], and a key that starts with no
    prefix, or that is not in the snapshot, keeps its entry.  The whole
    splice returns a [top] that agrees with this one away from the eight
    fixed keys.  For the snapshot [[["0xAA01","0x01"],["0xBB01","0x02"]]],
    the prefixes [["0xAA"]] and an empty [top], lines 126-128 give the
    [top] with the one entry ["0xAA01"] to ["0x01"], and the whole splice
    without [ALICE] gives that entry, the runtime code and the
    [ForceEra] entry. *)
Theorem splice_inserts_selected (prefixes : list string)
    (storage : list (string * json)) (forkedSpec top : gmap string json) :
  top_of forkedSpec = Some top ->
  (exists spec' top',
     insert_storage prefixes storage forkedSpec = Some spec' /\
     top_of spec' = Some top' /\
     (forall key,
        top' !! key =
        match List.find (fun i => String.eqb (fst i) key)
                        (rev (selected prefixes storage)) with
        | Some i => Some (snd i)
        | None => top !! key
        end) /\
     (forall key value,
        NoDup (map fst storage) -> In (key, value) storage ->
        some_prefix prefixes key = true -> top' !! key = Some value) /\
     (forall key,
        some_prefix prefixes key = false -> top' !! key = top !! key) /\
     (forall key, ~ In key (map fst storage) -> top' !! key = top !! key)) /\
  (forall alice runtime_hex originalSpec,
   exists spec' top',
     main_splice alice prefixes runtime_hex storage originalSpec forkedSpec
     = Some spec' /\
     top_of spec' = Some top' /\
     forall key,
       ~ In key fixed_keys ->
       top' !! key =
       match List.find (fun i => String.eqb (fst i) key)
                       (rev (selected prefixes storage)) with
       | Some i => Some (snd i)
       | None => top !! key
       end) /\
  (exists spec',
     insert_storage ["0xAA"]
       [("0xAA01", Str "0x01"); ("0xBB01", Str "0x02")]
       {[ "genesis" := Obj {[ "raw" := Obj {[ "top" := Obj ∅ ]} ]} ]}
     = Some spec' /\
     top_of spec' = Some {[ "0xAA01" := Str "0x01" ]}) /\
  (forall runtime_hex originalSpec,
   exists spec',
     main_splice "" ["0xAA"] runtime_hex
       [("0xAA01", Str "0x01"); ("0xBB01", Str "0x02")] originalSpec
       {[ "genesis" := Obj {[ "raw" := Obj {[ "top" := Obj ∅ ]} ]} ]}
     = Some spec' /\
     top_of spec'
     = Some (<[Staking_ForceEra := Str "0x02"]>
               (<[code_key := Str ("0x" +:+ trim runtime_hex)]>
                  {[ "0xAA01" := Str "0x01" ]}))).
Proof.
  intros Ht. split; [now apply insert_storage_spec|]. split; [|split].
  - intros alice runtime_hex originalSpec.
    apply top_of_inv in Ht as (genesis & raw & Ht).
    eexists _, _. split; [apply (main_splice_has_top _ _ _ _ _ _ _ _ _ Ht)|].
    split; [apply top_of_with_top|].
    intros key Hk. rewrite spliced_top_selected by exact Hk.
    apply set_all_lookup.
  - destruct (insert_storage_has_top ["0xAA"]
                [("0xAA01", Str "0x01"); ("0xBB01", Str "0x02")] _ _ _ _
                example_has_top) as (spec' & Hs & Htop & _).
    exists spec'. split; [exact Hs|]. rewrite Htop. reflexivity.
  - intros runtime_hex originalSpec. eexists.
    split; [apply (main_splice_has_top _ _ _ _ _ _ _ _ _ example_has_top)|].
    rewrite top_of_with_top. unfold spliced_top. cbv zeta.
    change (set_all (selected ["0xAA"] _) ∅)
      with (<["0xAA01" := Str "0x01"]> (∅ : gmap string json)).
    rewrite insert_empty, delete_id; [reflexivity|].
    apply lookup_singleton_ne. discriminate.
Qed.

Lemma splice_inserts_selected_witness :
  let spec : gmap string json :=
    {[ "genesis" := Obj {[ "raw" := Obj {[ "top" := Obj ∅ ]} ]} ]} in
  let storage := [("0xAA01", Str "0x01"); ("0xBB01", Str "0x02")] in
  exists spec' top',
    insert_storage ["0xAA"] storage spec = Some spec' /\
    top_of spec' = Some top' /\
    top' !! "0xAA01" = Some (Str "0x01") /\
    top' !! "0xBB01" = None.
Proof.
  intros spec storage.
  destruct (splice_inserts_selected ["0xAA"] storage spec ∅)
    as [(spec' & top' & Hs & Ht & _ & Hin & Hout & _) _].
  - unfold top_of, spec. now rewrite !lookup_singleton_eq.
  - exists spec', top'. split; [exact Hs|]. split; [exact Ht|]. split.
    + apply Hin; [|now left|reflexivity].
      repeat constructor; simpl; intros H; inversion H; subst;
        try discriminate; match goal with H : _ ∈ _ |- _ => inversion H end.
    + rewrite Hout by reflexivity. apply lookup_empty.
Defined.

(** C7 as stated fails for the result of the splice: on the example the
    [top] of the document returned holds the runtime code as well, so it
    is not the [top] with the one entry ["0xAA01"]. *)
Lemma splice_result_counterexample :
  exists spec',
    main_splice "" ["0xAA"] "00"
      [("0xAA01", Str "0x01"); ("0xBB01", Str "0x02")] ∅
      {[ "genesis" := Obj {[ "raw" := Obj {[ "top" := Obj ∅ ]} ]} ]}
    = Some spec' /\
    (exists top', top_of spec' = Some top' /\
                  top' !! code_key = Some (Str "0x00")) /\
    top_of spec' <> Some {[ "0xAA01" := Str "0x01" ]}.
Proof.
  eexists.
  split; [apply (main_splice_has_top _ _ _ _ _ _ _ _ _ example_has_top)|].
  rewrite top_of_with_top.
  assert (H : spliced_top "" ["0xAA"] "00"
                [("0xAA01", Str "0x01"); ("0xBB01", Str "0x02")] ∅
              !! code_key = Some (Str "0x00")).
  { unfold spliced_top. cbv zeta.
    change (negb (String.eqb "" "")) with false. cbv iota.
    rewrite lookup_insert_ne by discriminate. apply lookup_insert_eq. }
  split; [eauto|].
  intros Heq.
  apply (f_equal (fun o : option (gmap string json) =>
                    match o with
                    | Some m => m !! code_key
                    | None => None
                    end)) in Heq.
  cbv beta iota in Heq. rewrite H in Heq.
  rewrite lookup_singleton_ne in Heq by discriminate. discriminate.
Qed.

(** * Further properties of the fetch *)

(** ** A chunk is fetched whole *)

Lemma batches_page_events_eq (node : Endpoint) (keys : list string)
    (at_ : string) :
  batches (page_events node keys at_) = page_batches node keys at_.
Proof.
  unfold page_events, page_batches. destruct (0 <? length keys);
    [apply batches_store_page|reflexivity].
Qed.

Lemma flat_map_seq_S {B : Type} (f : nat -> list B) (m : nat) :
  flat_map f (seq 0 (S m)) = f 0 ++ flat_map (fun i => f (S i)) (seq 0 m).
Proof.
  rewrite <- cons_seq, flat_map_cons_eq. f_equal.
  rewrite <- seq_shift. generalize (seq 0 m). intros l.
  induction l as [|i l IH]; [reflexivity|].
  rewrite map_cons, !flat_map_cons_eq. now rewrite IH.
Qed.

Section Whole.

Variable node : Endpoint.
Variables prefix at_ : string.

Let pages (j : nat) : list string := nth_page node prefix at_ j.

(** The batches of the loop entered with page [j] in hand, when [m] more
    full pages follow before one that is not full. *)
Lemma batches_while_pages (m : nat) :
  forall fuel j,
    (forall i, i < m -> length (pages (j + i)) = page) ->
    length (pages (j + m)) <> page ->
    m <= fuel ->
    outcome node
      (while_full_page fuel prefix at_ (pages j) (length (pages j)))
    = Some tt /\
    batches (events node
      (while_full_page fuel prefix at_ (pages j) (length (pages j))))
    = flat_map (fun i => page_batches node (pages (j + S i)) at_) (seq 0 m).
Proof.
  induction m as [|m IH]; intros fuel j Hfull Hshort Hfuel.
  - rewrite Nat.add_0_r in Hshort.
    rewrite while_full_page_stop by exact Hshort. auto.
  - destruct fuel as [|fuel]; [lia|].
    assert (H0 : length (pages j) = page)
      by (rewrite <- (Hfull 0) by lia; now rewrite Nat.add_0_r).
    rewrite H0.
    assert (Hnext : state_getKeysPaged node prefix page
                      (pages j !! (page - 1)) at_ = pages (S j)).
    { unfold pages at 2. simpl. fold (pages j). now rewrite H0. }
    rewrite outcome_while_step, events_while_step. cbv zeta.
    rewrite Hnext.
    destruct (IH fuel (S j)) as [Ho He].
    + intros i Hi. replace (S j + i) with (j + S i) by lia.
      apply Hfull. lia.
    + now replace (S j + m) with (j + S m) by lia.
    + lia.
    + split; [exact Ho|].
      rewrite !batches_app, batches_page_events_eq, He, flat_map_seq_S.
      replace (j + 1) with (S j) by lia. cbn [batches flat_map app].
      f_equal. apply flat_map_ext. intros i.
      now replace (S j + S i) with (j + S (S i)) by lia.
Qed.

(** The batches of a base case: one per non-empty page, in page order. *)
Lemma batches_base_pages (fuel m : nat) :
  (forall j, j < m -> length (pages j) = page) ->
  length (pages m) <> page ->
  m <= fuel ->
  outcome node (fetchChunks_base fuel prefix at_) = Some tt /\
  batches (events node (fetchChunks_base fuel prefix at_))
  = flat_map (fun j => page_batches node (pages j) at_) (seq 0 (S m)).
Proof.
  intros Hfull Hshort Hfuel.
  destruct (batches_while_pages m fuel 0) as [Ho He]; auto.
  change (pages 0) with (state_getKeysPaged node prefix page None at_)
    in Ho, He.
  rewrite outcome_base, events_base. cbv zeta. rewrite Ho.
  split; [reflexivity|].
  set (keys := state_getKeysPaged node prefix page None at_) in *.
  assert (Hfirst :
    batches (if 0 <? length keys
             then [add_total_keys_count (length keys); log_keys_fetched]
                  ++ events node (store_page keys at_)
             else []) = page_batches node keys at_).
  { unfold page_batches. destruct (0 <? length keys); [|reflexivity].
    now rewrite batches_app, batches_store_page. }
  rewrite !batches_app, Hfirst, He, flat_map_seq_S.
  change (pages 0) with keys. cbn [batches flat_map app].
  now rewrite app_nil_r.
Qed.

End Whole.

Lemma make_pairs_keys (keys : list string) (values : list jsval) :
  map fst (make_pairs keys values) = keys.
Proof.
  unfold make_pairs. rewrite map_map. cbn [fst].
  apply nth_ext with (d := "") (d' := "").
  - now rewrite length_map, length_seq.
  - intros i Hi. rewrite length_map, length_seq in Hi.
    rewrite (nth_indep _ "" ((fun i => nth i keys "") 0))
      by now rewrite length_map, length_seq.
    rewrite (map_nth (fun i => nth i keys "")), seq_nth by exact Hi.
    reflexivity.
Qed.

Lemma make_pairs_map (val : string -> jsval) (keys : list string) :
  make_pairs keys (map val keys) = map (fun k => (k, val k)) keys.
Proof.
  apply nth_ext with (d := ("", JUndefined)) (d' := ("", val "")).
  - now rewrite make_pairs_length, length_map.
  - intros i Hi. rewrite make_pairs_length in Hi.
    destruct (lookup_lt_is_Some_2 keys i Hi) as [k Hk].
    rewrite (nth_lookup_Some _ _ _ _ (make_pairs_lookup _ _ _ _ Hk)).
    rewrite (map_nth (fun k => (k, val k))).
    rewrite (nth_lookup_Some _ _ _ _ Hk).
    change (map val keys) with (val <$> keys).
    now rewrite list_lookup_fmap, Hk.
Qed.

Lemma concat_page_batches (node : Endpoint) (keys : list string)
    (at_ : string) :
  concat (page_batches node keys at_)
  = make_pairs keys (state_queryStorageAt node keys at_).
Proof.
  unfold page_batches. destruct keys as [|k keys]; [reflexivity|].
  simpl Nat.ltb. cbn [concat]. apply app_nil_r.
Qed.

Lemma page_batches_nonempty (node : Endpoint) (keys : list string)
    (at_ : string) :
  Forall (fun b => b <> []) (page_batches node keys at_).
Proof.
  rewrite <- batches_page_events_eq. apply batches_page_events.
Qed.

(** Cutting a list into pieces of [n] and joining the first pieces. *)
Lemma pieces_concat {A : Type} (n : nat) (l : list A) (m : nat) :
  flat_map (fun j => firstn n (skipn (j * n) l)) (seq 0 m) = firstn (m * n) l.
Proof.
  induction m as [|m IH]; [reflexivity|].
  rewrite seq_S, flat_map_app, IH. cbn [flat_map]. rewrite app_nil_r.
  rewrite take_take_drop. f_equal. rewrite Nat.mul_succ_l. lia.
Qed.

Section Serves.

Variable node : Endpoint.
Variables prefix at_ : string.
Variable ks : list string.
Hypothesis Hserves : serves node prefix at_ ks.

(** Page [j] of the loop is the [j]-th piece of [ks]. *)
Lemma serves_nth_page (j : nat) :
  j * page <= length ks ->
  nth_page node prefix at_ j = firstn page (skipn (j * page) ks).
Proof.
  destruct Hserves as [H0 Hnext]. pose proof page_pos as Hpos.
  induction j as [|j IH]; intros Hj; [exact H0|].
  assert (Hj' : j * page + page <= length ks)
    by (rewrite Nat.mul_succ_l in Hj; lia).
  cbn [nth_page]. rewrite IH by lia.
  assert (Hlen : length (firstn page (skipn (j * page) ks)) = page)
    by (rewrite length_take, length_drop; lia).
  rewrite Hlen.
  destruct (lookup_lt_is_Some_2 ks (j * page + (page - 1))) as [k Hk];
    [lia|].
  assert (Hlast : firstn page (skipn (j * page) ks) !! (page - 1) = Some k).
  { rewrite lookup_take_lt by lia. now rewrite lookup_drop. }
  rewrite Hlast, (Hnext _ _ Hk). do 2 f_equal. rewrite Nat.mul_succ_l. lia.
Qed.

Lemma serves_full_pages (j : nat) :
  j < length ks / page -> length (nth_page node prefix at_ j) = page.
Proof.
  intros Hj. pose proof page_pos as Hpos.
  assert (H : S j * page <= length ks).
  { transitivity (length ks / page * page); [apply Nat.mul_le_mono_r; lia|].
    rewrite Nat.mul_comm. apply Nat.Div0.mul_div_le. }
  rewrite Nat.mul_succ_l in H.
  rewrite serves_nth_page by lia.
  rewrite length_take, length_drop. lia.
Qed.

Lemma serves_last_page :
  length (nth_page node prefix at_ (length ks / page)) = length ks mod page.
Proof.
  pose proof page_pos as Hpos.
  pose proof (Nat.div_mod_eq (length ks) page) as Hdm.
  pose proof (Nat.mod_upper_bound (length ks) page ltac:(lia)) as Hm.
  rewrite serves_nth_page by lia.
  rewrite length_take, length_drop. lia.
Qed.

Lemma serves_pages_concat :
  flat_map (nth_page node prefix at_) (seq 0 (S (length ks / page))) = ks.
Proof.
  pose proof page_pos as Hpos.
  pose proof (Nat.div_mod_eq (length ks) page) as Hdm.
  pose proof (Nat.mod_upper_bound (length ks) page ltac:(lia)) as Hm.
  rewrite flat_map_concat_map.
  rewrite (map_ext_in _ (fun j => firstn page (skipn (j * page) ks))).
  - rewrite <- flat_map_concat_map, pieces_concat. apply firstn_all2.
    rewrite Nat.mul_succ_l. lia.
  - intros j Hj. apply in_seq in Hj. apply serves_nth_page.
    transitivity (length ks / page * page); [apply Nat.mul_le_mono_r; lia|].
    lia.
Qed.

End Serves.

(** ** Keys in order *)

Lemma ltb_trans (a b c : string) :
  String.ltb a b = true -> String.ltb b c = true -> String.ltb a c = true.
Proof.
  unfold String.ltb. intros H1 H2.
  destruct (String.compare a b) eqn:E1; try discriminate.
  destruct (String.compare b c) eqn:E2; try discriminate.
  apply (proj1 (OrderedTypeEx.String_as_OT.cmp_lt _ _)) in E1, E2.
  pose proof (OrderedTypeEx.String_as_OT.lt_trans _ _ _ E1 E2) as H.
  apply (proj2 (OrderedTypeEx.String_as_OT.cmp_lt _ _)) in H.
  unfold OrderedTypeEx.String_as_OT.cmp in H. now rewrite H.
Qed.

Lemma ltb_irrefl (a : string) : String.ltb a a = false.
Proof.
  unfold String.ltb.
  pose proof (String.compare_antisym a a) as H.
  destruct (String.compare a a); try reflexivity; discriminate.
Qed.

Lemma ltb_asym (a b : string) :
  String.ltb a b = true -> String.ltb b a = false.
Proof.
  intros H. destruct (String.ltb b a) eqn:E; [|reflexivity].
  pose proof (ltb_trans _ _ _ H E) as H'. now rewrite ltb_irrefl in H'.
Qed.

Lemma increasing_cons (a : string) (l : list string) :
  increasing (a :: l) = true <->
  Forall (fun b => String.ltb a b = true) l /\ increasing l = true.
Proof.
  revert a. induction l as [|b l IH]; intros a.
  - split; [intros _; split; [constructor | reflexivity] | reflexivity].
  - change (increasing (a :: b :: l))
      with (String.ltb a b && increasing (b :: l)).
    rewrite andb_true_iff. split.
    + intros [Hab Hl]. split; [|exact Hl]. constructor; [exact Hab|].
      apply (proj1 (IH b)) in Hl. destruct Hl as [Hl _].
      eapply List.Forall_impl; [|exact Hl]. intros c Hc. cbv beta in *.
      eapply ltb_trans; eassumption.
    + intros [Hall Hl]. split; [|exact Hl]. now inversion Hall.
Qed.

Lemma increasing_filter (f : string -> bool) (l : list string) :
  increasing l = true -> increasing (List.filter f l) = true.
Proof.
  induction l as [|a l IH]; [reflexivity|].
  intros H. apply increasing_cons in H. destruct H as [Hall Hl].
  cbn [List.filter]. destruct (f a); [|now apply IH].
  apply increasing_cons. split; [|now apply IH].
  apply List.Forall_forall. intros b Hb. apply filter_In in Hb.
  exact (proj1 (List.Forall_forall _ _) Hall b (proj1 Hb)).
Qed.

(** In an increasing list the keys after a cursor are the keys behind its
    position. *)
Lemma increasing_after (l : list string) :
  increasing l = true ->
  forall i c, l !! i = Some c ->
    List.filter (fun k => String.ltb c k) l = skipn (S i) l.
Proof.
  induction l as [|a l IH]; intros H i c Hc; [discriminate|].
  apply increasing_cons in H. destruct H as [Hall Hl].
  cbn [List.filter]. destruct i as [|i].
  - injection Hc as <-. rewrite ltb_irrefl. cbn [skipn].
    apply forallb_filter_id, forallb_forall. intros b Hb.
    exact (proj1 (List.Forall_forall _ _) Hall b Hb).
  - cbn [lookup list_lookup] in Hc.
    assert (Hac : String.ltb a c = true).
    { apply (proj1 (List.Forall_forall _ _) Hall).
      apply list_elem_of_In. eapply list_elem_of_lookup_2. exact Hc. }
    rewrite (ltb_asym _ _ Hac). exact (IH Hl i c Hc).
Qed.

Lemma filter_filter_and {A : Type} (f g : A -> bool) (l : list A) :
  List.filter (fun x => f x && g x) l = List.filter g (List.filter f l).
Proof.
  induction l as [|a l IH]; [reflexivity|].
  cbn [List.filter]. destruct (f a); cbn [andb List.filter];
    [destruct (g a)|]; now rewrite IH.
Qed.

(** A node that lists its keys in increasing order pages through the keys
    under every prefix. *)
Lemma db_node_serves (head : string) (db : list (string * jsval))
    (prefix at_ : string) :
  increasing (map fst db) = true ->
  serves (db_node head db) prefix at_
    (List.filter (fun k => startsWith k prefix) (map fst db)).
Proof.
  intros Hinc. split.
  - cbn [state_getKeysPaged db_node]. f_equal.
    apply filter_ext. intros k. cbn [after]. apply andb_true_r.
  - intros i k Hk. cbn [state_getKeysPaged db_node]. f_equal.
    rewrite filter_filter_and. cbn [after].
    apply increasing_after; [|exact Hk].
    now apply increasing_filter.
Qed.

(** ** What a chunk writes *)

Lemma concat_pages_batches (node : Endpoint) (at_ : string)
    (pages : nat -> list string) (l : list nat) :
  concat (flat_map (fun j => page_batches node (pages j) at_) l)
  = flat_map (fun j => make_pairs (pages j)
                         (state_queryStorageAt node (pages j) at_)) l.
Proof.
  induction l as [|j l IH]; [reflexivity|].
  rewrite !flat_map_cons_eq, concat_app, IH. f_equal.
  apply concat_page_batches.
Qed.

Lemma map_fst_pages (node : Endpoint) (at_ : string)
    (pages : nat -> list string) (l : list nat) :
  map fst (flat_map (fun j => make_pairs (pages j)
                                (state_queryStorageAt node (pages j) at_)) l)
  = flat_map pages l.
Proof.
  induction l as [|j l IH]; [reflexivity|].
  rewrite !flat_map_cons_eq, map_app, IH. f_equal. apply make_pairs_keys.
Qed.

Lemma length_full_pages_batches (node : Endpoint) (at_ : string)
    (pages : nat -> list string) (m : nat) :
  (forall j, j < m -> length (pages j) = page) ->
  length (flat_map (fun j => page_batches node (pages j) at_) (seq 0 m)) = m.
Proof.
  induction m as [|m IH]; intros Hfull; [reflexivity|].
  rewrite seq_S, flat_map_app, length_app, IH by (intros; apply Hfull; lia).
  cbn [flat_map]. rewrite app_nil_r, Nat.add_0_l. unfold page_batches.
  rewrite (Hfull m) by lia. simpl. lia.
Qed.

Lemma ceil_div_pages (m r : nat) :
  r < page ->
  ceil_div (m * page + r) page = m + (if r =? 0 then 0 else 1).
Proof.
  intros Hr. pose proof page_pos as Hpos. unfold ceil_div.
  destruct r as [|r]; cbn [Nat.eqb].
  - replace (m * page + 0 + page - 1) with (m * page + (page - 1)) by lia.
    rewrite Nat.div_add_l by lia. rewrite Nat.div_small by lia. lia.
  - replace (m * page + S r + page - 1) with ((m + 1) * page + r) by lia.
    rewrite Nat.div_add_l by lia. rewrite Nat.div_small by lia. lia.
Qed.

(** The batches a chunk writes when the node pages through [ks]. *)
Lemma served_chunk_batches (node : Endpoint) (prefix at_ : string)
    (ks : list string) (fuel : nat) :
  serves node prefix at_ ks ->
  length ks / page <= fuel ->
  let bs := batches (events node (fetchChunks_base fuel prefix at_)) in
  outcome node (fetchChunks_base fuel prefix at_) = Some tt /\
  length bs = ceil_div (length ks) page /\
  map fst (concat bs) = ks /\
  (forall val,
     (forall keys, state_queryStorageAt node keys at_ = map val keys) ->
     concat bs = map (fun k => (k, val k)) ks).
Proof.
  intros Hs Hfuel bs. pose proof page_pos as Hpos.
  pose proof (Nat.mod_upper_bound (length ks) page ltac:(lia)) as Hr.
  pose proof (Nat.div_mod_eq (length ks) page) as Hdm.
  set (m := length ks / page) in *.
  assert (Hfull : forall j, j < m -> length (nth_page node prefix at_ j) = page)
    by (intros j Hj; now apply (serves_full_pages node prefix at_ ks Hs)).
  pose proof (serves_last_page node prefix at_ ks Hs) as Hlast.
  fold m in Hlast.
  destruct (batches_base_pages node prefix at_ fuel m Hfull) as [Hout Hbs];
    [lia | exact Hfuel |].
  fold bs in Hbs. split; [exact Hout|].
  assert (Hcat : concat bs
    = flat_map (fun j => make_pairs (nth_page node prefix at_ j)
                 (state_queryStorageAt node (nth_page node prefix at_ j) at_))
               (seq 0 (S m)))
    by (rewrite Hbs; apply concat_pages_batches).
  split; [|split].
  - rewrite Hbs, seq_S, flat_map_app, length_app.
    rewrite length_full_pages_batches by exact Hfull.
    cbn [flat_map]. rewrite app_nil_r. unfold page_batches.
    rewrite Nat.add_0_l, Hlast.
    replace (length ks) with (m * page + length ks mod page) at 2 by lia.
    rewrite ceil_div_pages by exact Hr.
    destruct (length ks mod page); reflexivity.
  - rewrite Hcat, map_fst_pages.
    apply (serves_pages_concat node prefix at_ ks Hs).
  - intros val Hval. rewrite Hcat.
    rewrite (flat_map_ext _ (fun j => map (fun k => (k, val k))
                                        (nth_page node prefix at_ j))).
    + pose proof (serves_pages_concat node prefix at_ ks Hs) as Hc.
      fold m in Hc. rewrite <- Hc. generalize (seq 0 (S m)). intros l.
      induction l as [|j l IH]; [reflexivity|].
      rewrite !flat_map_cons_eq, map_app. now rewrite IH.
    + intros j. rewrite Hval. apply make_pairs_map.
Qed.

(** X1.  A chunk is fetched whole.  When the node pages through the keys
    [ks] under [prefix] (the first page holds the first 512 keys, a page
    asked for with a cursor holds the next 512 keys behind it), the base
    case of [fetchChunks] returns after [length ks / 512] turns of its
    loop, and what it appends to the file are [ceil(length ks / 512)]
    non-empty batches whose keys are exactly [ks], each once and in the
    node's order; when the bulk lookup answers key by key, the entries are
    the keys with their values. *)
Theorem chunk_is_fetched_whole (node : Endpoint) (prefix at_ : string)
    (ks : list string) (fuel : nat) (w : world) (text : string) :
  serves node prefix at_ ks ->
  length ks / page <= fuel ->
  storage_json w = Some text ->
  exists w' bs,
    run node (fetchChunks_base fuel prefix at_) w = Some (tt, w') /\
    storage_json w' = Some (text +:+ written_text (separator w) bs) /\
    Forall (fun b => b <> []) bs /\
    length bs = ceil_div (length ks) page /\
    map fst (concat bs) = ks /\
    (forall val,
       (forall keys, state_queryStorageAt node keys at_ = map val keys) ->
       concat bs = map (fun k => (k, val k)) ks).
Proof.
  intros Hs Hfuel Htext.
  destruct (served_chunk_batches node prefix at_ ks fuel Hs Hfuel)
    as (Hout & Hlen & Hkeys & Hval).
  exists (perform_all (events node (fetchChunks_base fuel prefix at_)) w),
         (batches (events node (fetchChunks_base fuel prefix at_))).
  split; [now rewrite run_trace, Hout|].
  split; [exact (proj1 (stream_perform_all _ _ _ Htext))|].
  split; [apply batches_base|].
  repeat split; assumption.
Qed.

Lemma chunk_is_fetched_whole_witness :
  let node := db_node "0xf1" (numbered_db 600) in
  let w := stream_write "[" (initial None) in
  exists w' bs,
    run node (fetchChunks_base 1 "0x" "0xf1") w = Some (tt, w') /\
    storage_json w' = Some ("[" +:+ written_text (separator w) bs) /\
    Forall (fun b => b <> []) bs /\
    length bs = ceil_div (length (numbered_keys 600)) page /\
    map fst (concat bs) = numbered_keys 600 /\
    (forall val,
       (forall keys, state_queryStorageAt node keys "0xf1" = map val keys) ->
       concat bs = map (fun k => (k, val k)) (numbered_keys 600)).
Proof.
  intros node w.
  apply (chunk_is_fetched_whole node "0x" "0xf1" (numbered_keys 600) 1 w "[").
  - replace (numbered_keys 600)
      with (List.filter (fun k => startsWith k "0x")
                        (map fst (numbered_db 600)))
      by (vm_compute; reflexivity).
    apply db_node_serves. vm_compute. reflexivity.
  - vm_compute. lia.
  - reflexivity.
Defined.

(** ** The whole snapshot *)

Lemma main_fetch_phase_total (node : Endpoint) (QUICK_MODE : bool)
    (arrivals : string -> list nat) (fuel : nat)
    (FORK_CHUNKS_LEVEL : option nat) (w : world) :
  Forall (fun p =>
            outcome node
              (fetchChunks_base fuel p (chain_getFinalizedHead node))
            = Some tt)
         (leaf_prefixes "0x" (chunksLevel FORK_CHUNKS_LEVEL)) ->
  exists w',
    main_fetch_phase node QUICK_MODE arrivals fuel FORK_CHUNKS_LEVEL w
    = Some w'.
Proof.
  intros HF. unfold main_fetch_phase.
  destruct (bool_decide (is_Some (storage_json w))); [eauto|].
  match goal with
  | |- context [fetchChunks _ _ _ _ _ _ _ ?w0] => set (w1 := w0)
  end.
  destruct (fetchChunks_total node QUICK_MODE arrivals fuel _ _ "0x" w1 HF)
    as [w2 ->].
  eauto.
Qed.

Lemma batches_flat_map {A : Type} (f : A -> list effect) (l : list A) :
  concat (batches (flat_map f l))
  = flat_map (fun a => concat (batches (f a))) l.
Proof.
  induction l as [|a l IH]; [reflexivity|].
  rewrite !flat_map_cons_eq, batches_app, concat_app. now rewrite IH.
Qed.

(** The entries written by the base cases of the prefixes [l], one after
    the other, when the node pages through [chain p] under each. *)
Lemma served_leaves_pairs (node : Endpoint) (fuel : nat) (at_ : string)
    (chain : string -> list string) (l : list string) :
  (forall p, In p l ->
     serves node p at_ (chain p) /\ length (chain p) / page <= fuel) ->
  let pairs :=
    concat (batches (flat_map (fun p => events node
                                          (fetchChunks_base fuel p at_)) l)) in
  map fst pairs = flat_map chain l /\
  (forall val,
     (forall keys, state_queryStorageAt node keys at_ = map val keys) ->
     pairs = map (fun k => (k, val k)) (flat_map chain l)).
Proof.
  intros H pairs. subst pairs. rewrite batches_flat_map.
  induction l as [|p l IH]; [split; [reflexivity | intros; reflexivity]|].
  destruct (H p (or_introl eq_refl)) as [Hs Hfuel].
  destruct (served_chunk_batches node p at_ (chain p) fuel Hs Hfuel)
    as (_ & _ & Hkeys & Hval).
  destruct IH as [IHk IHv]; [intros q Hq; apply H; now right|].
  rewrite !flat_map_cons_eq. split.
  - rewrite map_app. now rewrite Hkeys, IHk.
  - intros val Hc. rewrite map_app. now rewrite (Hval val Hc), (IHv val Hc).
Qed.

(** X2.  The snapshot is complete.  When, at the finalized head, the node
    pages through the keys [chain p] under every leaf prefix [p] of the
    partition, the fetch phase returns and the file it leaves is the JSON
    array of all those keys with their values: in the order of the leaf
    prefixes when the chunks are awaited one by one, and a rearrangement of
    it under [QUICK_MODE]. *)
Theorem fetch_phase_is_complete (node : Endpoint) (QUICK_MODE : bool)
    (arrivals : string -> list nat) (fuel : nat)
    (FORK_CHUNKS_LEVEL : option nat) (w : world)
    (chain : string -> list string) :
  storage_json w = None -> separator w = false ->
  (forall p, In p (leaf_prefixes "0x" (chunksLevel FORK_CHUNKS_LEVEL)) ->
     serves node p (chain_getFinalizedHead node) (chain p) /\
     length (chain p) / page <= fuel) ->
  let all_keys :=
    flat_map chain (leaf_prefixes "0x" (chunksLevel FORK_CHUNKS_LEVEL)) in
  exists w' pairs,
    main_fetch_phase node QUICK_MODE arrivals fuel FORK_CHUNKS_LEVEL w
    = Some w' /\
    storage_json w' = Some (JSON_stringify pairs) /\
    map fst pairs ≡ₚ all_keys /\
    (QUICK_MODE = false -> map fst pairs = all_keys) /\
    (forall val,
       (forall keys,
          state_queryStorageAt node keys (chain_getFinalizedHead node)
          = map val keys) ->
       pairs ≡ₚ map (fun k => (k, val k)) all_keys /\
       (QUICK_MODE = false -> pairs = map (fun k => (k, val k)) all_keys)).
Proof.
  intros Hfile Hsep Hserved all_keys.
  destruct (main_fetch_phase_total node QUICK_MODE arrivals fuel
              FORK_CHUNKS_LEVEL w) as [w' Hrun].
  { apply List.Forall_forall. intros p Hp.
    destruct (Hserved p Hp) as [Hs Hfuel].
    exact (proj1 (served_chunk_batches node p _ (chain p) fuel Hs Hfuel)). }
  destruct (main_fetch_phase_trace _ _ _ _ _ _ _ Hfile Hsep Hrun)
    as (es & Hp & Hx & Hs & _).
  destruct (served_leaves_pairs node fuel (chain_getFinalizedHead node) chain
              _ Hserved) as [Hkeys Hval].
  fold (leaf_events node fuel "0x" (chunksLevel FORK_CHUNKS_LEVEL)
          (chain_getFinalizedHead node)) in Hkeys, Hval.
  fold all_keys in Hkeys, Hval.
  assert (Hperm : concat (batches es)
            ≡ₚ concat (batches (leaf_events node fuel "0x"
                                  (chunksLevel FORK_CHUNKS_LEVEL)
                                  (chain_getFinalizedHead node))))
    by (apply concat_Permutation, batches_Permutation, Hp).
  exists w', (concat (batches es)).
  split; [exact Hrun|]. split.
  { rewrite Hs, snapshot_text; [reflexivity|].
    eapply Permutation_Forall;
      [symmetry; apply batches_Permutation, Hp | apply batches_leaf_events]. }
  split; [now rewrite Hperm, Hkeys|].
  split; [intros Hq; now rewrite (Hx Hq), Hkeys|].
  intros val Hc. split.
  - now rewrite Hperm, (Hval val Hc).
  - intros Hq. now rewrite (Hx Hq), (Hval val Hc).
Qed.

Lemma fetch_phase_is_complete_witness :
  let node := db_node "0xf1" (numbered_db 600) in
  let chain := fun p => List.filter (fun k => startsWith k p)
                                    (map fst (numbered_db 600)) in
  let all_keys := flat_map chain (leaf_prefixes "0x" 1) in
  exists w' pairs,
    main_fetch_phase node true (fun _ => [3; 1; 4]) 2 None (initial None)
    = Some w' /\
    storage_json w' = Some (JSON_stringify pairs) /\
    map fst pairs ≡ₚ all_keys /\
    (true = false -> map fst pairs = all_keys) /\
    (forall val,
       (forall keys, state_queryStorageAt node keys "0xf1" = map val keys) ->
       pairs ≡ₚ map (fun k => (k, val k)) all_keys /\
       (true = false -> pairs = map (fun k => (k, val k)) all_keys)).
Proof.
  intros node chain all_keys.
  apply (fetch_phase_is_complete node true (fun _ => [3; 1; 4]) 2 None
           (initial None) chain).
  - reflexivity.
  - reflexivity.
  - intros p _. split.
    + apply db_node_serves. vm_compute. reflexivity.
    + apply Nat.Div0.div_le_upper_bound.
      transitivity (length (map fst (numbered_db 600)));
        [apply filter_length_le|].
      unfold numbered_db, numbered_keys.
      rewrite !length_map, length_seq. unfold page. lia.
Defined.

(** ** The order of the snapshot *)

Lemma compare_app_lt (p q a b : string) :
  String.length p = String.length q ->
  String.compare p q = Lt ->
  String.compare (p +:+ a) (q +:+ b) = Lt.
Proof.
  revert q. induction p as [|x p IH]; intros [|y q] Hlen H;
    try discriminate.
  rewrite !app_String. cbn [String.compare] in *.
  destruct (Ascii.compare x y); try discriminate; [|reflexivity].
  apply IH; [now injection Hlen | exact H].
Qed.

Lemma prefix_split (p k : string) :
  String.prefix p k = true -> exists a, k = p +:+ a.
Proof.
  revert k. induction p as [|x p IH]; intros k H.
  - exists k. reflexivity.
  - destruct k as [|y k]; [discriminate|]. cbn [String.prefix] in H.
    destruct (ascii_dec x y) as [->|]; [|discriminate].
    destruct (IH k H) as [a ->]. exists a. reflexivity.
Qed.

(** Keys under two prefixes of one length are ordered as the prefixes. *)
Lemma ltb_under_prefixes (p q k k' : string) :
  String.length p = String.length q ->
  String.ltb p q = true ->
  startsWith k p = true -> startsWith k' q = true ->
  String.ltb k k' = true.
Proof.
  intros Hlen Hpq Hk Hk'.
  destruct (prefix_split _ _ Hk) as [a ->].
  destruct (prefix_split _ _ Hk') as [b ->].
  unfold String.ltb in *.
  destruct (String.compare p q) eqn:E; try discriminate.
  now rewrite (compare_app_lt p q a b Hlen E).
Qed.

Lemma increasing_app (l1 l2 : list string) :
  increasing l1 = true -> increasing l2 = true ->
  (forall a b, In a l1 -> In b l2 -> String.ltb a b = true) ->
  increasing (l1 ++ l2) = true.
Proof.
  induction l1 as [|a l1 IH]; intros H1 H2 Hx; [exact H2|].
  apply increasing_cons in H1. destruct H1 as [Hall H1].
  rewrite <- app_comm_cons. apply increasing_cons. split.
  - apply Forall_app. split; [exact Hall|].
    apply List.Forall_forall. intros b Hb. apply Hx; [now left | exact Hb].
  - apply IH; [exact H1 | exact H2 |].
    intros a' b Ha' Hb. apply Hx; [now right | exact Hb].
Qed.

Lemma increasing_NoDup (l : list string) : increasing l = true -> List.NoDup l.
Proof.
  induction l as [|a l IH]; intros H; [constructor|].
  apply increasing_cons in H. destruct H as [Hall H].
  constructor; [|now apply IH].
  intros Hin. pose proof (proj1 (List.Forall_forall _ _) Hall a Hin) as Ha.
  cbv beta in Ha. now rewrite ltb_irrefl in Ha.
Qed.

(** Increasing blocks under increasing prefixes of one length. *)
Lemma increasing_blocks (f : string -> list string) (n : nat)
    (l : list string) :
  increasing l = true ->
  (forall p, In p l -> String.length p = n) ->
  (forall p, In p l -> increasing (f p) = true) ->
  (forall p k, In p l -> In k (f p) -> startsWith k p = true) ->
  increasing (flat_map f l) = true.
Proof.
  induction l as [|p l IH]; intros Hl Hn Hf Hu; [reflexivity|].
  apply increasing_cons in Hl. destruct Hl as [Hall Hl].
  rewrite flat_map_cons_eq. apply increasing_app.
  - apply Hf. now left.
  - apply IH; [exact Hl | | |]; intros; [apply Hn | apply Hf | eapply Hu];
      try (right; eassumption); eassumption.
  - intros a b Ha Hb. apply in_flat_map in Hb. destruct Hb as (q & Hq & Hb).
    apply (ltb_under_prefixes p q).
    + rewrite (Hn p), (Hn q); [reflexivity | now right | now left].
    + exact (proj1 (List.Forall_forall _ _) Hall q Hq).
    + apply Hu; [now left | exact Ha].
    + apply (Hu q); [now right | exact Hb].
Qed.

Lemma increasing_map_app (p : string) (l : list string) :
  increasing (map (fun s => p +:+ s) l) = increasing l.
Proof.
  induction l as [|a [|b l] IH]; [reflexivity | reflexivity |].
  change (increasing (map (fun s => p +:+ s) (a :: b :: l)))
    with (String.ltb (p +:+ a) (p +:+ b)
          && increasing (map (fun s => p +:+ s) (b :: l))).
  rewrite IH, ltb_app_head. reflexivity.
Qed.

Lemma child_prefixes_increasing (prefix : string) :
  increasing (child_prefixes prefix) = true.
Proof.
  unfold child_prefixes.
  rewrite <- (map_map hex2 (fun s => prefix +:+ s)), increasing_map_app.
  vm_compute. reflexivity.
Qed.

(** The sequential loops visit the leaf prefixes in increasing order. *)
Lemma leaf_prefixes_increasing (levels : nat) :
  forall prefix, increasing (leaf_prefixes prefix levels) = true.
Proof.
  induction levels as [|levels IH]; intros prefix; [reflexivity|].
  rewrite leaf_prefixes_S, <- flat_map_concat_map.
  apply (increasing_blocks _ (String.length prefix + 2)).
  - apply child_prefixes_increasing.
  - intros c Hc. apply in_child_prefixes in Hc as (i & Hi & ->).
    now rewrite string_length_app, hex2_length.
  - intros c _. apply IH.
  - intros c q _ Hq. exact (proj1 (leaf_prefix_shape levels c q Hq)).
Qed.

(** The keys of the file a completed fetch leaves. *)
Lemma served_snapshot_keys (node : Endpoint) (QUICK_MODE : bool)
    (arrivals : string -> list nat) (fuel : nat)
    (FORK_CHUNKS_LEVEL : option nat) (w w' : world)
    (chain : string -> list string) :
  storage_json w = None -> separator w = false ->
  (forall p, In p (leaf_prefixes "0x" (chunksLevel FORK_CHUNKS_LEVEL)) ->
     serves node p (chain_getFinalizedHead node) (chain p) /\
     length (chain p) / page <= fuel) ->
  main_fetch_phase node QUICK_MODE arrivals fuel FORK_CHUNKS_LEVEL w
  = Some w' ->
  let all_keys :=
    flat_map chain (leaf_prefixes "0x" (chunksLevel FORK_CHUNKS_LEVEL)) in
  exists pairs,
    storage_json w' = Some (JSON_stringify pairs) /\
    map fst pairs ≡ₚ all_keys /\
    (QUICK_MODE = false -> map fst pairs = all_keys).
Proof.
  intros Hfile Hsep Hserved Hrun all_keys.
  destruct (main_fetch_phase_trace _ _ _ _ _ _ _ Hfile Hsep Hrun)
    as (es & Hp & Hx & Hs & _).
  destruct (served_leaves_pairs node fuel (chain_getFinalizedHead node) chain
              _ Hserved) as [Hkeys _].
  fold (leaf_events node fuel "0x" (chunksLevel FORK_CHUNKS_LEVEL)
          (chain_getFinalizedHead node)) in Hkeys.
  fold all_keys in Hkeys.
  exists (concat (batches es)). split.
  { rewrite Hs, snapshot_text; [reflexivity|].
    eapply Permutation_Forall;
      [symmetry; apply batches_Permutation, Hp | apply batches_leaf_events]. }
  split.
  - rewrite <- Hkeys. apply Permutation_map, concat_Permutation,
      batches_Permutation, Hp.
  - intros Hq. now rewrite (Hx Hq), Hkeys.
Qed.

(** X3.  The order of the snapshot.  When the node lists the keys under
    every leaf prefix in increasing order (and only keys that start with
    the prefix), the keys of the finished file are pairwise distinct, and
    with the chunks awaited one by one they are in increasing order over
    the whole file. *)
Theorem snapshot_keys_in_order (node : Endpoint) (QUICK_MODE : bool)
    (arrivals : string -> list nat) (fuel : nat)
    (FORK_CHUNKS_LEVEL : option nat) (w w' : world)
    (chain : string -> list string) :
  storage_json w = None -> separator w = false ->
  (forall p, In p (leaf_prefixes "0x" (chunksLevel FORK_CHUNKS_LEVEL)) ->
     serves node p (chain_getFinalizedHead node) (chain p) /\
     length (chain p) / page <= fuel /\
     increasing (chain p) = true /\
     forall k, In k (chain p) -> startsWith k p = true) ->
  main_fetch_phase node QUICK_MODE arrivals fuel FORK_CHUNKS_LEVEL w
  = Some w' ->
  exists pairs,
    storage_json w' = Some (JSON_stringify pairs) /\
    List.NoDup (map fst pairs) /\
    (QUICK_MODE = false -> increasing (map fst pairs) = true).
Proof.
  intros Hfile Hsep Hserved Hrun.
  destruct (served_snapshot_keys node QUICK_MODE arrivals fuel
              FORK_CHUNKS_LEVEL w w' chain Hfile Hsep) as (pairs & Hs & Hp & Hx);
    [intros p Hp; destruct (Hserved p Hp) as (? & ? & _); now split
    | exact Hrun |].
  assert (Hinc : increasing
            (flat_map chain
               (leaf_prefixes "0x" (chunksLevel FORK_CHUNKS_LEVEL))) = true).
  { apply (increasing_blocks _
             (String.length "0x" + 2 * chunksLevel FORK_CHUNKS_LEVEL)).
    - apply leaf_prefixes_increasing.
    - intros p Hp'. exact (proj2 (leaf_prefix_shape _ _ _ Hp')).
    - intros p Hp'. apply (Hserved p Hp').
    - intros p k Hp' Hk. now apply (Hserved p Hp'). }
  exists pairs. split; [exact Hs|]. split.
  - eapply Permutation_NoDup; [symmetry; exact Hp|].
    now apply increasing_NoDup.
  - intros Hq. now rewrite (Hx Hq).
Qed.

Lemma snapshot_keys_in_order_witness :
  let node := db_node "0xf1" (numbered_db 600) in
  exists w' pairs,
    main_fetch_phase node false (fun _ => []) 2 None (initial None)
    = Some w' /\
    storage_json w' = Some (JSON_stringify pairs) /\
    List.NoDup (map fst pairs) /\
    (false = false -> increasing (map fst pairs) = true).
Proof.
  intros node.
  pose (chain := fun p => List.filter (fun k => startsWith k p)
                                      (map fst (numbered_db 600))).
  assert (Hinc : increasing (map fst (numbered_db 600)) = true)
    by (vm_compute; reflexivity).
  assert (Hserved : forall p, In p (leaf_prefixes "0x" (chunksLevel None)) ->
            serves node p (chain_getFinalizedHead node) (chain p) /\
            length (chain p) / page <= 2 /\
            increasing (chain p) = true /\
            forall k, In k (chain p) -> startsWith k p = true).
  { intros p _. split; [now apply db_node_serves|]. split; [|split].
    - apply Nat.Div0.div_le_upper_bound.
      transitivity (length (map fst (numbered_db 600)));
        [apply filter_length_le|].
      unfold numbered_db, numbered_keys.
      rewrite !length_map, length_seq. unfold page. lia.
    - now apply increasing_filter.
    - intros k Hk. apply filter_In in Hk. exact (proj2 Hk). }
  destruct (main_fetch_phase_total node false (fun _ => []) 2 None
              (initial None)) as [w' Hrun].
  { apply List.Forall_forall. intros p Hp.
    destruct (Hserved p Hp) as (Hs & Hfuel & _).
    exact (proj1 (served_chunk_batches node p _ (chain p) 2 Hs Hfuel)). }
  destruct (snapshot_keys_in_order node false (fun _ => []) 2 None
              (initial None) w' chain eq_refl eq_refl Hserved Hrun)
    as (pairs & H1 & H2 & H3).
  exists w', pairs. repeat split; assumption.
Defined.

(** ** The requests of the fetch *)

Lemma requests_Permutation (es1 es2 : list effect) :
  es1 ≡ₚ es2 -> requests es1 ≡ₚ requests es2.
Proof. apply Permutation_flat_map. Qed.

Lemma requests_page_events (node : Endpoint) (keys : list string)
    (at_ : string) :
  requests (page_events node keys at_)
  = if 0 <? length keys then [ReqQueryStorageAt keys at_] else [].
Proof.
  unfold page_events. destruct (0 <? length keys); [|reflexivity].
  rewrite events_store_page. cbv zeta.
  destruct (negb _); reflexivity.
Qed.

Lemma fetch_request_page (node : Endpoint) (leaves : list string)
    (keys : list string) (at_ : string) :
  Forall (fetch_request leaves at_) (requests (page_events node keys at_)).
Proof.
  rewrite requests_page_events.
  destruct keys as [|k keys]; [constructor|].
  repeat constructor. discriminate.
Qed.

Section Requests.

Variable node : Endpoint.
Variable leaves : list string.
Variables prefix at_ : string.
Hypothesis Hleaf : In prefix leaves.

Lemma fetch_request_while (fuel : nat) :
  forall keys key_count,
    Forall (fetch_request leaves at_)
      (requests (events node (while_full_page fuel prefix at_ keys key_count))).
Proof.
  induction fuel as [|fuel IH]; intros keys key_count.
  - simpl. destruct (key_count =? page); constructor.
  - destruct (Nat.eq_dec key_count page) as [->|Hne].
    + rewrite events_while_step. cbv zeta.
      rewrite !requests_app. apply Forall_app. split.
      * repeat constructor. exact Hleaf.
      * apply Forall_app. split; [apply fetch_request_page | apply IH].
    + rewrite while_full_page_stop by exact Hne. constructor.
Qed.

Lemma fetch_request_base (fuel : nat) :
  Forall (fetch_request leaves at_)
    (requests (events node (fetchChunks_base fuel prefix at_))).
Proof.
  rewrite events_base. cbv zeta. rewrite !requests_app.
  apply Forall_app. split; [repeat constructor; exact Hleaf|].
  apply Forall_app. split.
  { set (keys := state_getKeysPaged node prefix page None at_).
    replace (requests (if 0 <? length keys
                       then [add_total_keys_count (length keys);
                             log_keys_fetched]
                            ++ events node (store_page keys at_)
                       else []))
      with (requests (page_events node keys at_))
      by (unfold page_events; destruct (0 <? length keys); reflexivity).
    apply fetch_request_page. }
  apply Forall_app. split; [apply fetch_request_while|].
  destruct (outcome _ _); constructor.
Qed.

End Requests.

Lemma fetch_request_leaves (node : Endpoint) (fuel : nat) (at_ : string)
    (leaves l : list string) :
  (forall p, In p l -> In p leaves) ->
  Forall (fetch_request leaves at_)
    (requests (flat_map (fun p => events node (fetchChunks_base fuel p at_))
                        l)).
Proof.
  induction l as [|p l IH]; intros H; [constructor|].
  rewrite flat_map_cons_eq, requests_app. apply Forall_app. split.
  - apply fetch_request_base. apply H. now left.
  - apply IH. intros q Hq. apply H. now right.
Qed.

(** X4.  The snapshot is read at one block.  A fetch phase that completes
    has asked the node for the finalized head once, before anything else,
    and every later request is either a page of 512 keys under one of the
    leaf prefixes of the partition or the values of a non-empty page of
    keys, each at that head. *)
Theorem fetch_reads_one_block (node : Endpoint) (QUICK_MODE : bool)
    (arrivals : string -> list nat) (fuel : nat)
    (FORK_CHUNKS_LEVEL : option nat) (w w' : world) :
  storage_json w = None ->
  main_fetch_phase node QUICK_MODE arrivals fuel FORK_CHUNKS_LEVEL w
  = Some w' ->
  exists rs,
    sent w' = sent w ++ ReqFinalizedHead :: rs /\
    Forall (fetch_request
              (leaf_prefixes "0x" (chunksLevel FORK_CHUNKS_LEVEL))
              (chain_getFinalizedHead node)) rs.
Proof.
  intros Hfile H. unfold main_fetch_phase in H. rewrite Hfile in H.
  rewrite bool_decide_eq_false_2 in H by (intros [? ?]; discriminate).
  match type of H with
  | match fetchChunks _ _ _ _ _ _ _ ?w0 with _ => _ end = _ =>
      set (w1 := w0) in H
  end.
  destruct (fetchChunks _ _ _ _ _ _ _ w1) as [w2|] eqn:E; [|discriminate].
  injection H as <-.
  apply fetchChunks_trace in E as (es & Hp & -> & _ & _).
  exists (requests es). split.
  - cbn [sent set_progressBar stream_write]. rewrite sent_perform_all.
    subst w1. cbn [sent console_log send set_progressBar stream_write].
    now rewrite <- app_assoc.
  - eapply Permutation_Forall;
      [symmetry; apply requests_Permutation, Hp|].
    apply fetch_request_leaves. auto.
Qed.

Lemma fetch_reads_one_block_witness :
  let node := db_node "0xf1" [("0x0001", JString "0x11"); ("0x0002", JNull);
                               ("0xcc01", JString "0x22")] in
  exists w' rs,
    main_fetch_phase node true (fun _ => [7; 2]) 1 None (initial None)
    = Some w' /\
    sent w' = sent (initial None) ++ ReqFinalizedHead :: rs /\
    Forall (fetch_request (leaf_prefixes "0x" 1) "0xf1") rs.
Proof.
  intros node.
  assert (H : exists w',
    main_fetch_phase node true (fun _ => [7; 2]) 1 None (initial None)
    = Some w') by (eexists; vm_compute; reflexivity).
  destruct H as [w' H].
  destruct (fetch_reads_one_block node true (fun _ => [7; 2]) 1 None
              (initial None) w' eq_refl H) as (rs & H1 & H2).
  exists w', rs. repeat split; assumption.
Defined.

(** ** The count of keys fetched *)

Lemma keys_counted_app (es1 es2 : list effect) :
  keys_counted (es1 ++ es2) = keys_counted es1 + keys_counted es2.
Proof. unfold keys_counted. now rewrite flat_map_app, list_sum_app. Qed.

Lemma total_keys_count_perform (e : effect) (w : world) :
  total_keys_count (perform e w) = total_keys_count w + keys_counted [e].
Proof.
  destruct e; unfold keys_counted; cbn [flat_map list_sum app perform];
    try destruct (separator w); cbn; lia.
Qed.

Lemma total_keys_count_perform_all (es : list effect) (w : world) :
  total_keys_count (perform_all es w) = total_keys_count w + keys_counted es.
Proof.
  revert w. induction es as [|e es IH]; intros w.
  - change (perform_all [] w) with w. change (keys_counted []) with 0. lia.
  - change (perform_all (e :: es) w) with (perform_all es (perform e w)).
    rewrite IH, total_keys_count_perform. change (e :: es) with ([e] ++ es).
    rewrite keys_counted_app. lia.
Qed.

Lemma keys_counted_page_events (node : Endpoint) (keys : list string)
    (at_ : string) :
  keys_counted (page_events node keys at_) = 0.
Proof.
  unfold page_events. destruct (0 <? length keys); [|reflexivity].
  rewrite events_store_page. cbv zeta.
  destruct (negb _); reflexivity.
Qed.

(** Every turn of the loop adds [page] to the counter and asks for one
    more page. *)
Lemma keys_counted_while (node : Endpoint) (prefix at_ : string)
    (fuel : nat) :
  forall keys key_count,
    keys_counted (events node (while_full_page fuel prefix at_ keys key_count))
    = page * enumerations (requests (events node
               (while_full_page fuel prefix at_ keys key_count))).
Proof.
  induction fuel as [|fuel IH]; intros keys key_count.
  - simpl. destruct (key_count =? page); unfold keys_counted; simpl; lia.
  - destruct (Nat.eq_dec key_count page) as [->|Hne].
    + rewrite events_while_step. cbv zeta.
      rewrite !keys_counted_app, !requests_app, !enumerations_app.
      rewrite keys_counted_page_events, enumerations_page_events, IH.
      change (keys_counted [add_total_keys_count page; log_keys_fetched;
                issue (ReqKeysPaged prefix page (keys !! (page - 1)) at_)])
        with (page + 0).
      change (enumerations (requests
                [add_total_keys_count page; log_keys_fetched;
                 issue (ReqKeysPaged prefix page (keys !! (page - 1)) at_)]))
        with 1.
      lia.
    + rewrite while_full_page_stop by exact Hne.
      unfold keys_counted. simpl. lia.
Qed.

Lemma keys_counted_base (node : Endpoint) (prefix at_ : string) (fuel : nat) :
  let keys := state_getKeysPaged node prefix page None at_ in
  keys_counted (events node (fetchChunks_base fuel prefix at_))
  = length keys
    + page * enumerations (requests (events node
               (while_full_page fuel prefix at_ keys (length keys)))).
Proof.
  intros keys. rewrite events_base. cbv zeta. fold keys.
  rewrite !keys_counted_app, keys_counted_while.
  assert (H1 : keys_counted
            (if 0 <? length keys
             then [add_total_keys_count (length keys); log_keys_fetched]
                  ++ events node (store_page keys at_)
             else []) = length keys).
  { destruct (Nat.ltb_spec 0 (length keys)) as [Hpos|Hzero].
    - rewrite keys_counted_app, events_store_page. cbv zeta.
      destruct (negb _); unfold keys_counted; cbn; lia.
    - unfold keys_counted. cbn. lia. }
  rewrite H1.
  assert (H2 : keys_counted
            match outcome node
                    (while_full_page fuel prefix at_ keys (length keys)) with
            | Some _ => [update_chunksFetched]
            | None => []
            end = 0) by (destruct (outcome _ _); reflexivity).
  rewrite H2. change (keys_counted [issue (ReqKeysPaged prefix page None at_)])
    with 0. lia.
Qed.

(** X5.  The count behind the [Keys fetched] lines.  When the node pages
    through the [N] keys [ks] of a chunk, the base case adds [N] to
    [total_keys_count] if the chunk has fewer than 512 keys, and
    [(N / 512 + 1) * 512] otherwise: the first page is then counted twice
    and the last page not at all, so the counter ends above the number of
    keys fetched. *)
Theorem keys_fetched_counter (node : Endpoint) (prefix at_ : string)
    (ks : list string) (fuel : nat) (w : world) :
  serves node prefix at_ ks ->
  length ks / page <= fuel ->
  exists w',
    run node (fetchChunks_base fuel prefix at_) w = Some (tt, w') /\
    total_keys_count w'
    = total_keys_count w
      + (if length ks <? page then length ks
         else (length ks / page + 1) * page) /\
    (page <= length ks -> total_keys_count w + length ks < total_keys_count w').
Proof.
  intros Hs Hfuel. pose proof page_pos as Hpos.
  pose proof (Nat.mod_upper_bound (length ks) page ltac:(lia)) as Hr.
  pose proof (Nat.div_mod_eq (length ks) page) as Hdm.
  destruct (served_chunk_batches node prefix at_ ks fuel Hs Hfuel)
    as (Hout & _).
  set (m := length ks / page) in *.
  assert (Hfull : forall j, j < m -> length (nth_page node prefix at_ j) = page)
    by (intros j Hj; now apply (serves_full_pages node prefix at_ ks Hs)).
  pose proof (serves_last_page node prefix at_ ks Hs) as Hlast.
  fold m in Hlast.
  destruct (while_full_page_calls node prefix at_ m fuel 0) as [_ Hcalls];
    [exact Hfull | simpl; lia | exact Hfuel |].
  cbn [nth_page] in Hcalls.
  assert (Hfirst : length (state_getKeysPaged node prefix page None at_)
                   = if length ks <? page then length ks else page).
  { destruct (Nat.ltb_spec (length ks) page) as [Hlt|Hge].
    - assert (m = 0) by (subst m; now apply Nat.div_small).
      change (state_getKeysPaged node prefix page None at_)
        with (nth_page node prefix at_ 0).
      replace 0 with m at 1 by lia. rewrite Hlast. nia.
    - apply (Hfull 0). subst m.
      apply Nat.div_str_pos. lia. }
  assert (Hcount : keys_counted (events node (fetchChunks_base fuel prefix at_))
                   = if length ks <? page then length ks
                     else (m + 1) * page).
  { rewrite keys_counted_base. cbv zeta. rewrite Hcalls, Hfirst.
    destruct (Nat.ltb_spec (length ks) page) as [Hlt|Hge]; [|lia].
    assert (m = 0) by (subst m; now apply Nat.div_small). nia. }
  exists (perform_all (events node (fetchChunks_base fuel prefix at_)) w).
  split; [now rewrite run_trace, Hout|].
  rewrite total_keys_count_perform_all, Hcount. split; [reflexivity|].
  intros Hge. destruct (Nat.ltb_spec (length ks) page) as [Hlt|_]; [lia|].
  nia.
Qed.

Lemma keys_fetched_counter_witness :
  let node := db_node "0xf1" (numbered_db 600) in
  exists w',
    run node (fetchChunks_base 1 "0x" "0xf1") (initial None) = Some (tt, w') /\
    total_keys_count w'
    = total_keys_count (initial None)
      + (if length (numbered_keys 600) <? page then length (numbered_keys 600)
         else (length (numbered_keys 600) / page + 1) * page) /\
    (page <= length (numbered_keys 600) ->
     total_keys_count (initial None) + length (numbered_keys 600)
     < total_keys_count w').
Proof.
  intros node.
  apply (keys_fetched_counter node "0x" "0xf1" (numbered_keys 600) 1
           (initial None)).
  - replace (numbered_keys 600)
      with (List.filter (fun k => startsWith k "0x")
                        (map fst (numbered_db 600)))
      by (vm_compute; reflexivity).
    apply db_node_serves. vm_compute. reflexivity.
  - vm_compute. lia.
Defined.

(** ** The progress bar *)


Lemma chunksFetched_perform (e : effect) (w : world) :
  chunksFetched (perform e w) = chunksFetched w + chunk_updates [e].
Proof. apply (chunksFetched_perform_all [e]). Qed.




(** ** The order of the requests *)

Lemma advance_base (fuel : nat) (prefix at_ : string) (w : world) :
  exists t',
    advance (fetchChunks_base fuel prefix at_) w
    = (t', send (ReqKeysPaged prefix page None at_) w).
Proof. eexists. reflexivity. Qed.

Lemma launch_sent (fuel : nat) (at_ : string) (children : list string) :
  forall w pool w',
    launch (map (fun p => fetchChunks_base fuel p at_) children) w
    = (pool, w') ->
    sent w' = sent w ++ map (fun p => ReqKeysPaged p page None at_) children.
Proof.
  induction children as [|c children IH]; intros w pool w' H.
  - injection H as _ <-. now rewrite app_nil_r.
  - cbn [map launch] in H.
    destruct (advance_base fuel c at_ w) as [t' E]. rewrite E in H.
    destruct (launch _ _) as [pool' w2] eqn:EL. injection H as _ <-.
    rewrite (IH _ _ _ EL). cbn [sent send map].
    now rewrite <- app_assoc.
Qed.

(** X7.  The order of the requests.  Under [QUICK_MODE] the last level
    first sends the first-page request of every one of its 256 chunks, in
    the order of the prefixes, before any answer is handled; without it
    the requests of one chunk are all sent before the first request of the
    next chunk. *)
Theorem quick_mode_opens_all_chunks (node : Endpoint)
    (arrivals : string -> list nat) (fuel : nat) (prefix at_ : string)
    (w : world) :
  (forall w',
     fetchChunks node true arrivals fuel prefix 1 at_ w = Some w' ->
     exists rest,
       sent w' = sent w
                 ++ map (fun p => ReqKeysPaged p page None at_)
                        (child_prefixes prefix)
                 ++ rest) /\
  (forall w',
     fetchChunks node false arrivals fuel prefix 1 at_ w = Some w' ->
     sent w' = sent w
               ++ flat_map (fun p => requests (events node
                                       (fetchChunks_base fuel p at_)))
                           (child_prefixes prefix)).
Proof.
  split; intros w' H.
  - rewrite fetchChunks_S in H. cbn [andb Nat.eqb] in H.
    unfold Promise_all in H.
    destruct (launch _ w) as [pool w1] eqn:EL.
    apply launch_sent in EL.
    apply deliver_trace in H as (es & _ & -> & _).
    exists (requests es).
    now rewrite sent_perform_all, EL, <- app_assoc.
  - apply fetchChunks_trace in H as (es & _ & -> & Hx & _).
    rewrite sent_perform_all, (Hx eq_refl). f_equal.
    unfold leaf_events. rewrite leaf_prefixes_1.
    generalize (child_prefixes prefix). intros l.
    induction l as [|p l IH]; [reflexivity|].
    rewrite !flat_map_cons_eq, requests_app. now rewrite IH.
Qed.

Lemma quick_mode_opens_all_chunks_witness :
  let node := db_node "0xf1" [("0x0001", JString "0x11"); ("0x0002", JNull);
                               ("0xcc01", JString "0x22")] in
  (exists w' rest,
     fetchChunks node true (fun _ => [7; 2]) 1 "0x" 1 "0xf1" (initial None)
     = Some w' /\
     sent w' = sent (initial None)
               ++ map (fun p => ReqKeysPaged p page None "0xf1")
                      (child_prefixes "0x")
               ++ rest) /\
  (exists w',
     fetchChunks node false (fun _ => [7; 2]) 1 "0x" 1 "0xf1" (initial None)
     = Some w' /\
     sent w' = sent (initial None)
               ++ flat_map (fun p => requests (events node
                                       (fetchChunks_base 1 p "0xf1")))
                           (child_prefixes "0x")).
Proof.
  intros node.
  destruct (quick_mode_opens_all_chunks node (fun _ => [7; 2]) 1 "0x" "0xf1"
              (initial None)) as [Hq Hs].
  split.
  - assert (H : exists w',
      fetchChunks node true (fun _ => [7; 2]) 1 "0x" 1 "0xf1" (initial None)
      = Some w') by (eexists; vm_compute; reflexivity).
    destruct H as [w' H]. destruct (Hq w' H) as [rest Hr].
    exists w', rest. split; assumption.
  - assert (H : exists w',
      fetchChunks node false (fun _ => [7; 2]) 1 "0x" 1 "0xf1" (initial None)
      = Some w') by (eexists; vm_compute; reflexivity).
    destruct H as [w' H]. exists w'. split; [exact H | exact (Hs w' H)].
Defined.

(** ** The fixed entries of the fork *)

Lemma trimStart_spaces (lead s : string) :
  all_chars is_space lead = true -> trimStart (lead +:+ s) = trimStart s.
Proof.
  induction lead as [|c lead IH]; intros H; [reflexivity|].
  cbn [all_chars] in H. apply andb_true_iff in H as [Hc H].
  rewrite app_String. cbn [trimStart]. rewrite Hc. now apply IH.
Qed.

Lemma trimStart_all_spaces (s : string) :
  all_chars is_space s = true -> trimStart s = "".
Proof.
  intros H. rewrite <- (string_app_nil_r s).
  now rewrite trimStart_spaces.
Qed.

Lemma trimEnd_spaces (trail : string) :
  all_chars is_space trail = true -> trimEnd trail = "".
Proof.
  induction trail as [|c trail IH]; intros H; [reflexivity|].
  cbn [all_chars] in H. apply andb_true_iff in H as [Hc H].
  cbn [trimEnd]. now rewrite IH, Hc.
Qed.

Lemma trimEnd_solid (body trail : string) :
  all_chars (fun c => negb (is_space c)) body = true ->
  all_chars is_space trail = true ->
  trimEnd (body +:+ trail) = body.
Proof.
  intros Hb Ht. induction body as [|c body IH]; [now apply trimEnd_spaces|].
  cbn [all_chars] in Hb. apply andb_true_iff in Hb as [Hc Hb].
  rewrite app_String. cbn [trimEnd]. rewrite (IH Hb).
  apply negb_true_iff in Hc. rewrite Hc. now destruct body.
Qed.

(** [trim] takes the white space off both ends of a text without white
    space inside. *)
Lemma trim_solid (lead body trail : string) :
  all_chars is_space lead = true ->
  all_chars (fun c => negb (is_space c)) body = true ->
  all_chars is_space trail = true ->
  trim (lead +:+ body +:+ trail) = body.
Proof.
  intros Hl Hb Ht. unfold trim. rewrite trimStart_spaces by exact Hl.
  destruct body as [|c body].
  - rewrite app_empty, trimStart_all_spaces by exact Ht. reflexivity.
  - pose proof Hb as Hb'. cbn [all_chars] in Hb'.
    apply andb_true_iff in Hb' as [Hc _]. apply negb_true_iff in Hc.
    rewrite app_String. cbn [trimStart]. rewrite Hc, <- app_String.
    now apply trimEnd_solid.
Qed.

Lemma set_alice_lookup (top : gmap string json) :
  set_alice top !! Sudo_Key = Some (Str alice_account) /\
  set_alice top !! TechnicalMembership_Members = Some (Str alice_member) /\
  set_alice top !! TechnicalCommittee_Members = Some (Str alice_member) /\
  set_alice top !! PhragmenElection_Members = Some (Str alice_phragmen) /\
  set_alice top !! Council_Members = Some (Str alice_member) /\
  forall key,
    ~ In key [Sudo_Key; TechnicalMembership_Members;
              TechnicalCommittee_Members; PhragmenElection_Members;
              Council_Members] ->
    set_alice top !! key = top !! key.
Proof.
  unfold set_alice. cbv zeta.
  repeat split;
    try (repeat first [ rewrite lookup_insert_eq; reflexivity
                      | rewrite lookup_insert_ne
                          by (apply String.eqb_neq; reflexivity) ];
         reflexivity).
  intros key Hkey.
  rewrite !lookup_insert_ne; [reflexivity| | | | |];
    intros <-; apply Hkey; simpl; tauto.
Qed.

Lemma spliced_top_fixed (alice : string) (prefixes : list string)
    (runtime_hex : string) (storage : list (string * json))
    (top : gmap string json) :
  let top' := spliced_top alice prefixes runtime_hex storage top in
  top' !! code_key = Some (Str ("0x" +:+ trim runtime_hex)) /\
  top' !! Staking_ForceEra = Some (Str "0x02").
Proof.
  cbv zeta. unfold spliced_top. cbv zeta.
  destruct (negb (String.eqb alice "")).
  - destruct (set_alice_lookup
                (<[Staking_ForceEra := Str "0x02"]>
                   (<[code_key := Str ("0x" +:+ trim runtime_hex)]>
                      (delete System_LastRuntimeUpgrade
                         (set_all (selected prefixes storage) top)))))
      as (_ & _ & _ & _ & _ & Hother).
    rewrite !Hother
      by (apply (bool_decide_unpack _); vm_compute; exact I).
    split.
    + rewrite lookup_insert_ne by (apply String.eqb_neq; reflexivity).
      apply lookup_insert_eq.
    + apply lookup_insert_eq.
  - split.
    + rewrite lookup_insert_ne by (apply String.eqb_neq; reflexivity).
      apply lookup_insert_eq.
    + apply lookup_insert_eq.
Qed.

(** X8.  The fixed entries win.  Whatever the snapshot and the development
    specification hold under these keys, the spliced [genesis.raw.top]
    carries the runtime code read from [runtime.hex] (its text without the
    white space around it, after [0x]) and [0x02] for [Staking.ForceEra];
    with [ALICE] set the sudo key and the four member lists are Alice's,
    and without it these five keys are treated like any other key. *)
Theorem fixed_entries_override (alice : string) (prefixes : list string)
    (runtime_hex : string) (storage : list (string * json))
    (originalSpec forkedSpec spec' : gmap string json) :
  main_splice alice prefixes runtime_hex storage originalSpec forkedSpec
  = Some spec' ->
  exists top top',
    top_of forkedSpec = Some top /\
    top_of spec' = Some top' /\
    top' !! code_key = Some (Str ("0x" +:+ trim runtime_hex)) /\
    (forall lead body trail,
       runtime_hex = lead +:+ body +:+ trail ->
       all_chars is_space lead = true ->
       all_chars (fun c => negb (is_space c)) body = true ->
       all_chars is_space trail = true ->
       top' !! code_key = Some (Str ("0x" +:+ body))) /\
    top' !! Staking_ForceEra = Some (Str "0x02") /\
    (alice <> "" ->
     top' !! Sudo_Key = Some (Str alice_account) /\
     top' !! TechnicalMembership_Members = Some (Str alice_member) /\
     top' !! TechnicalCommittee_Members = Some (Str alice_member) /\
     top' !! PhragmenElection_Members = Some (Str alice_phragmen) /\
     top' !! Council_Members = Some (Str alice_member)) /\
    (alice = "" ->
     forall key,
       In key [Sudo_Key; TechnicalMembership_Members;
               TechnicalCommittee_Members; PhragmenElection_Members;
               Council_Members] ->
       top' !! key =
       match List.find (fun i => String.eqb (fst i) key)
                       (rev (selected prefixes storage)) with
       | Some i => Some (snd i)
       | None => top !! key
       end).
Proof.
  intros H. destruct (main_splice_inv _ _ _ _ _ _ _ H) as (genesis & raw & top & Htop).
  rewrite (main_splice_has_top _ _ _ _ _ _ _ _ _ Htop) in H.
  injection H as <-.
  exists top, (spliced_top alice prefixes runtime_hex storage top).
  split; [now apply (top_of_has_top _ genesis raw)|].
  split; [apply top_of_with_top|].
  destruct (spliced_top_fixed alice prefixes runtime_hex storage top)
    as [Hcode Hera].
  split; [exact Hcode|].
  split; [intros lead body trail -> Hl Hb Ht;
          now rewrite Hcode, trim_solid|].
  split; [exact Hera|].
  split.
  - intros Ha. unfold spliced_top. cbv zeta.
    apply String.eqb_neq in Ha. rewrite Ha. cbn [negb].
    destruct (set_alice_lookup
                (<[Staking_ForceEra := Str "0x02"]>
                   (<[code_key := Str ("0x" +:+ trim runtime_hex)]>
                      (delete System_LastRuntimeUpgrade
                         (set_all (selected prefixes storage) top)))))
      as (H1 & H2 & H3 & H4 & H5 & _).
    repeat split; assumption.
  - intros -> key Hkey. unfold spliced_top. cbv zeta.
    change (negb ("" =? "")%string) with false. cbv iota.
    assert (Hne : key <> Staking_ForceEra /\ key <> code_key /\
                  key <> System_LastRuntimeUpgrade).
    { cbn [In] in Hkey.
      repeat split; intros ->;
        decompose [or] Hkey; try contradiction;
        match goal with
        | E : _ = _ |- _ => apply String.eqb_eq in E; discriminate E
        end. }
    destruct Hne as (N1 & N2 & N3).
    rewrite lookup_insert_ne by (now apply not_eq_sym).
    rewrite lookup_insert_ne by (now apply not_eq_sym).
    rewrite lookup_delete_ne by (now apply not_eq_sym).
    apply set_all_lookup.
Qed.

Lemma fixed_entries_override_witness :
  let forkedSpec : gmap string json :=
    {[ "genesis" := Obj {[ "raw" := Obj {[ "top" :=
         Obj {[ code_key := Str "0x00"; Sudo_Key := Str "0xbob" ]} ]} ]} ]} in
  let storage := [(Staking_ForceEra, Str "0x00"); (Sudo_Key, Str "0xeve")] in
  exists spec' top top',
    main_splice "1" ["0x5"] ("00ff" +:+ String (ascii_of_nat 10) "") storage
      ∅ forkedSpec = Some spec' /\
    top_of forkedSpec = Some top /\
    top_of spec' = Some top' /\
    top' !! code_key = Some (Str "0x00ff") /\
    top' !! Staking_ForceEra = Some (Str "0x02") /\
    top' !! Sudo_Key = Some (Str alice_account).
Proof.
  intros forkedSpec storage.
  destruct (main_splice "1" ["0x5"] ("00ff" +:+ String (ascii_of_nat 10) "")
              storage ∅ forkedSpec) as [spec'|] eqn:E.
  - destruct (fixed_entries_override _ _ _ _ _ _ _ E)
      as (top & top' & H1 & H2 & _ & H3 & H4 & H5 & _).
    exists spec', top, top'.
    split; [reflexivity|]. split; [exact H1|]. split; [exact H2|].
    split; [apply (H3 "" "00ff" (String (ascii_of_nat 10) ""));
            reflexivity|].
    split; [exact H4|]. apply H5. discriminate.
  - exfalso. revert E. unfold main_splice, insert_storage.
    cbn [List.filter]. vm_compute. discriminate.
Defined.

(** ** A specification without a raw genesis *)

Lemma read_top_has_top (spec genesis raw top : gmap string json) :
  has_top spec genesis raw top -> read_top spec = Some (Obj top).
Proof.
  intros (Hg & Hr & Ht). unfold read_top. simpl.
  rewrite Hg. simpl. rewrite Hr. simpl. now rewrite Ht.
Qed.

(** X9.  A specification without a raw genesis stops the splice.  When
    reading [forkedSpec.genesis.raw.top] throws, or gives [undefined] or
    [null], the splice fails for every snapshot, also for one from which
    nothing is selected (line 131 deletes from [top] unconditionally); so
    no forked specification is produced. *)
Theorem splice_needs_raw_genesis (alice : string) (prefixes : list string)
    (runtime_hex : string) (storage : list (string * json))
    (originalSpec forkedSpec : gmap string json) :
  read_top forkedSpec = None \/
  read_top forkedSpec = Some Undefined \/
  read_top forkedSpec = Some Null ->
  main_splice alice prefixes runtime_hex storage originalSpec forkedSpec
  = None /\
  insert_storage prefixes [] forkedSpec = Some forkedSpec.
Proof.
  intros Hread. split; [|reflexivity].
  destruct (main_splice _ _ _ _ _ _) as [spec'|] eqn:E; [|reflexivity].
  destruct (main_splice_inv _ _ _ _ _ _ _ E) as (genesis & raw & top & Htop).
  rewrite (read_top_has_top _ _ _ _ Htop) in Hread.
  destruct Hread as [H|[H|H]]; discriminate H.
Qed.

Lemma splice_needs_raw_genesis_witness :
  let forkedSpec : gmap string json :=
    {[ "name" := Str "Development";
       "genesis" := Obj {[ "runtime" := Obj ∅ ]} ]} in
  main_splice "" ["0x26"] "00" [] ∅ forkedSpec = None /\
  insert_storage ["0x26"] [] forkedSpec = Some forkedSpec.
Proof.
  intros forkedSpec.
  apply (splice_needs_raw_genesis "" ["0x26"] "00" [] ∅ forkedSpec).
  left. vm_compute. reflexivity.
Defined.

(** ** The prefixes taken from the metadata *)

Section MetadataProperties.

Variable xxhashAsHex : string -> string.

Let kept (module : pallet) : bool :=
  pallet_storage module
  && negb (includes skippedModulesPrefix (pallet_name module)).

Let dropped (module : pallet) : bool :=
  pallet_storage module && includes skippedModulesPrefix (pallet_name module).

Lemma populate_fold (modules : list pallet) :
  forall prefixes skipped,
    fold_left (populate_step xxhashAsHex) modules (prefixes, skipped)
    = (prefixes
       ++ map (fun m => xxhashAsHex (pallet_name m)) (List.filter kept modules),
       skipped ++ map pallet_name (List.filter dropped modules)).
Proof.
  induction modules as [|m modules IH]; intros prefixes skipped.
  - cbn. now rewrite !app_nil_r.
  - cbn [fold_left populate_step List.filter]. unfold kept, dropped.
    destruct (pallet_storage m); cbn [andb];
      [destruct (includes skippedModulesPrefix (pallet_name m)); cbn [negb]|];
      rewrite IH; cbn [map]; now rewrite <- ?app_assoc.
Qed.

Lemma some_prefix_populated (modules : list pallet) (key : string) :
  some_prefix (fst (populate_prefixes xxhashAsHex [System_Account] modules))
              key
  = wanted xxhashAsHex modules key.
Proof.
  unfold populate_prefixes. rewrite populate_fold. cbn [fst app].
  unfold some_prefix, wanted. cbn [existsb]. f_equal.
  induction modules as [|m modules IH]; [reflexivity|].
  cbn [List.filter existsb]. unfold kept at 1.
  destruct (pallet_storage m && negb (includes skippedModulesPrefix
                                        (pallet_name m))); cbn [andb orb].
  - cbn [map existsb]. now rewrite IH.
  - exact IH.
Qed.

End MetadataProperties.

(** X10.  The selection by pallet.  After the metadata has been read, the
    prefixes are [System.Account] and the hash of every pallet whose
    [storage] is truthy and whose name is not on the skip list, in the
    order of the metadata; the pallets with storage that are on the list
    are logged as skipped.  The insertion then copies a snapshot entry
    into [genesis.raw.top] when its key lies under one of those prefixes
    and leaves every other key of [top] as it was. *)
Theorem selection_by_pallet (xxhashAsHex : string -> string)
    (modules : list pallet) (storage : list (string * json))
    (forkedSpec top : gmap string json) :
  top_of forkedSpec = Some top ->
  let populated := populate_prefixes xxhashAsHex [System_Account] modules in
  fst populated
  = System_Account
    :: map (fun m => xxhashAsHex (pallet_name m))
         (List.filter (fun m => pallet_storage m
                         && negb (includes skippedModulesPrefix
                                    (pallet_name m))) modules) /\
  snd populated
  = map pallet_name
      (List.filter (fun m => pallet_storage m
                      && includes skippedModulesPrefix (pallet_name m))
                   modules) /\
  exists spec' top',
    insert_storage (fst populated) storage forkedSpec = Some spec' /\
    top_of spec' = Some top' /\
    (forall key value,
       NoDup (map fst storage) -> In (key, value) storage ->
       wanted xxhashAsHex modules key = true -> top' !! key = Some value) /\
    (forall key,
       wanted xxhashAsHex modules key = false -> top' !! key = top !! key).
Proof.
  intros Htop populated.
  split; [|split].
  - unfold populated, populate_prefixes. now rewrite populate_fold.
  - unfold populated, populate_prefixes. now rewrite populate_fold.
  - destruct (insert_storage_spec (fst populated) storage forkedSpec top Htop)
      as (spec' & top' & H1 & H2 & _ & H3 & H4 & _).
    exists spec', top'. split; [exact H1|]. split; [exact H2|]. split.
    + intros key value Hnd Hin Hw. apply (H3 key value Hnd Hin).
      unfold populated. now rewrite some_prefix_populated.
    + intros key Hw. apply H4.
      unfold populated. now rewrite some_prefix_populated.
Qed.

Lemma selection_by_pallet_witness :
  let xxhashAsHex := fun name => "0x" +:+ name in
  let modules := [ {| pallet_name := "System"; pallet_storage := true |};
                   {| pallet_name := "Babe"; pallet_storage := true |};
                   {| pallet_name := "Utility"; pallet_storage := false |};
                   {| pallet_name := "Balances"; pallet_storage := true |} ] in
  let storage := [("0xSystem01", Str "0x01"); ("0xBabe01", Str "0x02");
                  ("0xBalances01", Str "0x03")] in
  let forkedSpec : gmap string json :=
    {[ "genesis" := Obj {[ "raw" := Obj {[ "top" :=
         Obj {[ "0xBabe01" := Str "0xdev" ]} ]} ]} ]} in
  let populated := populate_prefixes xxhashAsHex [System_Account] modules in
  fst populated = [System_Account; "0xSystem"; "0xBalances"] /\
  snd populated = ["Babe"] /\
  exists spec' top',
    insert_storage (fst populated) storage forkedSpec = Some spec' /\
    top_of spec' = Some top' /\
    top' !! "0xBalances01" = Some (Str "0x03") /\
    top' !! "0xBabe01" = Some (Str "0xdev").
Proof.
  intros xxhashAsHex modules storage forkedSpec populated.
  destruct (selection_by_pallet xxhashAsHex modules storage forkedSpec
              {[ "0xBabe01" := Str "0xdev" ]} eq_refl)
    as (H1 & H2 & spec' & top' & H3 & H4 & H5 & H6).
  split; [exact H1|]. split; [exact H2|].
  exists spec', top'. split; [exact H3|]. split; [exact H4|]. split.
  - apply H5; [|simpl; tauto|reflexivity].
    apply (bool_decide_unpack _). vm_compute. exact I.
  - rewrite H6 by reflexivity. reflexivity.
Defined.

(** ** A node whose pages are always full *)

Lemma while_full_pages_spin (node : Endpoint) (prefix at_ : string) :
  (forall startKey,
     length (state_getKeysPaged node prefix page startKey at_) = page) ->
  forall fuel keys,
    outcome node (while_full_page fuel prefix at_ keys page) = None /\
    length (batches (events node (while_full_page fuel prefix at_ keys page)))
    = fuel /\
    enumerations (requests (events node
      (while_full_page fuel prefix at_ keys page))) = fuel.
Proof.
  intros Hfull. pose proof page_pos as Hpos.
  induction fuel as [|fuel IH]; intros keys.
  - cbn [while_full_page]. rewrite Nat.eqb_refl. now repeat split.
  - rewrite outcome_while_step, events_while_step. cbv zeta.
    set (keys' := state_getKeysPaged node prefix page (keys !! (page - 1)) at_).
    assert (Hlen : length keys' = page) by apply Hfull.
    rewrite Hlen. destruct (IH keys') as (Ho & Hb & He).
    split; [exact Ho|].
    rewrite !batches_app, !requests_app, !enumerations_app, !length_app.
    rewrite Hb, He, batches_page_events_eq, enumerations_page_events.
    unfold page_batches. rewrite Hlen.
    destruct (Nat.ltb_spec 0 page) as [_|Hle]; [|lia].
    split; reflexivity.
Qed.

(** X11.  Pages that are always full.  When the node answers every page
    request under [prefix] with a full page of 512 keys, whatever the
    cursor, the base case does not return: for every budget of loop turns
    the loop is still running when the budget is used up, having asked for
    one more page and appended one more batch to the file at each turn. *)
Theorem full_pages_never_end (node : Endpoint) (prefix at_ : string)
    (w : world) :
  (forall startKey,
     length (state_getKeysPaged node prefix page startKey at_) = page) ->
  forall fuel,
    run node (fetchChunks_base fuel prefix at_) w = None /\
    length (batches (events node (fetchChunks_base fuel prefix at_)))
    = S fuel /\
    enumerations (requests (events node (fetchChunks_base fuel prefix at_)))
    = S fuel.
Proof.
  intros Hfull fuel. pose proof page_pos as Hpos.
  set (keys := state_getKeysPaged node prefix page None at_).
  assert (Hlen : length keys = page) by apply Hfull.
  destruct (while_full_pages_spin node prefix at_ Hfull fuel keys)
    as (Ho & Hb & He).
  split; [|split].
  - rewrite run_trace, outcome_base. cbv zeta. fold keys.
    now rewrite Hlen, Ho.
  - rewrite events_base. cbv zeta. fold keys. rewrite Hlen, Ho.
    destruct (Nat.ltb_spec 0 page) as [_|Hle]; [|lia].
    rewrite !batches_app, batches_store_page, !length_app, Hb.
    cbn. lia.
  - rewrite events_base. cbv zeta. fold keys. rewrite Hlen, Ho.
    destruct (Nat.ltb_spec 0 page) as [_|Hle]; [|lia].
    rewrite !requests_app, !enumerations_app, He.
    change (events node (store_page keys at_))
      with (if 0 <? S (pred page) then events node (store_page keys at_)
            else []).
    replace (S (pred page)) with (length keys) by lia.
    fold (page_events node keys at_).
    rewrite enumerations_page_events. cbn. lia.
Qed.

Lemma full_pages_never_end_witness :
  let node := stuck_node "0xf1" in
  run node (fetchChunks_base 3 "0x" "0xf1") (initial None) = None /\
  length (batches (events node (fetchChunks_base 3 "0x" "0xf1"))) = 4 /\
  enumerations (requests (events node (fetchChunks_base 3 "0x" "0xf1"))) = 4.
Proof.
  intros node.
  apply (full_pages_never_end node "0x" "0xf1" (initial None)).
  intros startKey. cbn [state_getKeysPaged node stuck_node].
  unfold numbered_keys. now rewrite length_map, length_seq.
Defined.
